(** * The MCP client and tool-invocation layer of ai-agent

    A shallow embedding of
    - [MCPClient] (src/mcp/mcp-client.ts): the pending-request registry,
      [sendRequest], [handleSSEMessage], [callTool], [disconnect];
    - [MCPToolWrapper] (src/agent/mcp-tools.ts as bundled in
      langchain-agent.ts): [mapInputToSchema], [convertValueToSchemaType],
      [validateAndCleanArgs], [getDefaultValueForSchema],
      [getPropertyPriority], [formatToolResult], [executeInternal];
    - [LangChainMCPAgent.processMessage]: the bounded conversation history.

    Conventions of the embedding.
    - JavaScript values are the JSON-shaped values the tool layer receives
      (undefined, null, booleans, numbers, strings, arrays, plain objects).
      A plain object is the list of its own properties in the order of
      [Object.keys]: array indices first, in ascending order, then the
      other names in the order of their creation. Its prototype is
      [Object.prototype]: the operator [in] and a read [obj[key]] see the
      members that every object inherits ([inherited], [hasProperty],
      [propertyAt]); a call [value.toString()] finds an own property named
      toString before the inherited method, and throws when it does
      ([toString]). An assignment [obj[key] = v] is [assign]; for the key
      __proto__ it runs the setter of [Object.prototype] and creates no
      own property. That setter replaces the prototype of [obj] when [v]
      is an object or null: the model follows the own properties only, and
      the theorems on the cleaning pass exclude argument sets with an own
      property of that name.
    - A string is the sequence of its UTF-16 code units, each below 256;
      white space ([\s], [trim], [parseFloat]) and [toLowerCase] are those
      of JavaScript on these code units.
    - A number is NaN, an infinity, or a decimal [m * 10^e] that stands for
      the double nearest to it. Parsing, [Math.floor] and printing are
      computed on the decimal, which is what the double operations give on
      the decimals of at most 15 significant digits within the range of
      the normal doubles ([exact]); the theorems that state the value of a
      parsed number assume it. The sign of zero is not modelled.
    - [throw] is the [Throw] constructor of [Result]; [logger.warn] appends
      to an explicit list of warnings; the other logger calls have no
      effect on the program and are left out.
    - A promise is a cell that is pending or settled; [resolve] and
      [reject] settle a pending promise and do nothing to a settled one.
      What happens between two [await]s is one step of the client: a
      request is submitted, a message arrives on the event stream, a POST
      is accepted or fails, a timeout fires, the client disconnects.
      [uuidv4()] is a parameter of the step that calls it. *)

From Stdlib Require Import ZArith NArith String Ascii List Bool Lia DecimalString.
From stdpp Require Import base option list gmap strings.

Local Open Scope string_scope.
Local Open Scope list_scope.

(** ** JavaScript primitives used by the code *)

Module JS.

(** *** Characters and strings *)

(** White space and line terminators among the code units below 256:
    tab, line feed, vertical tab, form feed, carriage return, space and
    the no-break space. *)
Definition isWhiteSpace (c : ascii) : bool :=
  let n := nat_of_ascii c in
  Nat.eqb n 32 || (Nat.leb 9 n && Nat.leb n 13) || Nat.eqb n 160.

Definition isDigit (c : ascii) : bool :=
  let n := nat_of_ascii c in Nat.leb 48 n && Nat.leb n 57.

(** The lower-case mapping of a code unit below 256: the letters A to Z,
    and the accented capitals 192 to 222 without the multiplication sign
    215. *)
Definition lowerChar (c : ascii) : ascii :=
  let n := nat_of_ascii c in
  if (Nat.leb 65 n && Nat.leb n 90) ||
     (Nat.leb 192 n && Nat.leb n 222 && negb (Nat.eqb n 215))
  then ascii_of_nat (n + 32) else c.

(** [String.prototype.toLowerCase] *)
Fixpoint toLowerCase (s : string) : string :=
  match s with
  | EmptyString => EmptyString
  | String c s' => String (lowerChar c) (toLowerCase s')
  end.

Fixpoint startsWith (p s : string) : bool :=
  match p, s with
  | EmptyString, _ => true
  | String a p', String b s' => Ascii.eqb a b && startsWith p' s'
  | String _ _, EmptyString => false
  end.

(** [String.prototype.includes] *)
Fixpoint includes (s sub : string) : bool :=
  startsWith sub s ||
  match s with
  | EmptyString => false
  | String _ s' => includes s' sub
  end.

Fixpoint trimStart (s : string) : string :=
  match s with
  | String c s' => if isWhiteSpace c then trimStart s' else s
  | EmptyString => EmptyString
  end.

Fixpoint trimEnd (s : string) : string :=
  match s with
  | EmptyString => EmptyString
  | String c s' =>
      match trimEnd s' with
      | EmptyString => if isWhiteSpace c then EmptyString else String c EmptyString
      | t => String c t
      end
  end.

(** [String.prototype.trim] *)
Definition trim (s : string) : string := trimEnd (trimStart s).

Definition snoc (s : string) (c : ascii) : string := s +:+ String c EmptyString.

(** [s.split(/\s+/)]: the pieces between maximal runs of white space;
    [cur] is the piece being read, [inSep] tells whether the previous
    character belonged to a separator. *)
Fixpoint splitWS_from (cur : string) (inSep : bool) (s : string) : list string :=
  match s with
  | EmptyString => [cur]
  | String c s' =>
      if isWhiteSpace c
      then if inSep then splitWS_from cur true s'
           else cur :: splitWS_from EmptyString true s'
      else splitWS_from (snoc cur c) false s'
  end.

Definition splitWS (s : string) : list string := splitWS_from EmptyString false s.

(** [Array.prototype.join] on strings *)
Fixpoint join (sep : string) (l : list string) : string :=
  match l with
  | [] => EmptyString
  | [x] => x
  | x :: rest => x +:+ sep +:+ join sep rest
  end.

(** Longest prefix of characters satisfying [p], and the rest. *)
Fixpoint span (p : ascii -> bool) (s : string) : string * string :=
  match s with
  | EmptyString => (EmptyString, EmptyString)
  | String c s' =>
      if p c then let '(a, b) := span p s' in (String c a, b)
      else (EmptyString, s)
  end.

(** *** The two regular expressions of [mapInputToSchema] *)

Inductive ScanState :=
  | Outside
  | InInt (acc : string)
  | AfterDot (acc : string)
  | InFrac (acc : string).

(** All matches of [/(\d+(?:\.\d+)?)/g], leftmost first. After the integer
    digits a dot is taken only when a digit follows it. *)
Fixpoint scanNumbers (st : ScanState) (s : string) : list string :=
  match s with
  | EmptyString =>
      match st with
      | Outside => []
      | InInt a | AfterDot a | InFrac a => [a]
      end
  | String c s' =>
      match st with
      | Outside =>
          if isDigit c then scanNumbers (InInt (String c EmptyString)) s'
          else scanNumbers Outside s'
      | InInt a =>
          if isDigit c then scanNumbers (InInt (snoc a c)) s'
          else if Ascii.eqb c "."%char then scanNumbers (AfterDot a) s'
          else a :: scanNumbers Outside s'
      | AfterDot a =>
          if isDigit c then scanNumbers (InFrac (snoc (snoc a "."%char) c)) s'
          else a :: scanNumbers Outside s'
      | InFrac a =>
          if isDigit c then scanNumbers (InFrac (snoc a c)) s'
          else a :: scanNumbers Outside s'
      end
  end.

(** [input.match(/(\d+(?:\.\d+)?)/g)]: [None] is JavaScript's [null]. *)
Definition matchNumbers (input : string) : option (list string) :=
  match scanNumbers Outside input with
  | [] => None
  | ms => Some ms
  end.

(** [/^\d+(\.\d+)?$/.test(word)] *)
Definition isNumericWord (word : string) : bool :=
  match span isDigit word with
  | (EmptyString, _) => false
  | (_, EmptyString) => true
  | (_, String c rest) =>
      Ascii.eqb c "."%char &&
      match span isDigit rest with
      | (String _ _, EmptyString) => true
      | _ => false
      end
  end.

(** *** Numbers *)

(** A number is NaN, an infinity, or the decimal [m * 10^e]. In normal form
    [m] is not divisible by ten, and zero is [Dec 0 0]. *)
Inductive number :=
  | NaN
  | Infinity (neg : bool)
  | Dec (m : Z) (e : Z).

Fixpoint stripZeros (fuel : nat) (m e : Z) : Z * Z :=
  match fuel with
  | O => (m, e)
  | S fuel' =>
      if Z.eqb (m mod 10) 0 then stripZeros fuel' (m / 10) (e + 1) else (m, e)
  end%Z.

Definition normalize (m e : Z) : number :=
  if Z.eqb m 0 then Dec 0 0
  else let '(m', e') := stripZeros (S (Z.to_nat (Z.log2 (Z.abs m)))) m e in Dec m' e'.

Definition ofZ (z : Z) : number := normalize z 0.

Definition isNaN (x : number) : bool :=
  match x with NaN => true | _ => false end.

(** The numbers on which the decimal arithmetic of the model is that of
    the doubles: NaN, the infinities, zero, and the decimals of at most 15
    significant digits between 1e-307 and 1e307. *)
Definition exact (x : number) : bool :=
  match x with
  | Dec m e =>
      Z.eqb m 0 ||
      (Z.ltb (Z.abs m) (10 ^ 15) && Z.leb (-307) e && Z.leb e 292)
  | _ => true
  end%Z.

Definition digitVal (c : ascii) : N := (N_of_ascii c - 48)%N.

Fixpoint digitsToN (acc : N) (s : string) : N :=
  match s with
  | EmptyString => acc
  | String c s' => digitsToN (10 * acc + digitVal c)%N s'
  end.

Definition isHexDigit (c : ascii) : bool :=
  let n := nat_of_ascii c in
  isDigit c || (Nat.leb 65 n && Nat.leb n 70) || (Nat.leb 97 n && Nat.leb n 102).

Definition hexVal (c : ascii) : N :=
  let n := N_of_ascii c in
  if isDigit c then (n - 48)%N
  else if N.leb 97 n then (n - 87)%N else (n - 55)%N.

Fixpoint hexToN (acc : N) (s : string) : N :=
  match s with
  | EmptyString => acc
  | String c s' => hexToN (16 * acc + hexVal c)%N s'
  end.

(** An optional sign in front of a numeric literal. *)
Definition takeSign (s : string) : bool * string :=
  match s with
  | String "-" r => (true, r)
  | String "+" r => (false, r)
  | _ => (false, s)
  end.

Definition signed (neg : bool) (n : N) : Z :=
  if neg then (- Z.of_N n)%Z else Z.of_N n.

(** The exponent part [e|E [+|-] digits] of a decimal literal, zero when
    it is absent or incomplete. *)
Definition exponentPart (s : string) : Z :=
  match s with
  | String c r =>
      if Ascii.eqb c "e"%char || Ascii.eqb c "E"%char then
        let '(eneg, r') := takeSign r in
        let '(ed, _) := span isDigit r' in
        match ed with
        | EmptyString => 0%Z
        | _ => signed eneg (digitsToN 0 ed)
        end
      else 0%Z
  | EmptyString => 0%Z
  end.

(** [parseFloat(s)]: the longest prefix of the trimmed string that is a
    decimal literal, NaN when there is none. *)
Definition parseFloat (s : string) : number :=
  let '(neg, s1) := takeSign (trimStart s) in
  if startsWith "Infinity" s1 then Infinity neg
  else
    let '(ip, r1) := span isDigit s1 in
    let '(fp, r2) :=
      match r1 with
      | String "." r => span isDigit r
      | _ => (EmptyString, r1)
      end in
    match ip, fp with
    | EmptyString, EmptyString => NaN
    | _, _ =>
        normalize (signed neg (digitsToN 0 (ip +:+ fp)))
                  (exponentPart r2 - Z.of_nat (String.length fp))
    end.

(** [parseInt(s)] without a radix: decimal digits, or hexadecimal digits
    after a [0x] prefix. *)
Definition parseInt (s : string) : number :=
  let '(neg, s1) := takeSign (trimStart s) in
  match s1 with
  | String "0" (String x r) =>
      if Ascii.eqb x "x"%char || Ascii.eqb x "X"%char then
        match span isHexDigit r with
        | (EmptyString, _) => NaN
        | (hd, _) => ofZ (signed neg (hexToN 0 hd))
        end
      else ofZ (signed neg (digitsToN 0 (fst (span isDigit s1))))
  | _ =>
      match span isDigit s1 with
      | (EmptyString, _) => NaN
      | (d, _) => ofZ (signed neg (digitsToN 0 d))
      end
  end.

(** [Math.floor] *)
Definition floor (x : number) : number :=
  match x with
  | Dec m e => if Z.leb 0 e then x else ofZ (m / 10 ^ (- e))%Z
  | _ => x
  end.

Definition natToString (n : N) : string := NilZero.string_of_uint (N.to_uint n).

Fixpoint zeros (n : nat) : string :=
  match n with
  | O => EmptyString
  | S n' => String "0" (zeros n')
  end.

(** [Number.prototype.toString]: the digits [ds] of the mantissa with the
    decimal point after [n] of them, in plain notation for
    [-6 < n <= 21] and in exponent notation otherwise. *)
Definition numberToString (x : number) : string :=
  match x with
  | NaN => "NaN"
  | Infinity neg => if neg then "-Infinity" else "Infinity"
  | Dec m e =>
      if Z.eqb m 0 then "0"
      else
        let ds := natToString (Z.to_N (Z.abs m)) in
        let k := Z.of_nat (String.length ds) in
        let n := (k + e)%Z in
        (if Z.ltb m 0 then "-" else EmptyString) +:+
        (if Z.leb k n && Z.leb n 21 then ds +:+ zeros (Z.to_nat (n - k))
         else if Z.ltb 0 n && Z.leb n 21 then
           substring 0 (Z.to_nat n) ds +:+ "." +:+
           substring (Z.to_nat n) (Z.to_nat (k - n)) ds
         else if Z.ltb (-6) n && Z.leb n 0 then
           "0." +:+ zeros (Z.to_nat (- n)) +:+ ds
         else
           let es := (if Z.ltb (n - 1) 0 then "-" else "+") +:+
                     natToString (Z.to_N (Z.abs (n - 1))) in
           match ds with
           | String d EmptyString => String d ("e" +:+ es)
           | String d rest => String d ("." +:+ rest +:+ "e" +:+ es)
           | EmptyString => EmptyString
           end)
  end.

(** *** Exceptions *)

(** The outcome of code that may [throw]. *)
Inductive Result (A : Type) : Type :=
  | Ok (a : A)
  | Throw (msg : string).
Arguments Ok {A} a.
Arguments Throw {A} msg.

Definition bind {A B : Type} (r : Result A) (k : A -> Result B) : Result B :=
  match r with
  | Ok a => k a
  | Throw msg => Throw msg
  end.

Notation "'let*' x ':=' r 'in' k" := (bind r (fun x => k))
  (at level 10, x name, r at level 100, k at level 200).

(** *** Values *)

#[local] Set Warnings "-register-all".

Inductive JVal :=
  | JUndefined
  | JNull
  | JBool (b : bool)
  | JNum (n : number)
  | JStr (s : string)
  | JArr (items : list JVal)
  | JObj (fields : list (string * JVal)).

(** A plain object: its own properties, in the order of [Object.keys]. *)
Definition Obj := list (string * JVal).

(** [typeof v === 'object'] *)
Definition typeofObject (v : JVal) : bool :=
  match v with
  | JNull | JArr _ | JObj _ => true
  | _ => false
  end.

(** Truthiness, as tested by [if (v)], [v && ...] and [Boolean(v)]. *)
Definition truthy (v : JVal) : bool :=
  match v with
  | JUndefined | JNull => false
  | JBool b => b
  | JNum NaN => false
  | JNum (Dec m _) => negb (Z.eqb m 0)
  | JNum (Infinity _) => true
  | JStr s => negb (String.eqb s EmptyString)
  | JArr _ | JObj _ => true
  end.

(** *** Own and inherited properties *)

(** [Object.prototype.hasOwnProperty.call(obj, key)] *)
Fixpoint hasOwn (key : string) (o : Obj) : bool :=
  match o with
  | [] => false
  | (k, _) :: rest => String.eqb k key || hasOwn key rest
  end.

(** The value of the own property [key]. *)
Fixpoint getKey (key : string) (o : Obj) : option JVal :=
  match o with
  | [] => None
  | (k, v) :: rest => if String.eqb k key then Some v else getKey key rest
  end.

(** The properties of [Object.prototype], which every plain object
    inherits. *)
Definition objectPrototype : list string :=
  ["constructor"; "__defineGetter__"; "__defineSetter__"; "hasOwnProperty";
   "__lookupGetter__"; "__lookupSetter__"; "isPrototypeOf";
   "propertyIsEnumerable"; "toString"; "valueOf"; "__proto__"; "toLocaleString"].

Definition inherited (key : string) : bool :=
  existsb (String.eqb key) objectPrototype.

(** [key in obj], for an object whose prototype is [Object.prototype]. *)
Definition hasProperty (key : string) (o : Obj) : bool :=
  hasOwn key o || inherited key.

(** An array index: the decimal numeral, without leading zero, of an
    integer below 2^32 - 1. *)
Definition isArrayIndex (key : string) : bool :=
  match key with
  | EmptyString => false
  | String "0" EmptyString => true
  | String c rest =>
      negb (Ascii.eqb c "0"%char) && isDigit c &&
      String.eqb (snd (span isDigit rest)) EmptyString &&
      N.ltb (digitsToN 0 key) 4294967295
  end.

(** The own property [key] gets the value [v], in its place. *)
Fixpoint replaceOwn (key : string) (v : JVal) (o : Obj) : Obj :=
  match o with
  | [] => []
  | (k, w) :: rest =>
      if String.eqb k key then (k, v) :: rest else (k, w) :: replaceOwn key v rest
  end.

(** A new array index goes before the larger indices and the names. *)
Fixpoint insertIndex (key : string) (v : JVal) (o : Obj) : Obj :=
  match o with
  | [] => [(key, v)]
  | (k, w) :: rest =>
      if isArrayIndex k && N.ltb (digitsToN 0 k) (digitsToN 0 key)
      then (k, w) :: insertIndex key v rest
      else (key, v) :: o
  end.

(** [obj[key] = v], for an object whose prototype is [Object.prototype]:
    an own property keeps its place; the key __proto__, when it is not an
    own property, reaches the setter of [Object.prototype], which creates
    no property; a new array index goes among the indices; another new
    name goes last. *)
Definition assign (key : string) (v : JVal) (o : Obj) : Obj :=
  if hasOwn key o then replaceOwn key v o
  else if String.eqb key "__proto__" then o
  else if isArrayIndex key then insertIndex key v o
  else o ++ [(key, v)].

(** *** toString *)

Definition notAFunction : string := "TypeError: value.toString is not a function".

Definition notPrimitive : string := "TypeError: Cannot convert object to primitive value".

Definition ofNullish : string :=
  "TypeError: Cannot read properties of undefined (reading 'toString')".

(** The text of a value. An object with an own property named toString
    does not reach [Object.prototype.toString]: the property is no
    function, and the conversion throws [msg]. An array joins the texts of
    its elements, the empty text for null and undefined. *)
Fixpoint stringOf (msg : string) (v : JVal) : Result string :=
  match v with
  | JUndefined => Ok "undefined"
  | JNull => Ok "null"
  | JBool b => Ok (if b then "true" else "false")
  | JNum n => Ok (numberToString n)
  | JStr s => Ok s
  | JArr items =>
      let* parts :=
        (fix elements (l : list JVal) : Result (list string) :=
           match l with
           | [] => Ok []
           | x :: rest =>
               let* t := match x with
                         | JUndefined | JNull => Ok EmptyString
                         | _ => stringOf notPrimitive x
                         end in
               let* ts := elements rest in
               Ok (t :: ts)
           end) items in
      Ok (join "," parts)
  | JObj fields =>
      if hasOwn "toString" fields then Throw msg else Ok "[object Object]"
  end.

(** [v.toString()] *)
Definition toString (v : JVal) : Result string :=
  match v with
  | JUndefined | JNull => Throw ofNullish
  | _ => stringOf notAFunction v
  end.

(** The values whose conversion to text returns: no object with an own
    property named toString, at any depth of arrays. *)
Fixpoint printable (v : JVal) : bool :=
  match v with
  | JArr items => forallb printable items
  | JObj fields => negb (hasOwn "toString" fields)
  | _ => true
  end.

(** *** JSON.stringify on strings *)

Definition hexDigitChar (n : N) : ascii :=
  if N.ltb n 10 then ascii_of_N (48 + n) else ascii_of_N (87 + n).

Definition dquote : ascii := ascii_of_nat 34.

Definition escapeChar (c : ascii) : string :=
  let n := N_of_ascii c in
  if Ascii.eqb c dquote then String "\" (String dquote EmptyString)
  else if Ascii.eqb c "\"%char then "\\"
  else if N.eqb n 8 then "\b"
  else if N.eqb n 9 then "\t"
  else if N.eqb n 10 then "\n"
  else if N.eqb n 12 then "\f"
  else if N.eqb n 13 then "\r"
  else if N.ltb n 32 then
    "\u00" +:+ String (hexDigitChar (n / 16)) (String (hexDigitChar (n mod 16)) EmptyString)
  else String c EmptyString.

Fixpoint escapeString (s : string) : string :=
  match s with
  | EmptyString => EmptyString
  | String c s' => escapeChar c +:+ escapeString s'
  end.

Definition quote (s : string) : string :=
  String dquote (escapeString s +:+ String dquote EmptyString).

End JS.

(** ** The tool wrapper: [MCPToolWrapper] *)

Module Tools.
Import JS.

(** *** Schemas (types/mcp.ts, [MCPTool]) *)

(** The [type] of a declared parameter; [TOther] stands for any other or
    absent type string, the [default] branch of the switches. *)
Inductive SchemaType :=
  | TString | TNumber | TInteger | TBoolean | TArray | TObject | TOther.

Record PropSchema := {
  type : SchemaType;
  description : option string;
  enum : option (list string)
}.

(** [properties] lists the declared parameters in the order of
    [Object.keys(properties)]. *)
Record InputSchema := {
  properties : list (string * PropSchema);
  required : list string
}.

Record MCPTool := {
  name : string;
  tool_description : string;
  inputSchema : InputSchema
}.

(** The schema that [properties] declares for [key], an own property. *)
Fixpoint getProp (key : string) (props : list (string * PropSchema)) : option PropSchema :=
  match props with
  | [] => None
  | (k, ps) :: rest => if String.eqb k key then Some ps else getProp key rest
  end.

(** What the code reads from a member of [Object.prototype] taken for a
    schema: the member is truthy, and has no [type] and no [enum]. *)
Definition inheritedMember : PropSchema :=
  {| type := TOther; description := None; enum := None |}.

(** [properties[key]]: the declared schema, or the member of
    [Object.prototype] of that name, or [undefined]. *)
Definition propertyAt (key : string) (props : list (string * PropSchema))
  : option PropSchema :=
  match getProp key props with
  | Some ps => Some ps
  | None => if inherited key then Some inheritedMember else None
  end.

Definition isNumericType (t : SchemaType) : bool :=
  match t with
  | TNumber | TInteger => true
  | _ => false
  end.

Definition isStringType (t : SchemaType) : bool :=
  match t with
  | TString => true
  | _ => false
  end.

(** [arr.includes(word)] on an array of strings *)
Definition inArray (word : string) (arr : list string) : bool :=
  existsb (String.eqb word) arr.

Definition typeError : string :=
  "TypeError: Cannot read properties of undefined (reading 'type')".

Definition zero : number := Dec 0 0.

(** *** convertValueToSchemaType *)

Definition convertValueToSchemaType (value : JVal) (propSchema : option PropSchema)
  : Result JVal :=
  match value with
  | JNull | JUndefined => Ok value
  | _ =>
      match propSchema with
      | None => Throw typeError
      | Some ps =>
          match type ps with
          | TNumber =>
              let* text := toString value in
              let numValue := parseFloat text in
              Ok (JNum (if isNaN numValue then zero else numValue))
          | TInteger =>
              let* text := toString value in
              let intValue := parseInt text in
              Ok (JNum (if isNaN intValue then zero else intValue))
          | TBoolean =>
              match value with
              | JBool _ => Ok value
              | JStr s => Ok (JBool (String.eqb (toLowerCase s) "true" || String.eqb s "1"))
              | _ => Ok (JBool (truthy value))
              end
          | TString =>
              let* text := toString value in
              Ok (JStr text)
          | TArray =>
              match value with
              | JArr _ => Ok value
              | _ => Ok (JArr [value])
              end
          | TObject =>
              if typeofObject value then Ok value else Ok (JObj [("value", value)])
          | TOther => Ok value
          end
      end
  end.

(** *** getPropertyPriority *)

Definition getPropertyPriority (propName : string) (propSchema : PropSchema) : nat :=
  let name := toLowerCase propName in
  if includes name "query" || includes name "search" then 10
  else if includes name "name" || includes name "title" then 9
  else if includes name "id" then 8
  else if includes name "category" || includes name "type" then 7
  else if includes name "text" || includes name "content" then 6
  else if includes name "description" || includes name "summary" then 5
  else match enum propSchema with
       | Some _ => 4
       | None => 1
       end.

(** *** getDefaultValueForSchema *)

Definition getDefaultValueForSchema (propSchema : option PropSchema) : Result JVal :=
  match propSchema with
  | None => Throw typeError
  | Some ps =>
      match type ps with
      | TNumber | TInteger => Ok (JNum zero)
      | TBoolean => Ok (JBool false)
      | TString =>
          match enum ps with
          | Some (first :: _) => Ok (JStr first)
          | Some [] => Ok JUndefined
          | None => Ok (JStr EmptyString)
          end
      | TArray => Ok (JArr [])
      | TObject => Ok (JObj [])
      | TOther => Ok JNull
      end
  end.

(** *** mapInputToSchema

    The loops of the string branch are separate functions. A parameter
    name travels with its schema, the value [properties[prop]] that each
    loop reads. *)

(** [numericProps.forEach((prop, index) => ...)]: the i-th numeric
    parameter receives the i-th match, as long as there are matches. *)
Fixpoint assignNumbers (numericProps : list (string * PropSchema))
    (numberMatches : list string) (result : Obj) : Result Obj :=
  match numericProps, numberMatches with
  | (prop, ps) :: props', m :: ms' =>
      let* v := convertValueToSchemaType (JStr m) (Some ps) in
      assignNumbers props' ms' (assign prop v result)
  | _, _ => Ok result
  end.

(** [words.splice(words.indexOf(w), 1)] *)
Fixpoint removeFirst (w : string) (words : list string) : list string :=
  match words with
  | [] => []
  | x :: rest => if String.eqb x w then rest else x :: removeFirst w rest
  end.

(** The loop over the enum-bearing string parameters; it stops at the
    first assignment. *)
Fixpoint assignEnum (stringProps : list (string * PropSchema))
    (result : Obj) (words : list string) : Obj * list string :=
  match stringProps with
  | [] => (result, words)
  | (prop, ps) :: rest =>
      match enum ps with
      | Some allowed =>
          match List.find (fun word => inArray (toLowerCase word) allowed
                                       || inArray word allowed) words with
          | Some matchingEnum =>
              if negb (String.eqb matchingEnum EmptyString) && negb (hasProperty prop result)
              then (assign prop (JStr matchingEnum) result, removeFirst matchingEnum words)
              else assignEnum rest result words
          | None => assignEnum rest result words
          end
      | None => assignEnum rest result words
      end
  end.

(** The loop that hands the remaining words to the string parameters. *)
Fixpoint assignByPriority (stringProps : list (string * PropSchema))
    (result : Obj) (words : list string) : Obj * list string :=
  match stringProps with
  | [] => (result, words)
  | (prop, ps) :: rest =>
      match words with
      | [] => (result, words)
      | w :: ws =>
          if hasProperty prop result then assignByPriority rest result words
          else
            let priority := getPropertyPriority prop ps in
            if Nat.eqb (List.length words) 1 || Nat.ltb 0 priority
            then assignByPriority rest (assign prop (JStr w) result) ws
            else assignByPriority rest result words
      end
  end.

(** The words left over go, joined, to the first string parameter that
    has no value yet. *)
Definition assignRemaining (stringProps : list (string * PropSchema))
    (result : Obj) (words : list string) : Obj :=
  match words with
  | [] => result
  | _ =>
      match List.filter (fun p => negb (hasProperty (fst p) result)) stringProps with
      | (bestProp, _) :: _ => assign bestProp (JStr (join " " words)) result
      | [] => result
      end
  end.

(** [for (const reqProp of required) if (!(reqProp in result)) ...] *)
Fixpoint fillRequired (props : list (string * PropSchema)) (req : list string)
    (result : Obj) : Result Obj :=
  match req with
  | [] => Ok result
  | reqProp :: rest =>
      if hasProperty reqProp result then fillRequired props rest result
      else
        let* d := getDefaultValueForSchema (propertyAt reqProp props) in
        fillRequired props rest (assign reqProp d result)
  end.

Definition isCommonName (prop : string) : bool :=
  let p := toLowerCase prop in
  includes p "query" || includes p "name" || includes p "id" ||
  includes p "search" || includes p "text".

(** [for (const propName of required) if (!(propName in result)) { ...; break }]:
    the input goes to the first required name that is not in [result]. *)
Fixpoint mapRequired (props : list (string * PropSchema)) (req : list string)
    (input : JVal) (result : Obj) : Result Obj :=
  match req with
  | [] => Ok result
  | propName :: rest =>
      if hasProperty propName result then mapRequired props rest input result
      else
        let* v := convertValueToSchemaType input (propertyAt propName props) in
        Ok (assign propName v result)
  end.

(** The last fallback: the input goes to the first required parameter
    that the loop accepts, or to the first declared one when the loop
    left the result empty. *)
Definition mapFallback (props : list (string * PropSchema)) (req : list string)
    (input : JVal) : Result JVal :=
  let* result := mapRequired props req input [] in
  match result, props with
  | [], (propName, ps) :: _ =>
      let* v := convertValueToSchemaType input (Some ps) in
      Ok (JObj (assign propName v result))
  | _, _ => Ok (JObj result)
  end.

Definition mapStringInput (props : list (string * PropSchema)) (req : list string)
    (input : string) : Result JVal :=
  let words := splitWS (trim input) in
  let numberMatches := matchNumbers input in
  let numericProps := List.filter (fun p => isNumericType (type (snd p))) props in
  let stringProps := List.filter (fun p => isStringType (type (snd p))) props in
  let* result :=
    match numberMatches, numericProps with
    | Some ms, _ :: _ => assignNumbers numericProps ms []
    | _, _ => Ok []
    end in
  let result :=
    match stringProps with
    | [] => result
    | _ =>
        let nonNumericWords := List.filter (fun w => negb (isNumericWord w)) words in
        match nonNumericWords with
        | [] => result
        | _ =>
            let '(result, nonNumericWords) := assignEnum stringProps result nonNumericWords in
            let '(result, nonNumericWords) := assignByPriority stringProps result nonNumericWords in
            assignRemaining stringProps result nonNumericWords
        end
    end in
  match result with
  | _ :: _ =>
      let* result := fillRequired props req result in
      Ok (JObj result)
  | [] =>
      match stringProps with
      | (first, _) :: _ =>
          let bestMatch :=
            match List.find (fun p => isCommonName (fst p)) stringProps with
            | Some (prop, _) => if String.eqb prop EmptyString then first else prop
            | None => first
            end in
          Ok (JObj [(bestMatch, JStr input)])
      | [] => mapFallback props req (JStr input)
      end
  end.

Definition mapInputToSchema (tool : MCPTool) (input : JVal) : Result JVal :=
  let props := properties (inputSchema tool) in
  let req := required (inputSchema tool) in
  match props with
  | [] => if typeofObject input then Ok input else Ok (JObj [("input", input)])
  | (propName, propSchema) :: others =>
      match input with
      | JArr _ | JObj _ => Ok input
      | _ =>
          match others with
          | [] =>
              let* convertedValue := convertValueToSchemaType input (Some propSchema) in
              Ok (JObj [(propName, convertedValue)])
          | _ =>
              match input with
              | JStr s => mapStringInput props req s
              | _ => mapFallback props req input
              end
          end
      end
  end.

(** *** validateAndCleanArgs *)

(** The switch on the declared type in the first loop: [Some v] when the
    branch assigns [cleanedArgs[key] = v], [None] when it assigns nothing. *)
Definition cleanValue (propSchema : PropSchema) (value : JVal) : Result (option JVal) :=
  match type propSchema with
  | TNumber | TInteger =>
      match value with
      | JNull | JUndefined => Ok None
      | _ =>
          let* text := toString value in
          let numValue := parseFloat text in
          if isNaN numValue then Ok None
          else Ok (Some (JNum (match type propSchema with
                               | TInteger => floor numValue
                               | _ => numValue
                               end)))
      end
  | TString =>
      match value with
      | JNull | JUndefined => Ok None
      | _ =>
          let* text := toString value in
          Ok (Some (JStr text))
      end
  | TBoolean =>
      match value with
      | JNull | JUndefined => Ok None
      | _ => Ok (Some (JBool (truthy value)))
      end
  | _ => Ok (Some value)
  end.

(** [for (const [key, value] of Object.entries(args)) if (properties[key]) ...] *)
Fixpoint cleanEntries (props : list (string * PropSchema)) (args : Obj)
    (cleanedArgs : Obj) : Result Obj :=
  match args with
  | [] => Ok cleanedArgs
  | (key, value) :: rest =>
      match propertyAt key props with
      | Some propSchema =>
          let* cleaned := cleanValue propSchema value in
          match cleaned with
          | Some v => cleanEntries props rest (assign key v cleanedArgs)
          | None => cleanEntries props rest cleanedArgs
          end
      | None => cleanEntries props rest cleanedArgs
      end
  end.

Definition missingWarning (requiredProp toolName : string) : string :=
  "Missing required parameter '" +:+ requiredProp +:+ "' for tool '" +:+ toolName +:+ "'".

(** The value the second loop gives to a missing required parameter,
    [None] when no branch of its if-chain applies. *)
Definition missingDefault (propSchema : option PropSchema) : option JVal :=
  match propSchema with
  | Some ps =>
      match type ps with
      | TNumber | TInteger => Some (JNum zero)
      | TString => Some (JStr EmptyString)
      | TBoolean => Some (JBool false)
      | _ => None
      end
  | None => None
  end.

(** [for (const requiredProp of required) if (!(requiredProp in cleanedArgs)) ...];
    the warnings are those passed to [logger.warn], oldest first. *)
Fixpoint fillMissing (toolName : string) (props : list (string * PropSchema))
    (req : list string) (cleanedArgs : Obj) (warnings : list string)
  : Obj * list string :=
  match req with
  | [] => (cleanedArgs, warnings)
  | requiredProp :: rest =>
      if hasProperty requiredProp cleanedArgs
      then fillMissing toolName props rest cleanedArgs warnings
      else
        let warnings := warnings ++ [missingWarning requiredProp toolName] in
        match missingDefault (propertyAt requiredProp props) with
        | Some d => fillMissing toolName props rest (assign requiredProp d cleanedArgs) warnings
        | None => fillMissing toolName props rest cleanedArgs warnings
        end
  end.

(** [validateAndCleanArgs(args)] on the entries of [args]. Only the first
    loop can throw, before any warning is logged. *)
Definition validateAndCleanArgs (tool : MCPTool) (args : Obj) : Result (Obj * list string) :=
  let props := properties (inputSchema tool) in
  let req := required (inputSchema tool) in
  let* cleanedArgs := cleanEntries props args [] in
  Ok (fillMissing (name tool) props req cleanedArgs []).

(** *** formatToolResult (types/mcp.ts, [MCPToolResult]) *)

Record ContentItem := {
  ctype : string;
  text : option string;
  data : option string;
  url : option string;
  mimeType : option string
}.

Record MCPToolResult := {
  content : option (list ContentItem);
  isError : option bool
}.

Definition newline : string := String (ascii_of_nat 10) EmptyString.

(** Truthiness of an optional string field. *)
Definition present (field : option string) : bool :=
  match field with
  | Some s => negb (String.eqb s EmptyString)
  | None => false
  end.

(** [field || fallback] *)
Definition orElse (field : option string) (fallback : string) : string :=
  match field with
  | Some s => if String.eqb s EmptyString then fallback else s
  | None => fallback
  end.

(** An element of an array of optional strings, as [join] prints it. *)
Definition joined (field : option string) : string :=
  match field with
  | Some s => s
  | None => EmptyString
  end.

(** [JSON.stringify(item)]: the fields that are present, in the order of
    the interface. *)
Definition stringifyItem (item : ContentItem) : string :=
  let field (key : string) (v : option string) : list string :=
    match v with
    | Some s => [quote key +:+ ":" +:+ quote s]
    | None => []
    end in
  "{" +:+ join "," (field "type" (Some (ctype item)) ++ field "text" (text item) ++
                    field "data" (data item) ++ field "url" (url item) ++
                    field "mimeType" (mimeType item)) +:+ "}".

(** [JSON.stringify(result.content)] inside a template string *)
Definition stringifyContent (c : option (list ContentItem)) : string :=
  match c with
  | Some items => "[" +:+ join "," (List.map stringifyItem items) +:+ "]"
  | None => "undefined"
  end.

Definition renderOther (item : ContentItem) : string :=
  if String.eqb (ctype item) "image" then "[Image: " +:+ orElse (url item) "data" +:+ "]"
  else if String.eqb (ctype item) "resource" then
    "[Resource: " +:+ orElse (url item) "unknown" +:+ "]"
  else "[" +:+ ctype item +:+ ": " +:+ stringifyItem item +:+ "]".

Definition formatToolResult (result : MCPToolResult) : string :=
  match content result with
  | None | Some [] => "Tool executed successfully with no output"
  | Some items =>
      let textContent :=
        join newline
          (List.map (fun item => joined (text item))
             (List.filter (fun item => String.eqb (ctype item) "text" && present (text item))
                items)) in
      if negb (String.eqb textContent EmptyString) then textContent
      else
        let otherContent :=
          join newline
            (List.map renderOther
               (List.filter (fun item => negb (String.eqb (ctype item) "text")) items)) in
        if negb (String.eqb otherContent EmptyString) then otherContent
        else stringifyContent (Some items)
  end.

(** *** executeInternal *)

Fixpoint indexed (i : N) (items : list JVal) : Obj :=
  match items with
  | [] => []
  | x :: rest => (natToString i, x) :: indexed (i + 1) rest
  end.

Fixpoint chars (i : N) (s : string) : Obj :=
  match s with
  | EmptyString => []
  | String c s' => (natToString i, JStr (String c EmptyString)) :: chars (i + 1) s'
  end.

(** [Object.entries(v)] *)
Definition entries (v : JVal) : Result Obj :=
  match v with
  | JObj fields => Ok fields
  | JArr items => Ok (indexed 0 items)
  | JStr s => Ok (chars 0 s)
  | JBool _ | JNum _ => Ok []
  | JNull | JUndefined => Throw "TypeError: Cannot convert undefined or null to object"
  end.

(** The arguments of the call: the part of [executeInternal] from the
    transformation of the input to the end of [validateAndCleanArgs],
    with the warnings it logs. *)
Definition prepareArguments (tool : MCPTool) (input : JVal) : Result (Obj * list string) :=
  let* mcpArguments :=
    if truthy input && typeofObject input then Ok input
    else if truthy input then mapInputToSchema tool input
    else Ok (JObj []) in
  let* args := entries mcpArguments in
  validateAndCleanArgs tool args.

(** [this.mcpClient.getSessionId() || this.currentSessionId] *)
Definition effectiveSession (clientSessionId : option string) (currentSessionId : string)
  : string :=
  orElse clientSessionId currentSessionId.

(** What [executeInternal] observably does. *)
Record Execution := {
  outcome : Result string;
  warnings : list string;
  calls : list (string * Obj * string)
}.

(** [executeInternal(input)]. [callTool] gives the settlement of the promise
    returned by [this.mcpClient.callTool(name, arguments, sessionId)]: [Ok]
    when it is fulfilled, [Throw] when it is rejected. *)
Definition executeInternal (tool : MCPTool) (clientSessionId : option string)
    (currentSessionId : string)
    (callTool : string -> Obj -> string -> Result MCPToolResult)
    (input : JVal) : Execution :=
  let sessionId := effectiveSession clientSessionId currentSessionId in
  match prepareArguments tool input with
  | Throw msg => {| outcome := Throw msg; warnings := []; calls := [] |}
  | Ok (mcpArguments, warns) =>
      {| outcome :=
           (let* result := callTool (name tool) mcpArguments sessionId in
            match isError result with
            | Some true =>
                Throw ("Tool execution failed: " +:+ stringifyContent (content result))
            | _ => Ok (formatToolResult result)
            end);
         warnings := warns;
         calls := [(name tool, mcpArguments, sessionId)] |}
  end.

End Tools.

(** ** The protocol client: [MCPClient] *)

Module Client.
Import JS.

(** *** Messages (types/mcp.ts) *)

(** [id?: string | number] *)
Inductive Id :=
  | IdStr (s : string)
  | IdNum (n : Z).

#[global] Instance Id_eq_dec : EqDecision Id.
Proof. solve_decision. Defined.

#[global] Instance Id_countable : Countable Id.
Proof.
  refine (inj_countable'
            (fun i => match i with IdStr s => inl s | IdNum n => inr n end)
            (fun x => match x with inl s => IdStr s | inr n => IdNum n end) _).
  intros [s|n]; reflexivity.
Defined.

Record MCPError := {
  code : Z;
  message : string;
  error_data : option JVal
}.

Record MCPMessage := {
  id : option Id;
  method : option string;
  params : option JVal;
  result : option JVal;
  error : option MCPError
}.

(** Truthiness of [message.id]: absent, the empty string and zero are
    falsy. *)
Definition idTruthy (i : option Id) : option Id :=
  match i with
  | Some (IdStr s) => if String.eqb s EmptyString then None else i
  | Some (IdNum n) => if Z.eqb n 0 then None else i
  | None => None
  end.

(** Truthiness of an optional string such as [sessionId]. *)
Definition strTruthy (s : option string) : option string :=
  match s with
  | Some x => if String.eqb x EmptyString then None else s
  | None => None
  end.

Definition idText (i : Id) : string :=
  match i with
  | IdStr s => s
  | IdNum n => numberToString (ofZ n)
  end.

(** *** Promises

    [sendRequest] returns a promise. The model keeps the promises it has
    created in a list; a promise is named by its position. The callback
    stored in the registry and the timeout closure both hold the
    [resolve]/[reject] pair of one promise, and are named by it too. *)

Inductive RequestError :=
  | ProtocolError (msg : string)    (* new Error(`MCP Error: ${response.error.message}`) *)
  | TimeoutError (i : Id)           (* new Error(`Request timeout for ID: ${request.id}`) *)
  | TransportError (err : string).  (* the error thrown by httpClient.post *)

Definition errorMessage (e : RequestError) : string :=
  match e with
  | ProtocolError msg => "MCP Error: " +:+ msg
  | TimeoutError i => "Request timeout for ID: " +:+ idText i
  | TransportError err => err
  end.

Inductive Settlement :=
  | Fulfilled (response : MCPMessage)
  | Rejected (reason : RequestError).

Record Promise := {
  request_id : Id;
  state : option Settlement  (* [None]: pending *)
}.

(** *** The client *)

Record MCPClient := {
  sessionId : option string;
  isConnected : bool;
  initialized : bool;
  eventSourceOpen : bool;
  sessionIdReceived : bool;
  pendingRequests : gmap Id nat;
  promises : list Promise;
  timers : gset nat;            (* armed 30 s timeouts, by promise *)
  inflight : gset nat;          (* POSTs awaiting their outcome, by promise *)
  posted : list MCPMessage;     (* requests handed to httpClient.post *)
  completions : list nat        (* promises in the order they were settled *)
}.

Definition newClient : MCPClient := {|
  sessionId := None;
  isConnected := false;
  initialized := false;
  eventSourceOpen := false;
  sessionIdReceived := false;
  pendingRequests := ∅;
  promises := [];
  timers := ∅;
  inflight := ∅;
  posted := [];
  completions := []
|}.

Definition with_pendingRequests (m : gmap Id nat) (st : MCPClient) : MCPClient := {|
  sessionId := sessionId st;
  isConnected := isConnected st;
  initialized := initialized st;
  eventSourceOpen := eventSourceOpen st;
  sessionIdReceived := sessionIdReceived st;
  pendingRequests := m;
  promises := promises st;
  timers := timers st;
  inflight := inflight st;
  posted := posted st;
  completions := completions st
|}.

Definition with_timers (t : gset nat) (st : MCPClient) : MCPClient := {|
  sessionId := sessionId st;
  isConnected := isConnected st;
  initialized := initialized st;
  eventSourceOpen := eventSourceOpen st;
  sessionIdReceived := sessionIdReceived st;
  pendingRequests := pendingRequests st;
  promises := promises st;
  timers := t;
  inflight := inflight st;
  posted := posted st;
  completions := completions st
|}.

Definition with_inflight (f : gset nat) (st : MCPClient) : MCPClient := {|
  sessionId := sessionId st;
  isConnected := isConnected st;
  initialized := initialized st;
  eventSourceOpen := eventSourceOpen st;
  sessionIdReceived := sessionIdReceived st;
  pendingRequests := pendingRequests st;
  promises := promises st;
  timers := timers st;
  inflight := f;
  posted := posted st;
  completions := completions st
|}.

(** [resolve(v)] or [reject(e)] on promise [h]: the first call settles
    it, any later call does nothing. *)
Definition settle (h : nat) (s : Settlement) (st : MCPClient) : MCPClient :=
  match promises st !! h with
  | Some p =>
      match state p with
      | None => {|
          sessionId := sessionId st;
          isConnected := isConnected st;
          initialized := initialized st;
          eventSourceOpen := eventSourceOpen st;
          sessionIdReceived := sessionIdReceived st;
          pendingRequests := pendingRequests st;
          promises := <[h := {| request_id := request_id p; state := Some s |}]> (promises st);
          timers := timers st;
          inflight := inflight st;
          posted := posted st;
          completions := completions st ++ [h]
        |}
      | Some _ => st
      end
  | None => st
  end.

(** The callback that [sendRequest] stores for promise [h]. *)
Definition callback (h : nat) (response : MCPMessage) (st : MCPClient) : MCPClient :=
  match error response with
  | Some e => settle h (Rejected (ProtocolError (message e))) st
  | None => settle h (Fulfilled response) st
  end.

(** *** handleSSEMessage *)

Definition handleSSEMessage (msg : MCPMessage) (st : MCPClient) : MCPClient :=
  match idTruthy (id msg) with
  | Some i =>
      match pendingRequests st !! i with
      | Some h =>
          let st := callback h msg st in
          with_pendingRequests (delete i (pendingRequests st)) st
      | None => st
      end
  | None => st
  end.

(** [message.params?.sessionId], when truthy; the interface declares the
    session identifier a string. *)
Definition announcedSession (msg : MCPMessage) : option string :=
  match params msg with
  | Some (JObj fields) =>
      match getKey "sessionId" fields with
      | Some (JStr s) => strTruthy (Some s)
      | _ => None
      end
  | _ => None
  end.

(** The [onmessage] listener installed by [setupSSEConnection]; [data] is
    [None] when [JSON.parse] throws, which the listener catches. *)
Definition onmessage (data : option MCPMessage) (st : MCPClient) : MCPClient :=
  match data with
  | None => st
  | Some msg =>
      match (if sessionIdReceived st then None else announcedSession msg) with
      | Some sid => {|
          sessionId := Some sid;
          isConnected := isConnected st;
          initialized := initialized st;
          eventSourceOpen := eventSourceOpen st;
          sessionIdReceived := true;
          pendingRequests := pendingRequests st;
          promises := promises st;
          timers := timers st;
          inflight := inflight st;
          posted := posted st;
          completions := completions st
        |}
      | None => handleSSEMessage msg st
      end
  end.

(** *** sendRequest *)

(** [request.id], or the fresh [uuid] when it is falsy. *)
Definition effectiveId (request : MCPMessage) (uuid : string) : Id :=
  match idTruthy (id request) with
  | Some i => i
  | None => IdStr uuid
  end.

(** The synchronous part of [sendRequest]: create the promise, store its
    callback, arm the timeout and start the POST. [uuid] is what
    [uuidv4()] returns if it is called. The result names the promise. *)
Definition sendRequest (request : MCPMessage) (uuid : string) (st : MCPClient)
  : nat * MCPClient :=
  let i := effectiveId request uuid in
  let h := List.length (promises st) in
  (h, {|
     sessionId := sessionId st;
     isConnected := isConnected st;
     initialized := initialized st;
     eventSourceOpen := eventSourceOpen st;
     sessionIdReceived := sessionIdReceived st;
     pendingRequests := <[i := h]> (pendingRequests st);
     promises := promises st ++ [{| request_id := i; state := None |}];
     timers := {[h]} ∪ timers st;
     inflight := {[h]} ∪ inflight st;
     posted := posted st ++ [{| id := Some i; method := method request;
                                params := params request; result := result request;
                                error := error request |}];
     completions := completions st
   |}).

(** The request id that the closures of promise [h] hold. *)
Definition idOf (h : nat) (st : MCPClient) : option Id :=
  request_id <$> promises st !! h.

(** The timeout closure of promise [h] runs. *)
Definition timeoutFired (h : nat) (st : MCPClient) : MCPClient :=
  match idOf h st with
  | Some i =>
      let st := with_timers (timers st ∖ {[h]}) st in
      let st := with_pendingRequests (delete i (pendingRequests st)) st in
      settle h (Rejected (TimeoutError i)) st
  | None => st
  end.

(** The POST of promise [h] is accepted: only a debug line is logged. *)
Definition postAccepted (h : nat) (st : MCPClient) : MCPClient :=
  with_inflight (inflight st ∖ {[h]}) st.

(** The POST of promise [h] fails: the [catch] block of [sendRequest]. *)
Definition postFailed (h : nat) (err : string) (st : MCPClient) : MCPClient :=
  match idOf h st with
  | Some i =>
      let st := with_inflight (inflight st ∖ {[h]}) st in
      let st := with_timers (timers st ∖ {[h]}) st in
      let st := with_pendingRequests (delete i (pendingRequests st)) st in
      settle h (Rejected (TransportError err)) st
  | None => st
  end.

(** *** callTool *)

(** [callTool(name, arguments_, sessionId)] up to the [await]: it throws,
    or it has submitted the request and waits for the promise named in
    [Ok]. *)
Definition callTool (name : string) (arguments_ : Obj) (sid : option string)
    (uuid : string) (st : MCPClient) : Result nat * MCPClient :=
  if negb (initialized st) then (Throw "MCP client not initialized", st)
  else
    match (match strTruthy sid with
           | Some s => Some s
           | None => strTruthy (sessionId st)
           end) with
    | None => (Throw "No sessionId available for tool call", st)
    | Some effectiveSessionId =>
        let request := {|
          id := Some (IdStr uuid);
          method := Some "tools/call";
          params := Some (JObj [("name", JStr name);
                                ("arguments", JObj arguments_);
                                ("sessionId", JStr effectiveSessionId)]);
          result := None;
          error := None
        |} in
        let '(h, st') := sendRequest request uuid st in
        (Ok h, st')
    end.

(** *** disconnect *)

Definition disconnect (st : MCPClient) : MCPClient := {|
  sessionId := None;
  isConnected := false;
  initialized := false;
  eventSourceOpen := false;
  sessionIdReceived := sessionIdReceived st;
  pendingRequests := ∅;
  promises := promises st;
  timers := timers st;
  inflight := inflight st;
  posted := posted st;
  completions := completions st
|}.

(** *** Runs of the client *)

Inductive Event :=
  | Send (request : MCPMessage) (uuid : string)
  | Message (data : option MCPMessage)
  | PostOk (h : nat)
  | PostFail (h : nat) (err : string)
  | Timeout (h : nat)
  | Disconnect.

(** One step. A timeout fires only while it is armed, and a POST has an
    outcome only while it is in flight. *)
Inductive Step : MCPClient -> Event -> MCPClient -> Prop :=
  | step_send st request uuid :
      Step st (Send request uuid) (snd (sendRequest request uuid st))
  | step_message st data :
      Step st (Message data) (onmessage data st)
  | step_post_ok st h :
      h ∈ inflight st -> Step st (PostOk h) (postAccepted h st)
  | step_post_fail st h err :
      h ∈ inflight st -> Step st (PostFail h err) (postFailed h err st)
  | step_timeout st h :
      h ∈ timers st -> Step st (Timeout h) (timeoutFired h st)
  | step_disconnect st :
      Step st Disconnect (disconnect st).

(** A run, with its events from first to last. *)
Inductive Steps : MCPClient -> list Event -> MCPClient -> Prop :=
  | steps_nil st : Steps st [] st
  | steps_snoc st tr st1 ev st2 :
      Steps st tr st1 -> Step st1 ev st2 -> Steps st (tr ++ [ev]) st2.

End Client.

(** ** The agent: [LangChainMCPAgent.processMessage] *)

Module Agent.
Import JS.

(** [BaseMessage], as far as [processMessage] builds them. *)
Inductive BaseMessage :=
  | HumanMessage (content : string)
  | AIMessage (content : string).

Record LangChainMCPAgent := {
  agent : bool;                                   (* [this.agent] is set *)
  toolsSessionId : option string;                 (* set by setSessionIdForAllTools *)
  conversationHistory : gmap string (list BaseMessage)
}.

Definition newAgent : LangChainMCPAgent := {|
  agent := false;
  toolsSessionId := None;
  conversationHistory := ∅
|}.

(** [if (h.length > 20) h.splice(0, h.length - 20)] *)
Definition keepLast20 (updatedHistory : list BaseMessage) : list BaseMessage :=
  if Nat.ltb 20 (List.length updatedHistory)
  then drop (List.length updatedHistory - 20) updatedHistory
  else updatedHistory.

(** [processMessage(message, sessionId, stream)]. [response] is the
    settlement of [processWithManualToolExecution], the exchange with the
    language model and the tools. *)
Definition processMessage (message sessionId : string) (response : Result string)
    (a : LangChainMCPAgent) : Result string * LangChainMCPAgent :=
  if negb (agent a) then (Throw "Agent not initialized", a)
  else
    let a1 := {| agent := agent a;
                 toolsSessionId := Some sessionId;
                 conversationHistory := conversationHistory a |} in
    let chatHistory := default [] (conversationHistory a !! sessionId) in
    match response with
    | Throw msg => (Throw msg, a1)
    | Ok fullResponse =>
        let updatedHistory :=
          chatHistory ++ [HumanMessage message; AIMessage fullResponse] in
        (Ok fullResponse,
         {| agent := agent a;
            toolsSessionId := Some sessionId;
            conversationHistory :=
              <[sessionId := keepLast20 updatedHistory]> (conversationHistory a) |})
    end.

(** [initialize] ends by creating the agent executor. *)
Definition initialize (a : LangChainMCPAgent) : LangChainMCPAgent := {|
  agent := true;
  toolsSessionId := toolsSessionId a;
  conversationHistory := conversationHistory a
|}.

Definition clearSession (sessionId : string) (a : LangChainMCPAgent) : LangChainMCPAgent := {|
  agent := agent a;
  toolsSessionId := toolsSessionId a;
  conversationHistory := delete sessionId (conversationHistory a)
|}.

Definition clearAllSessions (a : LangChainMCPAgent) : LangChainMCPAgent := {|
  agent := agent a;
  toolsSessionId := toolsSessionId a;
  conversationHistory := ∅
|}.

(** The calls that touch the conversation history. *)
Inductive Call :=
  | Initialize
  | ProcessMessage (message sessionId : string) (response : Result string)
  | ClearSession (sessionId : string)
  | ClearAllSessions.

Definition perform (c : Call) (a : LangChainMCPAgent) : LangChainMCPAgent :=
  match c with
  | Initialize => initialize a
  | ProcessMessage message sessionId response =>
      snd (processMessage message sessionId response a)
  | ClearSession sessionId => clearSession sessionId a
  | ClearAllSessions => clearAllSessions a
  end.

(** The agent after a sequence of calls, first call first. *)
Definition performAll (cs : list Call) (a : LangChainMCPAgent) : LangChainMCPAgent :=
  fold_left (fun a c => perform c a) cs a.

End Agent.

(** * Properties *)

(** ** Objects and their properties *)

Module ObjFacts.
Import JS.

Lemma eqb_neq_sym (a b : string) : a <> b -> String.eqb b a = false.
Proof. intros Hne. apply String.eqb_neq. congruence. Qed.

Lemma hasOwn_getKey key (o : Obj) :
  hasOwn key o = match getKey key o with Some _ => true | None => false end.
Proof.
  induction o as [|[k w] rest IH]; simpl; [reflexivity|].
  destruct (String.eqb k key); simpl; auto.
Qed.

Lemma getKey_None_notin key (o : Obj) :
  ~ In key (List.map fst o) -> getKey key o = None.
Proof.
  induction o as [|[k w] rest IH]; simpl; [reflexivity|].
  intros Hn. destruct (String.eqb k key) eqn:E.
  - apply String.eqb_eq in E. tauto.
  - apply IH. tauto.
Qed.


Lemma getKey_app key (o1 o2 : Obj) :
  getKey key (o1 ++ o2) =
  match getKey key o1 with Some v => Some v | None => getKey key o2 end.
Proof.
  induction o1 as [|[k w] rest IH]; simpl; [reflexivity|].
  destruct (String.eqb k key); [reflexivity | exact IH].
Qed.

Lemma getKey_replaceOwn_eq key v (o : Obj) :
  hasOwn key o = true -> getKey key (replaceOwn key v o) = Some v.
Proof.
  induction o as [|[k w] rest IH]; simpl; [discriminate|].
  destruct (String.eqb k key) eqn:E; simpl; rewrite E; auto.
Qed.

Lemma getKey_replaceOwn_ne key key' v (o : Obj) :
  key <> key' -> getKey key (replaceOwn key' v o) = getKey key o.
Proof.
  intros Hne. induction o as [|[k w] rest IH]; simpl; [reflexivity|].
  destruct (String.eqb k key') eqn:E; simpl.
  - apply String.eqb_eq in E. subst k. rewrite (eqb_neq_sym _ _ Hne). reflexivity.
  - destruct (String.eqb k key); auto.
Qed.

Lemma getKey_insertIndex_eq key v (o : Obj) :
  getKey key (insertIndex key v o) = Some v.
Proof.
  induction o as [|[k w] rest IH]; simpl.
  - rewrite String.eqb_refl. reflexivity.
  - destruct (isArrayIndex k && N.ltb (digitsToN 0 k) (digitsToN 0 key)) eqn:E; simpl.
    + destruct (String.eqb k key) eqn:Ek; [|exact IH].
      apply String.eqb_eq in Ek. subst k.
      apply andb_true_iff in E as [_ E]. apply N.ltb_lt in E. lia.
    + rewrite String.eqb_refl. reflexivity.
Qed.

Lemma getKey_insertIndex_ne key key' v (o : Obj) :
  key <> key' -> getKey key (insertIndex key' v o) = getKey key o.
Proof.
  intros Hne. induction o as [|[k w] rest IH]; simpl.
  - rewrite (eqb_neq_sym _ _ Hne). reflexivity.
  - destruct (isArrayIndex k && N.ltb (digitsToN 0 k) (digitsToN 0 key')); simpl.
    + destruct (String.eqb k key); auto.
    + rewrite (eqb_neq_sym _ _ Hne). reflexivity.
Qed.

(** After [obj[key] = v] the own property [key] has the value [v], unless
    the assignment went to the setter of __proto__. *)
Lemma getKey_assign_eq key v (o : Obj) :
  key <> "__proto__" -> getKey key (assign key v o) = Some v.
Proof.
  intros Hp. unfold assign. destruct (hasOwn key o) eqn:Ho.
  - apply getKey_replaceOwn_eq, Ho.
  - apply String.eqb_neq in Hp. rewrite Hp.
    destruct (isArrayIndex key); [apply getKey_insertIndex_eq|].
    rewrite getKey_app. rewrite hasOwn_getKey in Ho.
    destruct (getKey key o); [discriminate|]. simpl. rewrite String.eqb_refl. reflexivity.
Qed.

(** An assignment leaves the other own properties as they are. *)
Lemma getKey_assign_ne key key' v (o : Obj) :
  key <> key' -> getKey key (assign key' v o) = getKey key o.
Proof.
  intros Hne. unfold assign. destruct (hasOwn key' o).
  - apply getKey_replaceOwn_ne, Hne.
  - destruct (String.eqb key' "__proto__"); [reflexivity|].
    destruct (isArrayIndex key'); [apply getKey_insertIndex_ne, Hne|].
    rewrite getKey_app. destruct (getKey key o); [reflexivity|]. simpl.
    rewrite (eqb_neq_sym _ _ Hne). reflexivity.
Qed.

(** An own property after an assignment is the one assigned, or was
    there before. *)
Lemma getKey_assign_cases k w key v (o : Obj) :
  getKey k (assign key v o) = Some w -> (k = key /\ w = v) \/ getKey k o = Some w.
Proof.
  intros H. destruct (String.eqb k key) eqn:E.
  - apply String.eqb_eq in E. subst k. unfold assign in H.
    destruct (hasOwn key o) eqn:Ho.
    + rewrite getKey_replaceOwn_eq in H by exact Ho. injection H as <-. auto.
    + destruct (String.eqb key "__proto__") eqn:Hp; [auto|].
      apply String.eqb_neq in Hp. left. split; [reflexivity|].
      assert (Hv := getKey_assign_eq key v o Hp). unfold assign in Hv.
      rewrite Ho in Hv. apply String.eqb_neq in Hp. rewrite Hp in Hv. congruence.
  - right. rewrite getKey_assign_ne in H; [exact H|].
    intros ->. rewrite String.eqb_refl in E. discriminate.
Qed.

(** A property of the values that holds of every own property, and of the
    value assigned, holds after the assignment. *)
Lemma Forall_assign (Q : JVal -> Prop) key v (o : Obj) :
  List.Forall (fun kv => Q (snd kv)) o -> Q v ->
  List.Forall (fun kv => Q (snd kv)) (assign key v o).
Proof.
  intros Ho Hv. unfold assign.
  destruct (hasOwn key o); [|destruct (String.eqb key "__proto__"); [exact Ho|]].
  - induction Ho as [|[k w] rest Hw Hrest IH]; simpl; [constructor|].
    destruct (String.eqb k key); constructor; auto.
  - destruct (isArrayIndex key).
    + induction Ho as [|[k w] rest Hw Hrest IH]; simpl; [repeat constructor; exact Hv|].
      destruct (isArrayIndex k && N.ltb (digitsToN 0 k) (digitsToN 0 key));
        repeat constructor; auto.
    + apply List.Forall_app. split; [exact Ho | repeat constructor; exact Hv].
Qed.

(** A new name that is neither an array index nor __proto__ goes last. *)
Lemma assign_new key v (o : Obj) :
  ~ In key (List.map fst o) -> key <> "__proto__" -> isArrayIndex key = false ->
  assign key v o = o ++ [(key, v)].
Proof.
  intros Hn Hp Hi. unfold assign.
  rewrite hasOwn_getKey, (getKey_None_notin _ _ Hn).
  apply String.eqb_neq in Hp. rewrite Hp, Hi. reflexivity.
Qed.

Lemma not_hasProperty key (o : Obj) :
  hasProperty key o = false -> getKey key o = None /\ inherited key = false /\ key <> "__proto__".
Proof.
  unfold hasProperty. intros H. apply orb_false_iff in H as [Ho Hi].
  rewrite hasOwn_getKey in Ho. repeat split; [destruct (getKey key o); [discriminate|reflexivity]
                                            | exact Hi |].
  intros ->. discriminate Hi.
Qed.

(** Induction on values, with the hypothesis for every element of an
    array. *)
Lemma JVal_nested_ind (P : JVal -> Prop) :
  P JUndefined -> P JNull -> (forall b, P (JBool b)) -> (forall n, P (JNum n)) ->
  (forall s, P (JStr s)) ->
  (forall items, List.Forall P items -> P (JArr items)) ->
  (forall fields, P (JObj fields)) ->
  forall v, P v.
Proof.
  intros Hu Hn Hb Hnum Hs Ha Ho.
  fix F 1. intros [| | b | n | s | items | fields].
  - exact Hu.
  - exact Hn.
  - apply Hb.
  - apply Hnum.
  - apply Hs.
  - apply Ha. induction items as [|x r IH]; constructor; [apply F | exact IH].
  - apply Ho.
Qed.

(** The conversion to text returns exactly on the printable values. *)
Lemma stringOf_printable msg v :
  printable v = true -> exists s, stringOf msg v = Ok s.
Proof.
  revert msg. induction v as [| | b | n | s | items IH | fields] using JVal_nested_ind; intros msg Hp; simpl in *; eauto.
  - assert (Hparts : exists parts,
              (fix elements (l : list JVal) : Result (list string) :=
                 match l with
                 | [] => Ok []
                 | x :: rest =>
                     let* t := match x with
                               | JUndefined | JNull => Ok EmptyString
                               | _ => stringOf notPrimitive x
                               end in
                     let* ts := elements rest in
                     Ok (t :: ts)
                 end) items = Ok parts).
    { induction items as [|x rest IHr]; [eauto|].
      simpl in Hp. apply andb_true_iff in Hp as [Hx Hrest].
      inversion IH as [|? ? IHx IHrest]; subst.
      destruct (IHr IHrest Hrest) as [parts ->].
      destruct (IHx notPrimitive Hx) as [t Ht].
      destruct x; try (rewrite Ht); simpl; eauto. }
    destruct Hparts as [parts ->]. simpl. eauto.
  - destruct (hasOwn "toString" fields); [discriminate | eauto].
Qed.

Lemma stringOf_not_printable msg v :
  printable v = false -> exists m, stringOf msg v = Throw m.
Proof.
  revert msg. induction v as [| | b | n | s | items IH | fields] using JVal_nested_ind; intros msg Hp; simpl in *; try discriminate.
  - assert (Hparts : exists m,
              (fix elements (l : list JVal) : Result (list string) :=
                 match l with
                 | [] => Ok []
                 | x :: rest =>
                     let* t := match x with
                               | JUndefined | JNull => Ok EmptyString
                               | _ => stringOf notPrimitive x
                               end in
                     let* ts := elements rest in
                     Ok (t :: ts)
                 end) items = Throw m).
    { induction items as [|x rest IHr]; [discriminate|].
      simpl in Hp. inversion IH as [|? ? IHx IHrest]; subst.
      destruct (printable x) eqn:Hx.
      - simpl in Hp. destruct (IHr IHrest Hp) as [m Hm]. rewrite Hm.
        destruct (stringOf_printable notPrimitive x Hx) as [t Ht].
        destruct x; try rewrite Ht; simpl; eauto.
      - destruct (IHx notPrimitive eq_refl) as [m Hm].
        destruct x; try discriminate Hx; rewrite Hm; simpl; eauto. }
    destruct Hparts as [m ->]. simpl. eauto.
  - destruct (hasOwn "toString" fields); [eauto | discriminate].
Qed.

(** [v.toString()] returns exactly when [v] is printable, for a value
    other than null and undefined. *)
Lemma toString_printable v :
  v <> JNull -> v <> JUndefined ->
  if printable v then exists s, toString v = Ok s
  else exists m, toString v = Throw m.
Proof.
  intros Hn Hu. destruct (printable v) eqn:Hp.
  - destruct (stringOf_printable notAFunction v Hp) as [s Hs].
    destruct v; try contradiction; eauto.
  - destruct (stringOf_not_printable notAFunction v Hp) as [m Hm].
    destruct v; try contradiction; eauto.
Qed.

End ObjFacts.

(** ** The tool wrapper *)

Module ToolsFacts.
Import JS Tools ObjFacts.

(** *** Argument inference on free text *)

(** Nothing is filled in when every required name already has a value. *)
Lemma fillRequired_present props req (result : Obj) :
  (forall r, In r req -> hasProperty r result = true) ->
  fillRequired props req result = Ok result.
Proof.
  induction req as [|r rest IH]; simpl; intros Hreq; [reflexivity|].
  rewrite (Hreq r) by auto. apply IH. intros; apply Hreq; auto.
Qed.

(** No warning and no default when every required name has a value. *)
Lemma fillMissing_present toolName props req (cleanedArgs : Obj) ws :
  (forall r, In r req -> hasProperty r cleanedArgs = true) ->
  fillMissing toolName props req cleanedArgs ws = (cleanedArgs, ws).
Proof.
  induction req as [|r rest IH]; cbn [fillMissing]; intros Hreq; [reflexivity|].
  rewrite (Hreq r) by (left; reflexivity). apply IH. intros; apply Hreq; right; assumption.
Qed.

(** The two-parameter numeric schema of the calculator tools. *)
Definition twoNumbers (toolName toolDescription : string)
    (first second : PropSchema) (req : list string) : MCPTool := {|
  name := toolName;
  tool_description := toolDescription;
  inputSchema := {|
    properties := [("firstNumber", first); ("secondNumber", second)];
    required := req
  |}
|}.

Definition five_and_three : Obj :=
  [("firstNumber", JNum (Dec 5 0)); ("secondNumber", JNum (Dec 3 0))].

(** C3. On the text [5 3 add], a schema that declares the two numeric
    parameters firstNumber and secondNumber, in that order, gets exactly
    firstNumber = 5 and secondNumber = 3: the numbers go to the numeric
    parameters in order, the word add goes nowhere. The same argument set
    leaves the cleaning pass, without a warning. *)
Theorem mapInputToSchema_5_3_add toolName toolDescription d1 e1 d2 e2 req :
  (forall r, In r req -> r = "firstNumber" \/ r = "secondNumber") ->
  let tool := twoNumbers toolName toolDescription
                {| type := TNumber; description := d1; enum := e1 |}
                {| type := TNumber; description := d2; enum := e2 |} req in
  mapInputToSchema tool (JStr "5 3 add") = Ok (JObj five_and_three) /\
  prepareArguments tool (JStr "5 3 add") = Ok (five_and_three, []).
Proof.
  intros Hreq tool.
  assert (Hfill : fillRequired (properties (inputSchema tool)) req five_and_three
                  = Ok five_and_three).
  { apply fillRequired_present. intros r Hr.
    destruct (Hreq r Hr) as [-> | ->]; reflexivity. }
  assert (Hmap : mapInputToSchema tool (JStr "5 3 add") = Ok (JObj five_and_three)).
  { transitivity (let* result := fillRequired (properties (inputSchema tool)) req
                                   five_and_three in Ok (JObj result));
      [reflexivity|].
    rewrite Hfill. reflexivity. }
  split; [exact Hmap|].
  unfold prepareArguments. simpl truthy. simpl typeofObject. cbn [andb].
  rewrite Hmap. cbn [bind entries].
  unfold validateAndCleanArgs. simpl properties. simpl required.
  assert (Hclean : cleanEntries [("firstNumber", {| type := TNumber; description := d1; enum := e1 |});
                                 ("secondNumber", {| type := TNumber; description := d2; enum := e2 |})]
                     five_and_three [] = Ok five_and_three) by reflexivity.
  rewrite Hclean. clear Hclean Hmap Hfill. cbn [bind].
  rewrite fillMissing_present; [reflexivity|].
  intros r Hr. destruct (Hreq r Hr) as [-> | ->]; reflexivity.
Qed.

(** The claim at a schema that requires both parameters. *)
Lemma mapInputToSchema_5_3_add_witness :
  mapInputToSchema
    (twoNumbers "add" "Add two numbers"
       {| type := TNumber; description := None; enum := None |}
       {| type := TNumber; description := None; enum := None |}
       ["firstNumber"; "secondNumber"])
    (JStr "5 3 add") = Ok (JObj five_and_three).
Proof.
  refine (proj1 (mapInputToSchema_5_3_add "add" "Add two numbers" None None None None
                   ["firstNumber"; "secondNumber"] _)).
  intros r [<- | [<- | []]]; [left | right]; reflexivity.
Defined.

(** *** The cleaning pass *)

(** A tool whose schema declares the single parameter query, a required
    string. *)
Definition queryTool (toolName toolDescription : string) (d : option string)
    (e : option (list string)) : MCPTool := {|
  name := toolName;
  tool_description := toolDescription;
  inputSchema := {|
    properties := [("query", {| type := TString; description := d; enum := e |})];
    required := ["query"]
  |}
|}.

(** C4. With the empty object as input and query a required string
    parameter, the preparation of the arguments does not throw: the
    cleaning pass sets query to the empty string and logs one warning, and
    [callTool] is called with exactly query = the empty string. *)
Theorem executeInternal_empty_input toolName toolDescription d e
    clientSessionId currentSessionId callTool :
  let tool := queryTool toolName toolDescription d e in
  let args : Obj := [("query", JStr EmptyString)] in
  let run := executeInternal tool clientSessionId currentSessionId callTool (JObj []) in
  validateAndCleanArgs tool [] = Ok (args, [missingWarning "query" toolName]) /\
  prepareArguments tool (JObj []) = Ok (args, [missingWarning "query" toolName]) /\
  warnings run = [missingWarning "query" toolName] /\
  calls run = [(toolName, args, effectiveSession clientSessionId currentSessionId)].
Proof.
  intros tool args run. repeat split; reflexivity.
Qed.

(** The first loop returns when the text of every argument can be
    taken. *)
Lemma cleanValue_printable ps value :
  printable value = true -> exists cleaned, cleanValue ps value = Ok cleaned.
Proof.
  intros Hp. unfold cleanValue.
  assert (Ht : value <> JNull -> value <> JUndefined -> exists t, toString value = Ok t).
  { intros Hn Hu. pose proof (toString_printable value Hn Hu) as H.
    rewrite Hp in H. exact H. }
  destruct (type ps); destruct value; eauto;
    (destruct Ht as [t Ht]; [discriminate | discriminate |]; rewrite Ht; cbn [bind];
     eauto; destruct (isNaN (parseFloat t)); eauto).
Qed.

Lemma cleanEntries_printable props (args acc : Obj) :
  List.Forall (fun kv => printable (snd kv) = true) args ->
  exists cleanedArgs, cleanEntries props args acc = Ok cleanedArgs.
Proof.
  revert acc. induction args as [|[k value] rest IH]; intros acc Hall; [simpl; eauto|].
  inversion Hall as [|? ? Hv Hrest]; subst. simpl in Hv. cbn [cleanEntries].
  destruct (propertyAt k props) as [ps|]; [|apply IH, Hrest].
  destruct (cleanValue_printable ps value Hv) as [cleaned ->]. cbn [bind].
  destruct cleaned; apply IH, Hrest.
Qed.

(** The first loop throws when the text of an argument for a parameter
    of type number, integer or string cannot be taken. *)
Lemma cleanEntries_throws props (args acc : Obj) key value ps :
  In (key, value) args ->
  propertyAt key props = Some ps ->
  match type ps with TNumber | TInteger | TString => True | _ => False end ->
  printable value = false ->
  exists msg, cleanEntries props args acc = Throw msg.
Proof.
  intros Hin Hps Htype Hp. revert acc.
  induction args as [|[k v] rest IH]; intros acc; [destruct Hin|].
  cbn [cleanEntries]. destruct Hin as [[= -> ->]|Hin].
  - rewrite Hps. unfold cleanValue.
    assert (Ht : exists m, toString value = Throw m).
    { assert (Hn : value <> JNull) by (intros ->; discriminate Hp).
      assert (Hu : value <> JUndefined) by (intros ->; discriminate Hp).
      pose proof (toString_printable value Hn Hu) as H. rewrite Hp in H. exact H. }
    destruct Ht as [m Ht].
    destruct (type ps); try contradiction; destruct value; try discriminate Hp;
      rewrite Ht; simpl; eauto.
  - destruct (propertyAt k props) as [ps'|]; [|apply IH, Hin].
    destruct (cleanValue ps' v) as [[w|]|m]; cbn [bind]; eauto.
Qed.


(** After the second loop a key keeps the value it had; a missing key gets
    the default of its type when it is required and is not the name of a
    member of [Object.prototype], and stays missing otherwise. *)
Lemma getKey_fillMissing toolName props key req (cleanedArgs : Obj) ws :
  getKey key (fst (fillMissing toolName props req cleanedArgs ws)) =
  match getKey key cleanedArgs with
  | Some v => Some v
  | None =>
      if inArray key req && negb (inherited key)
      then missingDefault (propertyAt key props) else None
  end.
Proof.
  revert cleanedArgs ws. induction req as [|r rest IH]; intros c ws; cbn [fillMissing].
  - simpl. destruct (getKey key c); reflexivity.
  - unfold hasProperty. rewrite hasOwn_getKey. unfold inArray. cbn [existsb].
    fold (inArray key rest).
    destruct (String.eqb key r) eqn:E.
    + apply String.eqb_eq in E. subst r. cbn [orb].
      destruct (getKey key c) as [v|] eqn:Hc; cbn [orb].
      * rewrite IH, Hc. reflexivity.
      * destruct (inherited key) eqn:Hi; cbn [negb andb].
        -- rewrite IH, Hc, andb_false_r. reflexivity.
        -- assert (Hk : key <> "__proto__") by (intros ->; discriminate Hi).
           destruct (missingDefault (propertyAt key props)) as [dflt|] eqn:Hd.
           ++ rewrite IH, getKey_assign_eq by exact Hk. reflexivity.
           ++ rewrite IH, Hc. destruct (inArray key rest); reflexivity.
    + assert (Hne : key <> r).
      { intros ->. rewrite String.eqb_refl in E. discriminate. }
      cbn [orb].
      destruct (getKey r c) as [v|] eqn:Hc; cbn [orb]; [apply IH|].
      destruct (inherited r); [apply IH|].
      destruct (missingDefault (propertyAt r props)) as [dflt|].
      * rewrite IH, getKey_assign_ne by assumption. reflexivity.
      * apply IH.
Qed.






(** A required string parameter that declares an enum, and a required
    array parameter. *)
Definition categoryTool : MCPTool := {|
  name := "search";
  tool_description := "Search the catalog";
  inputSchema := {|
    properties :=
      [("category", {| type := TString; description := None;
                       enum := Some ["laptops"; "phones"] |});
       ("tags", {| type := TArray; description := None; enum := None |})];
    required := ["category"; "tags"]
  |}
|}.

(** C6 at the missing enum parameter: the second loop of the cleaning pass
    gives category the empty string, where [getDefaultValueForSchema], which
    fills the missing required parameters in [mapInputToSchema], gives the
    first enum value; the missing array parameter gets a warning and no
    value, where [getDefaultValueForSchema] gives the empty array. *)
Theorem validateAndCleanArgs_enum_default :
  validateAndCleanArgs categoryTool [] =
    Ok ([("category", JStr EmptyString)],
        [missingWarning "category" "search"; missingWarning "tags" "search"]) /\
  getDefaultValueForSchema (getProp "category" (properties (inputSchema categoryTool)))
    = Ok (JStr "laptops") /\
  getDefaultValueForSchema (getProp "tags" (properties (inputSchema categoryTool)))
    = Ok (JArr []).
Proof. repeat split; reflexivity. Qed.

(** What the second loop does for the other types: a required parameter
    that the first loop left without a value, and whose name no member of
    [Object.prototype] bears, ends with 0 when it is numeric, with false
    when it is boolean, with the empty string when it is a string. *)
Lemma validateAndCleanArgs_missing_required tool (args cleanedArgs : Obj) key ps :
  cleanEntries (properties (inputSchema tool)) args [] = Ok cleanedArgs ->
  getKey key cleanedArgs = None ->
  inArray key (required (inputSchema tool)) = true ->
  inherited key = false ->
  getProp key (properties (inputSchema tool)) = Some ps ->
  exists final ws,
    validateAndCleanArgs tool args = Ok (final, ws) /\
    getKey key final =
    match type ps with
    | TNumber | TInteger => Some (JNum zero)
    | TBoolean => Some (JBool false)
    | TString => Some (JStr EmptyString)
    | _ => None
    end.
Proof.
  intros Hc Hmiss Hreq Hinh Hps. unfold validateAndCleanArgs. rewrite Hc. cbn [bind].
  destruct (fillMissing _ _ _ cleanedArgs []) as [final ws] eqn:Hfill.
  exists final, ws. split; [reflexivity|].
  change final with (fst (final, ws)). rewrite <- Hfill.
  rewrite getKey_fillMissing, Hmiss, Hreq, Hinh. unfold missingDefault, propertyAt.
  rewrite Hps. destruct (type ps); reflexivity.
Qed.

(** *** The result of an invocation *)

Lemma filter_andb {A : Type} (f g : A -> bool) (l : list A) :
  List.filter (fun x => f x && g x) l = List.filter g (List.filter f l).
Proof.
  induction l as [|x l IH]; simpl; [reflexivity|].
  destruct (f x); simpl; [destruct (g x)|]; rewrite IH; reflexivity.
Qed.

Lemma present_joined field :
  present field = true -> exists c s, joined field = String c s.
Proof.
  destruct field as [[|c s]|]; simpl; try discriminate. eauto.
Qed.

Definition textItem (t : string) : ContentItem := {|
  ctype := "text"; text := Some t; data := None; url := None; mimeType := None
|}.

(** C9, as stated, fails: of the two text items with the values a and the
    empty string, only the first reaches the caller; the text is a, not a
    followed by a newline. *)
Lemma formatToolResult_skips_empty_text :
  formatToolResult {| content := Some [textItem "a"; textItem EmptyString];
                      isError := None |} = "a" /\
  formatToolResult {| content := Some [textItem "a"; textItem EmptyString];
                      isError := None |} <> "a" +:+ newline +:+ EmptyString.
Proof. split; [reflexivity | discriminate]. Qed.

(** C9, amended. When the text items of the content are exactly two and
    both carry a non-empty text, the formatted result is the first text, a
    newline, the second text. When [callTool] returns a result,
    [executeInternal] throws if its [isError] flag is set, and returns the
    formatted content otherwise. *)
Theorem executeInternal_result :
  (forall result items i1 i2,
      content result = Some items ->
      List.filter (fun item => String.eqb (ctype item) "text") items = [i1; i2] ->
      present (text i1) = true ->
      present (text i2) = true ->
      formatToolResult result = joined (text i1) +:+ newline +:+ joined (text i2)) /\
  (forall tool clientSessionId currentSessionId callTool input args ws result,
      prepareArguments tool input = Ok (args, ws) ->
      callTool (name tool) args (effectiveSession clientSessionId currentSessionId)
        = Ok result ->
      outcome (executeInternal tool clientSessionId currentSessionId callTool input) =
      match isError result with
      | Some true => Throw ("Tool execution failed: " +:+ stringifyContent (content result))
      | _ => Ok (formatToolResult result)
      end).
Proof.
  split.
  - intros result items i1 i2 Hc Hf H1 H2. unfold formatToolResult. rewrite Hc.
    destruct items as [|i0 rest]; [discriminate Hf|].
    rewrite (filter_andb (fun item => String.eqb (ctype item) "text")
                         (fun item => present (text item))), Hf.
    cbn [List.filter]. rewrite H1, H2. cbn [List.map join].
    destruct (present_joined _ H1) as (c & s & ->). reflexivity.
  - intros tool csid cur callTool input args ws result Hprep Hcall.
    unfold executeInternal. rewrite Hprep. cbn [outcome]. rewrite Hcall. reflexivity.
Qed.

Definition errorResult : MCPToolResult :=
  {| content := Some [textItem "boom"]; isError := Some true |}.

(** The amended claim at two texts a and b, and at an error-flagged result
    for the tool of C4 called with the empty object. *)
Lemma executeInternal_result_witness :
  formatToolResult {| content := Some [textItem "a"; textItem "b"]; isError := None |}
    = "a" +:+ newline +:+ "b" /\
  outcome (executeInternal (queryTool "search" "Search" None None) None "pending-session-id"
             (fun _ _ _ => Ok errorResult) (JObj []))
    = Throw ("Tool execution failed: " +:+ stringifyContent (content errorResult)).
Proof.
  split.
  - apply (proj1 executeInternal_result
             {| content := Some [textItem "a"; textItem "b"]; isError := None |}
             [textItem "a"; textItem "b"] (textItem "a") (textItem "b"));
      reflexivity.
  - apply (proj2 executeInternal_result (queryTool "search" "Search" None None) None
             "pending-session-id" (fun _ _ _ => Ok errorResult) (JObj [])
             [("query", JStr EmptyString)] [missingWarning "query" "search"] errorResult);
      reflexivity.
Defined.


End ToolsFacts.

(** ** The conversation history *)

Module AgentFacts.
Import JS Agent.

Lemma keepLast20_length l : List.length (keepLast20 l) <= 20.
Proof.
  unfold keepLast20. destruct (Nat.ltb 20 (List.length l)) eqn:E.
  - apply Nat.ltb_lt in E. rewrite length_drop. lia.
  - apply Nat.ltb_ge in E. exact E.
Qed.

Lemma keepLast20_short l : List.length l <= 20 -> keepLast20 l = l.
Proof.
  intros H. unfold keepLast20.
  destruct (Nat.ltb 20 (List.length l)) eqn:E; [|reflexivity].
  apply Nat.ltb_lt in E. lia.
Qed.

Lemma keepLast20_long l :
  20 < List.length l ->
  List.length (keepLast20 l) = 20 /\ l = take (List.length l - 20) l ++ keepLast20 l.
Proof.
  intros H. unfold keepLast20.
  destruct (Nat.ltb 20 (List.length l)) eqn:E.
  - split; [rewrite length_drop; lia | symmetry; apply take_drop].
  - apply Nat.ltb_ge in E. lia.
Qed.

(** Every stored history has at most 20 messages. *)
Definition bounded (a : LangChainMCPAgent) : Prop :=
  forall sessionId history,
    conversationHistory a !! sessionId = Some history -> List.length history <= 20.

Lemma bounded_newAgent : bounded newAgent.
Proof. intros sid h H. simpl in H. rewrite lookup_empty in H. discriminate. Qed.

Lemma bounded_perform c a : bounded a -> bounded (perform c a).
Proof.
  intros Hb sid h. destruct c as [|message s response|s|]; simpl.
  - apply Hb.
  - unfold processMessage. destruct (agent a); simpl; [|apply Hb].
    destruct response as [fullResponse|msg]; simpl; [|apply Hb].
    destruct (decide (s = sid)) as [->|Hne].
    + rewrite lookup_insert_eq. intros [= <-]. apply keepLast20_length.
    + rewrite lookup_insert_ne by assumption. apply Hb.
  - destruct (decide (s = sid)) as [->|Hne].
    + rewrite lookup_delete_eq. discriminate.
    + rewrite lookup_delete_ne by assumption. apply Hb.
  - rewrite lookup_empty. discriminate.
Qed.

Lemma bounded_performAll cs a : bounded a -> bounded (performAll cs a).
Proof.
  revert a. induction cs as [|c cs IH]; intros a Hb; [exact Hb|].
  simpl. apply IH, bounded_perform, Hb.
Qed.

(** C10. Whatever calls the agent has served, the history stored for a
    session has at most 20 messages. A completed [processMessage] stores
    the old history followed by the new human and AI messages when these
    are at most 20, and otherwise exactly the last 20 of them, the oldest
    being discarded. *)
Theorem processMessage_history_bounded :
  (forall cs sessionId history,
      conversationHistory (performAll cs newAgent) !! sessionId = Some history ->
      List.length history <= 20) /\
  (forall a message sessionId fullResponse,
      agent a = true ->
      let updated := default [] (conversationHistory a !! sessionId)
                     ++ [HumanMessage message; AIMessage fullResponse] in
      let done := processMessage message sessionId (Ok fullResponse) a in
      fst done = Ok fullResponse /\
      exists stored,
        conversationHistory (snd done) !! sessionId = Some stored /\
        List.length stored <= 20 /\
        (List.length updated <= 20 -> stored = updated) /\
        (20 < List.length updated ->
         List.length stored = 20 /\
         exists discarded, updated = discarded ++ stored)).
Proof.
  split.
  - intros cs. apply bounded_performAll, bounded_newAgent.
  - intros a message sid fullResponse Hagent updated done.
    unfold done, processMessage. rewrite Hagent. simpl.
    split; [reflexivity|].
    exists (keepLast20 updated). rewrite lookup_insert_eq.
    split; [reflexivity|]. split; [apply keepLast20_length|].
    split; [apply keepLast20_short|].
    intros Hlong. destruct (keepLast20_long updated Hlong) as [Hlen Hsplit].
    split; [exact Hlen|]. eexists. exact Hsplit.
Qed.

(** Eleven exchanges in one session, on an initialized agent. *)
Definition elevenExchanges : list Call :=
  Initialize :: List.repeat (ProcessMessage "hi" "s1" (Ok "hello")) 11.

Lemma processMessage_history_bounded_witness :
  List.length (default [] (conversationHistory (performAll elevenExchanges newAgent) !! "s1"))
    <= 20 /\
  fst (processMessage "hi" "s1" (Ok "hello") (initialize newAgent)) = Ok "hello".
Proof.
  split.
  - destruct (conversationHistory (performAll elevenExchanges newAgent) !! "s1")
      as [history|] eqn:E; simpl; [|lia].
    exact (proj1 processMessage_history_bounded elevenExchanges "s1" history E).
  - exact (proj1 (proj2 processMessage_history_bounded (initialize newAgent)
                    "hi" "s1" "hello" eq_refl)).
Defined.

End AgentFacts.

(** ** The protocol client *)

Module ClientFacts.
Import JS Client.

(** The state of promise [h]: [None] when there is no such promise,
    [Some None] while it is pending. *)
Definition stateOf (h : nat) (st : MCPClient) : option (option Settlement) :=
  state <$> promises st !! h.

(** *** callTool before the connection is ready *)

(** C7. When the client is not initialized, or neither the caller nor the
    client has a non-empty session identifier, [callTool] throws one of the
    two not-ready errors and leaves the client as it was: nothing is added
    to the registry, nothing is posted. *)
Theorem callTool_not_ready name arguments_ sid uuid st :
  initialized st = false \/ (strTruthy sid = None /\ strTruthy (sessionId st) = None) ->
  exists msg,
    callTool name arguments_ sid uuid st = (Throw msg, st) /\
    (msg = "MCP client not initialized" \/ msg = "No sessionId available for tool call") /\
    pendingRequests (snd (callTool name arguments_ sid uuid st)) = pendingRequests st /\
    posted (snd (callTool name arguments_ sid uuid st)) = posted st.
Proof.
  intros H. unfold callTool.
  destruct (initialized st) eqn:Hinit; simpl.
  - destruct H as [H | [Hsid Hown]]; [discriminate|].
    rewrite Hsid, Hown. eexists. repeat split. right. reflexivity.
  - eexists. repeat split. left. reflexivity.
Qed.

Definition readyWithoutSession : MCPClient := {|
  sessionId := None;
  isConnected := true;
  initialized := true;
  eventSourceOpen := true;
  sessionIdReceived := false;
  pendingRequests := ∅;
  promises := [];
  timers := ∅;
  inflight := ∅;
  posted := [];
  completions := []
|}.

(** The claim on an initialized client without session identifier, called
    with the empty string. *)
Lemma callTool_not_ready_witness :
  exists msg,
    callTool "add" [] (Some EmptyString) "u1" readyWithoutSession
    = (Throw msg, readyWithoutSession).
Proof.
  destruct (callTool_not_ready "add" [] (Some EmptyString) "u1" readyWithoutSession
              (or_intror (conj eq_refl eq_refl)))
    as (msg & Hcall & _).
  exists msg. exact Hcall.
Defined.

(** *** Unmatched messages *)

Lemma settle_pendingRequests h s st :
  pendingRequests (settle h s st) = pendingRequests st.
Proof.
  unfold settle. destruct (promises st !! h) as [p|]; [|reflexivity].
  destruct (state p); reflexivity.
Qed.

Lemma settle_timers h s st : timers (settle h s st) = timers st.
Proof.
  unfold settle. destruct (promises st !! h) as [p|]; [|reflexivity].
  destruct (state p); reflexivity.
Qed.

(** C8. A message without identifier, or whose identifier has no entry
    in the registry, is dropped by [handleSSEMessage]: the client is left
    exactly as it was. The [onmessage] listener around it changes neither
    the registry nor any promise, also when the text is no JSON, and a
    reply that comes after the timeout of its request finds no entry. *)
Theorem handleSSEMessage_unmatched msg st :
  match id msg with
  | Some i => pendingRequests st !! i = None
  | None => True
  end ->
  handleSSEMessage msg st = st /\
  pendingRequests (onmessage (Some msg) st) = pendingRequests st /\
  promises (onmessage (Some msg) st) = promises st /\
  completions (onmessage (Some msg) st) = completions st /\
  onmessage None st = st /\
  (forall h, idOf h st = id msg ->
             handleSSEMessage msg (timeoutFired h st) = timeoutFired h st).
Proof.
  intros Hid.
  assert (Hdrop : forall st', match id msg with
                         | Some i => pendingRequests st' !! i = None
                         | None => True
                         end -> handleSSEMessage msg st' = st').
  { intros st' H. unfold handleSSEMessage.
    destruct (id msg) as [[s|n]|]; simpl; [| |reflexivity].
    - destruct (String.eqb s EmptyString); [reflexivity|]. rewrite H. reflexivity.
    - destruct (Z.eqb n 0); [reflexivity|]. rewrite H. reflexivity. }
  split; [apply Hdrop, Hid|].
  assert (Hon : onmessage (Some msg) st = st \/
                exists sid, onmessage (Some msg) st = {|
                  sessionId := Some sid;
                  isConnected := isConnected st;
                  initialized := initialized st;
                  eventSourceOpen := eventSourceOpen st;
                  sessionIdReceived := true;
                  pendingRequests := pendingRequests st;
                  promises := promises st;
                  timers := timers st;
                  inflight := inflight st;
                  posted := posted st;
                  completions := completions st |}).
  { unfold onmessage.
    destruct (if sessionIdReceived st then None else announcedSession msg) as [sid|].
    - right. exists sid. reflexivity.
    - left. apply Hdrop, Hid. }
  repeat split.
  1-3: destruct Hon as [-> | [sid ->]]; reflexivity.
  intros h Hh. apply Hdrop. rewrite <- Hh. unfold timeoutFired.
  destruct (idOf h st) as [i|]; [|exact I].
  rewrite settle_pendingRequests. simpl. apply lookup_delete_eq.
Qed.

Definition ping : MCPMessage :=
  {| id := None; method := Some "ping"; params := None; result := None; error := None |}.

Definition replyTo (i : Id) : MCPMessage :=
  {| id := Some i; method := None; params := None; result := Some (JObj []);
     error := None |}.

(** The claim at a reply for an identifier that was never issued, with one
    other request pending. *)
Lemma handleSSEMessage_unmatched_witness :
  handleSSEMessage (replyTo (IdStr "stale")) (snd (sendRequest ping "u1" newClient))
  = snd (sendRequest ping "u1" newClient).
Proof.
  apply (handleSSEMessage_unmatched (replyTo (IdStr "stale"))
           (snd (sendRequest ping "u1" newClient))).
  vm_compute. reflexivity.
Defined.

(** *** sendRequest: how a request completes *)

Definition pendingb (h : nat) (st : MCPClient) : bool :=
  match stateOf h st with
  | Some None => true
  | _ => false
  end.

Lemma settle_completions h s st :
  completions (settle h s st) = completions st ++ (if pendingb h st then [h] else []).
Proof.
  unfold settle, pendingb, stateOf.
  destruct (promises st !! h) as [p|]; simpl; [|symmetry; apply app_nil_r].
  destruct (state p); simpl; [symmetry; apply app_nil_r | reflexivity].
Qed.

Lemma settle_promises_ne h s st h' :
  h' <> h -> promises (settle h s st) !! h' = promises st !! h'.
Proof.
  intros Hne. unfold settle.
  destruct (promises st !! h) as [p|]; [|reflexivity].
  destruct (state p); [reflexivity|]. simpl.
  apply list_lookup_insert_ne. congruence.
Qed.

Lemma settle_idOf h s st h' : idOf h' (settle h s st) = idOf h' st.
Proof.
  unfold idOf. destruct (decide (h' = h)) as [->|Hne].
  - unfold settle. destruct (promises st !! h) as [p|] eqn:Hp; [|rewrite Hp; reflexivity].
    destruct (state p); [rewrite Hp; reflexivity|]. simpl.
    rewrite list_lookup_insert_eq by (eapply lookup_lt_Some; exact Hp).
    reflexivity.
  - rewrite settle_promises_ne by assumption. reflexivity.
Qed.

Lemma settle_stateOf h s st :
  stateOf h (settle h s st) =
  match stateOf h st with
  | Some None => Some (Some s)
  | other => other
  end.
Proof.
  unfold stateOf, settle.
  destruct (promises st !! h) as [p|] eqn:Hp; [|rewrite Hp; reflexivity].
  destruct (state p) eqn:Hs; [rewrite Hp; simpl; rewrite Hs; reflexivity|]. simpl.
  rewrite list_lookup_insert_eq by (eapply lookup_lt_Some; exact Hp).
  simpl. rewrite Hs. reflexivity.
Qed.

Lemma settle_stateOf_ne h s st h' :
  h' <> h -> stateOf h' (settle h s st) = stateOf h' st.
Proof. intros Hne. unfold stateOf. rewrite settle_promises_ne by assumption. reflexivity. Qed.

(** The common shape of the three completion paths: the entry of [j] is
    deleted, the timers and the POSTs in flight become [T] and [F], and
    promise [h] is settled with [s] if it is still pending. *)
Definition complete (h : nat) (j : Id) (s : Settlement) (T F : gset nat)
    (st : MCPClient) : MCPClient :=
  settle h s {|
    sessionId := sessionId st;
    isConnected := isConnected st;
    initialized := initialized st;
    eventSourceOpen := eventSourceOpen st;
    sessionIdReceived := sessionIdReceived st;
    pendingRequests := delete j (pendingRequests st);
    promises := promises st;
    timers := T;
    inflight := F;
    posted := posted st;
    completions := completions st
  |}.

Lemma timeoutFired_complete h st i :
  idOf h st = Some i ->
  timeoutFired h st =
  complete h i (Rejected (TimeoutError i)) (timers st ∖ {[h]}) (inflight st) st.
Proof. intros Hi. unfold timeoutFired. rewrite Hi. reflexivity. Qed.

Lemma postFailed_complete h err st i :
  idOf h st = Some i ->
  postFailed h err st =
  complete h i (Rejected (TransportError err)) (timers st ∖ {[h]}) (inflight st ∖ {[h]}) st.
Proof. intros Hi. unfold postFailed. rewrite Hi. reflexivity. Qed.

(** What the callback of a promise settles it with. *)
Definition replyOutcome (msg : MCPMessage) : Settlement :=
  match error msg with
  | Some e => Rejected (ProtocolError (message e))
  | None => Fulfilled msg
  end.

Lemma handleSSEMessage_complete msg st j h :
  idTruthy (id msg) = Some j ->
  pendingRequests st !! j = Some h ->
  handleSSEMessage msg st = complete h j (replyOutcome msg) (timers st) (inflight st) st.
Proof.
  intros Hj Hh. unfold handleSSEMessage. rewrite Hj, Hh.
  unfold callback, replyOutcome, complete.
  destruct (error msg) as [e|]; unfold settle; simpl;
    (destruct (promises st !! h) as [p|]; [destruct (state p)|]; reflexivity).
Qed.

Lemma complete_pendingRequests h j s T F st :
  pendingRequests (complete h j s T F st) = delete j (pendingRequests st).
Proof. unfold complete. rewrite settle_pendingRequests. reflexivity. Qed.

Lemma complete_timers h j s T F st : timers (complete h j s T F st) = T.
Proof. unfold complete. rewrite settle_timers. reflexivity. Qed.

Lemma complete_idOf h j s T F st h' : idOf h' (complete h j s T F st) = idOf h' st.
Proof. unfold complete. rewrite settle_idOf. reflexivity. Qed.

Lemma complete_stateOf h j s T F st :
  stateOf h (complete h j s T F st) =
  match stateOf h st with
  | Some None => Some (Some s)
  | other => other
  end.
Proof. unfold complete. rewrite settle_stateOf. reflexivity. Qed.

Lemma complete_stateOf_ne h j s T F st h' :
  h' <> h -> stateOf h' (complete h j s T F st) = stateOf h' st.
Proof. intros Hne. unfold complete. rewrite settle_stateOf_ne by assumption. reflexivity. Qed.

Lemma complete_completions h j s T F st :
  completions (complete h j s T F st) =
  completions st ++ (if pendingb h st then [h] else []).
Proof. unfold complete. rewrite settle_completions. reflexivity. Qed.

(** The registry, the promises and the timers after [sendRequest]. *)
Lemma sendRequest_idOf request uuid st h' :
  idOf h' (snd (sendRequest request uuid st)) =
  if decide (h' = List.length (promises st)) then Some (effectiveId request uuid)
  else idOf h' st.
Proof.
  unfold idOf. simpl. case_decide as Hh.
  - subst h'. rewrite lookup_app_r by lia. rewrite Nat.sub_diag. reflexivity.
  - destruct (decide (h' < List.length (promises st))) as [Hlt|Hge].
    + rewrite lookup_app_l by assumption. reflexivity.
    + rewrite !lookup_ge_None_2; [reflexivity | lia |].
      rewrite length_app. simpl. lia.
Qed.

Lemma sendRequest_stateOf request uuid st h' :
  stateOf h' (snd (sendRequest request uuid st)) =
  if decide (h' = List.length (promises st)) then Some None else stateOf h' st.
Proof.
  unfold stateOf. simpl. case_decide as Hh.
  - subst h'. rewrite lookup_app_r by lia. rewrite Nat.sub_diag. reflexivity.
  - destruct (decide (h' < List.length (promises st))) as [Hlt|Hge].
    + rewrite lookup_app_l by assumption. reflexivity.
    + rewrite !lookup_ge_None_2; [reflexivity | lia |].
      rewrite length_app. simpl. lia.
Qed.

Lemma stateOf_Some_lt h st x : stateOf h st = Some x -> h < List.length (promises st).
Proof.
  unfold stateOf. destruct (promises st !! h) as [p|] eqn:Hp; [|discriminate].
  intros _. eapply lookup_lt_Some. exact Hp.
Qed.

Lemma idOf_Some_lt h st i : idOf h st = Some i -> h < List.length (promises st).
Proof.
  unfold idOf. destruct (promises st !! h) as [p|] eqn:Hp; [|discriminate].
  intros _. eapply lookup_lt_Some. exact Hp.
Qed.

(** *** Well-formed clients *)

(** Every entry of the registry holds the callback of a pending promise
    and sits under the request id of that promise; every promise listed
    as completed is settled; the timeout of every pending promise is
    armed. *)
Record WF (st : MCPClient) : Prop := {
  wf_registry : forall i h,
    pendingRequests st !! i = Some h -> idOf h st = Some i /\ stateOf h st = Some None;
  wf_completions : forall h,
    In h (completions st) -> exists o, stateOf h st = Some (Some o);
  wf_timers : forall h,
    stateOf h st = Some None -> h ∈ timers st
}.

Lemma WF_newClient : WF newClient.
Proof.
  split.
  - intros i h H. simpl in H. rewrite lookup_empty in H. discriminate.
  - intros h [].
  - intros h H. discriminate H.
Qed.

Lemma WF_complete h j s T F st :
  WF st -> idOf h st = Some j -> timers st ∖ {[h]} ⊆ T ->
  WF (complete h j s T F st).
Proof.
  intros [Hreg Hcomp Htim] Hj HT. split.
  - intros i h'. rewrite complete_pendingRequests, complete_idOf.
    intros Hl. apply lookup_delete_Some in Hl as [Hne Hl].
    destruct (Hreg i h' Hl) as [Hid Hst]. split; [exact Hid|].
    rewrite complete_stateOf_ne; [exact Hst|]. intros ->. congruence.
  - intros h'. rewrite complete_completions. intros Hin.
    apply in_app_or in Hin as [Hin|Hin].
    + destruct (Hcomp h' Hin) as [o Ho]. exists o.
      destruct (decide (h' = h)) as [->|Hne].
      * rewrite complete_stateOf, Ho. reflexivity.
      * rewrite complete_stateOf_ne by assumption. exact Ho.
    + unfold pendingb in Hin. destruct (stateOf h st) as [[o|]|] eqn:Hs;
        simpl in Hin; try contradiction.
      destruct Hin as [<-|[]]. exists s. rewrite complete_stateOf, Hs. reflexivity.
  - intros h'. rewrite complete_timers. destruct (decide (h' = h)) as [->|Hne].
    + rewrite complete_stateOf. destruct (stateOf h st) as [[o|]|]; discriminate.
    + rewrite complete_stateOf_ne by assumption. intros Hp.
      apply HT, elem_of_difference. split; [apply Htim, Hp|].
      rewrite elem_of_singleton. exact Hne.
Qed.

Lemma WF_sendRequest request uuid st : WF st -> WF (snd (sendRequest request uuid st)).
Proof.
  intros [Hreg Hcomp Htim]. split.
  - intros i h. rewrite sendRequest_idOf, sendRequest_stateOf. simpl.
    intros Hl. apply lookup_insert_Some in Hl as [[<- <-]|[Hne Hl]].
    + rewrite !decide_True by reflexivity. split; reflexivity.
    + destruct (Hreg i h Hl) as [Hid Hst].
      pose proof (idOf_Some_lt _ _ _ Hid).
      rewrite !decide_False by lia. split; assumption.
  - intros h Hin. simpl in Hin. destruct (Hcomp h Hin) as [o Ho]. exists o.
    pose proof (stateOf_Some_lt _ _ _ Ho).
    rewrite sendRequest_stateOf, decide_False by lia. exact Ho.
  - intros h. rewrite sendRequest_stateOf. simpl. case_decide as Hh.
    + intros _. subst h. apply elem_of_union_l, elem_of_singleton. reflexivity.
    + intros Hp. apply elem_of_union_r, Htim, Hp.
Qed.

Lemma WF_handleSSEMessage msg st : WF st -> WF (handleSSEMessage msg st).
Proof.
  intros Hwf.
  destruct (idTruthy (id msg)) as [j|] eqn:Hj.
  - destruct (pendingRequests st !! j) as [h|] eqn:Hh.
    + rewrite (handleSSEMessage_complete msg st j h Hj Hh).
      apply WF_complete; [exact Hwf | apply (wf_registry st Hwf j h Hh) |].
      apply subseteq_difference_l. reflexivity.
    + unfold handleSSEMessage. rewrite Hj, Hh. exact Hwf.
  - unfold handleSSEMessage. rewrite Hj. exact Hwf.
Qed.

Lemma WF_onmessage data st : WF st -> WF (onmessage data st).
Proof.
  intros Hwf. destruct data as [msg|]; [|exact Hwf]. unfold onmessage.
  destruct (if sessionIdReceived st then None else announcedSession msg) as [sid|].
  - destruct Hwf as [Hreg Hcomp Htim]. split; [exact Hreg | exact Hcomp | exact Htim].
  - apply WF_handleSSEMessage, Hwf.
Qed.

(** Every step keeps the client well formed. *)
Lemma WF_step st ev st' : WF st -> Step st ev st' -> WF st'.
Proof.
  intros Hwf Hstep. destruct Hstep as [st request uuid|st data|st h Hin|st h err Hin|st h Hin|st].
  - apply WF_sendRequest, Hwf.
  - apply WF_onmessage, Hwf.
  - destruct Hwf as [Hreg Hcomp Htim]. split; [exact Hreg | exact Hcomp | exact Htim].
  - destruct (idOf h st) as [i|] eqn:Hi.
    + rewrite (postFailed_complete h err st i Hi).
      apply WF_complete; [assumption | assumption | reflexivity].
    + unfold postFailed. rewrite Hi. exact Hwf.
  - destruct (idOf h st) as [i|] eqn:Hi.
    + rewrite (timeoutFired_complete h st i Hi).
      apply WF_complete; [assumption | assumption | reflexivity].
    + unfold timeoutFired. rewrite Hi. exact Hwf.
  - destruct Hwf as [Hreg Hcomp Htim]. split.
    + intros i h H. simpl in H. rewrite lookup_empty in H. discriminate.
    + exact Hcomp.
    + exact Htim.
Qed.

Lemma WF_steps st tr st' : WF st -> Steps st tr st' -> WF st'.
Proof.
  intros Hwf Hsteps. induction Hsteps as [st|st tr st1 ev st2 _ IH Hstep]; [exact Hwf|].
  eapply WF_step; [apply IH, Hwf | exact Hstep].
Qed.

(** Every client reached from a new one is well formed. *)
Corollary WF_reachable tr st : Steps newClient tr st -> WF st.
Proof. apply WF_steps, WF_newClient. Qed.


(** *** disconnect *)

Lemma stateOf_settle_pending h s st p :
  promises st !! h = Some p -> state p = None ->
  stateOf h (settle h s st) = Some (Some s) /\
  completions (settle h s st) = completions st ++ [h].
Proof.
  intros Hp Hs. unfold stateOf, settle. rewrite Hp, Hs. simpl.
  rewrite list_lookup_insert_eq by (eapply lookup_lt_Some; exact Hp).
  split; reflexivity.
Qed.

(** One request is pending. *)
Definition onePending : MCPClient := snd (sendRequest ping "u1" newClient).

(** C2, as stated, fails: after [disconnect] with one pending request the
    registry is empty, but the promise of the request is still pending; it
    has not been rejected, with a disconnect error or otherwise. *)
Lemma disconnect_leaves_promise_pending :
  pendingRequests onePending !! IdStr "u1" = Some 0 /\
  stateOf 0 onePending = Some None /\
  stateOf 0 (disconnect onePending) = Some None /\
  completions (disconnect onePending) = [].
Proof. repeat split; reflexivity. Qed.

(** C2, amended. [disconnect] empties the registry and settles no promise:
    every promise, timeout and completion is as before. In a well-formed
    client a request that was pending stays pending, its own timeout is
    still armed, and when that timeout fires the request is rejected with
    the timeout error. *)
Theorem disconnect_clears_registry st :
  pendingRequests (disconnect st) = ∅ /\
  promises (disconnect st) = promises st /\
  timers (disconnect st) = timers st /\
  completions (disconnect st) = completions st /\
  (WF st ->
   forall h i,
     idOf h st = Some i -> stateOf h st = Some None ->
     stateOf h (disconnect st) = Some None /\
     Step (disconnect st) (Timeout h) (timeoutFired h (disconnect st)) /\
     stateOf h (timeoutFired h (disconnect st)) = Some (Some (Rejected (TimeoutError i)))).
Proof.
  split; [reflexivity|]. split; [reflexivity|].
  split; [reflexivity|]. split; [reflexivity|].
  intros Hwf h i Hi Hpending. split; [exact Hpending|]. split.
  - constructor. apply (wf_timers st Hwf h Hpending).
  - unfold timeoutFired.
    assert (Hid : idOf h (disconnect st) = Some i) by exact Hi.
    rewrite Hid. unfold stateOf in Hpending.
    destruct (promises st !! h) as [p|] eqn:Hp; [|discriminate].
    injection Hpending as Hs.
    eapply stateOf_settle_pending; [exact Hp | exact Hs].
Qed.

(** The amended claim at the client with one pending request. *)
Lemma disconnect_clears_registry_witness :
  stateOf 0 (timeoutFired 0 (disconnect onePending))
  = Some (Some (Rejected (TimeoutError (IdStr "u1")))).
Proof.
  apply (proj2 (proj2 (proj2 (proj2 (disconnect_clears_registry onePending))))
           (WF_sendRequest ping "u1" newClient WF_newClient) 0 (IdStr "u1"));
    reflexivity.
Defined.

(** *** One request, from its submission on *)

(** How the run [tr] accounts for the settlement [o] of the promise [h]
    of the request with id [i]: a reply to [i] without error, a reply to
    [i] with an error, the timeout of [h], or the failure of its POST. *)
Definition explains (h : nat) (i : Id) (tr : list Event) (o : Settlement) : Prop :=
  match o with
  | Fulfilled r =>
      In (Message (Some r)) tr /\ idTruthy (id r) = Some i /\ error r = None
  | Rejected (ProtocolError m) =>
      exists r e, In (Message (Some r)) tr /\ idTruthy (id r) = Some i /\
                  error r = Some e /\ message e = m
  | Rejected (TimeoutError j) => j = i /\ In (Timeout h) tr
  | Rejected (TransportError err) => In (PostFail h err) tr
  end.

Lemma explains_app h i tr ev o : explains h i tr o -> explains h i (tr ++ [ev]) o.
Proof.
  destruct o as [r|[m|j|err]]; simpl.
  - intros (Hin & Hid & He). repeat split; auto using in_or_app.
  - intros (r & e & Hin & Hrest). exists r, e. split; auto using in_or_app.
  - intros (Hj & Hin). split; auto using in_or_app.
  - auto using in_or_app.
Qed.

Lemma explains_reply h i tr msg :
  idTruthy (id msg) = Some i ->
  explains h i (tr ++ [Message (Some msg)]) (replyOutcome msg).
Proof.
  intros Hid. unfold replyOutcome. destruct (error msg) as [e|] eqn:He; simpl.
  - exists msg, e. repeat split; auto. apply in_or_app. right. left. reflexivity.
  - repeat split; auto. apply in_or_app. right. left. reflexivity.
Qed.

(** How many times promise [h] has been settled. *)
Definition times (h : nat) (st : MCPClient) : nat :=
  count_occ Nat.eq_dec (completions st) h.

(** The invariant of a submitted request: its promise [h] exists and
    belongs to id [i]; only its own callback can sit under [i]; while it
    is pending its timeout is armed and it has never been settled; once
    it is settled the run accounts for the settlement, it has been
    settled once, and the registry has no entry for [i]. *)
Record Tracked (h : nat) (i : Id) (tr : list Event) (st : MCPClient) : Prop := {
  tk_wf : WF st;
  tk_id : idOf h st = Some i;
  tk_unique : forall h', pendingRequests st !! i = Some h' -> h' = h;
  tk_state :
    match stateOf h st with
    | Some None => h ∈ timers st /\ times h st = 0
    | Some (Some o) =>
        explains h i tr o /\ times h st = 1 /\ pendingRequests st !! i = None
    | None => False
    end
}.

(** No later request reuses the id [i]. *)
Definition fresh (i : Id) (tr : list Event) : Prop :=
  forall request uuid, In (Send request uuid) tr -> effectiveId request uuid <> i.

Lemma Tracked_sendRequest request uuid st :
  WF st ->
  Tracked (List.length (promises st)) (effectiveId request uuid) []
          (snd (sendRequest request uuid st)).
Proof.
  intros Hwf. split.
  - apply WF_sendRequest, Hwf.
  - rewrite sendRequest_idOf, decide_True by reflexivity. reflexivity.
  - intros h'. simpl. rewrite lookup_insert_eq. congruence.
  - rewrite sendRequest_stateOf, decide_True by reflexivity. split.
    + simpl. apply elem_of_union_l, elem_of_singleton. reflexivity.
    + unfold times. simpl. apply count_occ_not_In. intros Hin.
      destruct (wf_completions st Hwf _ Hin) as [o Ho].
      apply stateOf_Some_lt in Ho. lia.
Qed.

Lemma Tracked_weaken h i tr ev st st' :
  Tracked h i tr st ->
  pendingRequests st' = pendingRequests st ->
  promises st' = promises st ->
  timers st' = timers st ->
  completions st' = completions st ->
  Tracked h i (tr ++ [ev]) st'.
Proof.
  intros [Hwf Hid Huniq Hstate] HR HP HT HC.
  assert (Hwf' : WF st').
  { destruct Hwf as [Hreg Hcomp Htim]. split.
    - intros j h'. unfold idOf, stateOf. rewrite HR, HP. apply Hreg.
    - intros h'. unfold stateOf. rewrite HC, HP. apply Hcomp.
    - intros h'. unfold stateOf. rewrite HT, HP. apply Htim. }
  split; [exact Hwf' | | |].
  - unfold idOf. rewrite HP. exact Hid.
  - rewrite HR. exact Huniq.
  - unfold stateOf, times in *. rewrite HP, HT, HC, HR.
    destruct (state <$> promises st !! h) as [[o|]|]; [|exact Hstate..].
    destruct Hstate as (He & Ht & Hr). auto using explains_app.
Qed.

(** The completion of another promise leaves the tracked one alone. *)
Lemma Tracked_complete_other h i tr ev st h' j s T F :
  Tracked h i tr st -> h' <> h -> idOf h' st = Some j ->
  timers st ∖ {[h']} ⊆ T ->
  Tracked h i (tr ++ [ev]) (complete h' j s T F st).
Proof.
  intros [Hwf Hid Huniq Hstate] Hne Hj HT. split.
  - apply WF_complete; assumption.
  - rewrite complete_idOf. exact Hid.
  - intros x. rewrite complete_pendingRequests. intros Hl.
    apply lookup_delete_Some in Hl as [_ Hl]. apply Huniq, Hl.
  - assert (Htimes : times h (complete h' j s T F st) = times h st).
    { unfold times. rewrite complete_completions, count_occ_app.
      destruct (pendingb h' st); simpl; [|lia].
      destruct (Nat.eq_dec h' h); [contradiction | lia]. }
    rewrite complete_stateOf_ne by congruence.
    rewrite Htimes, complete_timers, complete_pendingRequests.
    destruct (stateOf h st) as [[o|]|]; [| |exact Hstate].
    + destruct Hstate as (He & Ht & Hr). repeat split; auto using explains_app.
      apply lookup_delete_None. right. exact Hr.
    + destruct Hstate as [Hin Ht]. split; [|exact Ht].
      apply HT, elem_of_difference. split; [exact Hin|].
      rewrite elem_of_singleton. congruence.
Qed.

(** A completion path of the tracked promise itself. *)
Lemma Tracked_complete_self h i tr ev st s T F :
  Tracked h i tr st ->
  explains h i (tr ++ [ev]) s ->
  timers st ∖ {[h]} ⊆ T ->
  Tracked h i (tr ++ [ev]) (complete h i s T F st).
Proof.
  intros [Hwf Hid Huniq Hstate] Hs HT. split.
  - apply WF_complete; assumption.
  - rewrite complete_idOf. exact Hid.
  - intros x. rewrite complete_pendingRequests, lookup_delete_eq. discriminate.
  - rewrite complete_stateOf, complete_pendingRequests, lookup_delete_eq.
    unfold times. rewrite complete_completions, count_occ_app. unfold pendingb.
    fold (times h st).
    destruct (stateOf h st) as [[o|]|]; [| |exact Hstate].
    + destruct Hstate as (He & Ht & Hr). simpl. repeat split; auto using explains_app. lia.
    + destruct Hstate as [Hin Ht]. simpl.
      destruct (Nat.eq_dec h h); [|contradiction]. repeat split; auto. lia.
Qed.

Lemma Tracked_step h i tr st ev st' :
  Tracked h i tr st -> Step st ev st' ->
  (forall request uuid, ev = Send request uuid -> effectiveId request uuid <> i) ->
  Tracked h i (tr ++ [ev]) st'.
Proof.
  intros Htk Hstep Hfresh.
  destruct Hstep as [st request uuid|st data|st h' Hin|st h' err Hin|st h' Hin|st].
  - (* another request is submitted *)
    specialize (Hfresh request uuid eq_refl).
    destruct Htk as [Hwf Hid Huniq Hstate].
    pose proof (idOf_Some_lt _ _ _ Hid) as Hlt. split.
    + apply WF_sendRequest, Hwf.
    + rewrite sendRequest_idOf, decide_False by lia. exact Hid.
    + intros x. simpl. rewrite lookup_insert_ne by assumption. apply Huniq.
    + rewrite sendRequest_stateOf, decide_False by lia.
      unfold times. simpl. fold (times h st).
      destruct (stateOf h st) as [[o|]|]; [| |exact Hstate].
      * destruct Hstate as (He & Ht & Hr). repeat split; auto using explains_app.
        rewrite lookup_insert_ne by assumption. exact Hr.
      * destruct Hstate as [Hin Ht]. split; [|exact Ht].
        apply elem_of_union_r, Hin.
  - (* a message arrives *)
    destruct data as [msg|]; [|apply (Tracked_weaken h i tr _ st); auto].
    unfold onmessage.
    destruct (if sessionIdReceived st then None else announcedSession msg) as [sid|];
      [apply (Tracked_weaken h i tr _ st); auto|].
    destruct (idTruthy (id msg)) as [j|] eqn:Hj.
    + destruct (pendingRequests st !! j) as [x|] eqn:Hx.
      * rewrite (handleSSEMessage_complete msg st j x Hj Hx).
        destruct (wf_registry st (tk_wf _ _ _ _ Htk) j x Hx) as [Hidx _].
        destruct (decide (x = h)) as [->|Hne].
        -- assert (j = i) as -> by (pose proof (tk_id _ _ _ _ Htk); congruence).
           apply Tracked_complete_self;
             [exact Htk | apply explains_reply, Hj | apply subseteq_difference_l; reflexivity].
        -- apply Tracked_complete_other; auto.
           apply subseteq_difference_l. reflexivity.
      * unfold handleSSEMessage. rewrite Hj, Hx.
        apply (Tracked_weaken h i tr _ st); auto.
    + unfold handleSSEMessage. rewrite Hj. apply (Tracked_weaken h i tr _ st); auto.
  - (* a POST is accepted *)
    apply (Tracked_weaken h i tr _ st); auto.
  - (* a POST fails *)
    destruct (idOf h' st) as [j|] eqn:Hj.
    + rewrite (postFailed_complete h' err st j Hj).
      destruct (decide (h' = h)) as [->|Hne].
      * assert (j = i) as -> by (pose proof (tk_id _ _ _ _ Htk); congruence).
        apply Tracked_complete_self; [exact Htk | | reflexivity].
        simpl. apply in_or_app. right. left. reflexivity.
      * apply Tracked_complete_other; auto.
    + unfold postFailed. rewrite Hj. apply (Tracked_weaken h i tr _ st); auto.
  - (* a timeout fires *)
    destruct (idOf h' st) as [j|] eqn:Hj.
    + rewrite (timeoutFired_complete h' st j Hj).
      destruct (decide (h' = h)) as [->|Hne].
      * assert (j = i) as -> by (pose proof (tk_id _ _ _ _ Htk); congruence).
        apply Tracked_complete_self; [exact Htk | | reflexivity].
        simpl. split; [reflexivity|]. apply in_or_app. right. left. reflexivity.
      * apply Tracked_complete_other; auto.
    + unfold timeoutFired. rewrite Hj. apply (Tracked_weaken h i tr _ st); auto.
  - (* disconnect *)
    destruct Htk as [Hwf Hid Huniq Hstate]. split.
    + eapply WF_step; [exact Hwf | constructor].
    + exact Hid.
    + intros x. simpl. rewrite lookup_empty. discriminate.
    + change (stateOf h (disconnect st)) with (stateOf h st).
      change (times h (disconnect st)) with (times h st).
      change (timers (disconnect st)) with (timers st).
      destruct (stateOf h st) as [[o|]|]; [| exact Hstate..].
      destruct Hstate as (He & Ht & Hr). repeat split; auto using explains_app.
Qed.

Lemma Tracked_steps h i tr0 st tr st' :
  Tracked h i tr0 st -> Steps st tr st' -> fresh i tr ->
  Tracked h i (tr0 ++ tr) st'.
Proof.
  intros Htk Hsteps. induction Hsteps as [st|st tr st1 ev st2 _ IH Hstep]; intros Hfresh.
  - rewrite app_nil_r. exact Htk.
  - rewrite app_assoc. eapply Tracked_step; [|exact Hstep|].
    + apply IH; [exact Htk|]. intros r u Hin. apply Hfresh, in_or_app. left. exact Hin.
    + intros r u ->. apply Hfresh, in_or_app. right. left. reflexivity.
Qed.

(** A settled promise keeps its settlement. *)
Lemma settled_step h o st ev st' :
  stateOf h st = Some (Some o) -> Step st ev st' -> stateOf h st' = Some (Some o).
Proof.
  intros Hs Hstep.
  assert (Hcomplete : forall x j s T F, stateOf h (complete x j s T F st) = Some (Some o)).
  { intros x j s T F. destruct (decide (h = x)) as [<-|Hne].
    - rewrite complete_stateOf, Hs. reflexivity.
    - rewrite complete_stateOf_ne by assumption. exact Hs. }
  destruct Hstep as [st request uuid|st data|st h' Hin|st h' err Hin|st h' Hin|st].
  - pose proof (stateOf_Some_lt _ _ _ Hs).
    rewrite sendRequest_stateOf, decide_False by lia. exact Hs.
  - destruct data as [msg|]; [|exact Hs]. unfold onmessage.
    destruct (if sessionIdReceived st then None else announcedSession msg); [exact Hs|].
    destruct (idTruthy (id msg)) as [j|] eqn:Hj.
    + destruct (pendingRequests st !! j) as [x|] eqn:Hx.
      * rewrite (handleSSEMessage_complete msg st j x Hj Hx). apply Hcomplete.
      * unfold handleSSEMessage. rewrite Hj, Hx. exact Hs.
    + unfold handleSSEMessage. rewrite Hj. exact Hs.
  - exact Hs.
  - destruct (idOf h' st) as [j|] eqn:Hj.
    + rewrite (postFailed_complete h' err st j Hj). apply Hcomplete.
    + unfold postFailed. rewrite Hj. exact Hs.
  - destruct (idOf h' st) as [j|] eqn:Hj.
    + rewrite (timeoutFired_complete h' st j Hj). apply Hcomplete.
    + unfold timeoutFired. rewrite Hj. exact Hs.
  - exact Hs.
Qed.

Lemma settled_steps h o st tr st' :
  stateOf h st = Some (Some o) -> Steps st tr st' -> stateOf h st' = Some (Some o).
Proof.
  intros Hs Hsteps. induction Hsteps as [st|st tr st1 ev st2 _ IH Hstep]; [exact Hs|].
  eapply settled_step; [apply IH, Hs | exact Hstep].
Qed.


(** C1, as stated, fails on the list of outcomes: a request whose POST
    fails is completed with the error of the POST, which is no success
    payload, no protocol error and no timeout error. *)
Lemma sendRequest_transport_failure :
  Step onePending (PostFail 0 "ECONNREFUSED") (postFailed 0 "ECONNREFUSED" onePending) /\
  stateOf 0 (postFailed 0 "ECONNREFUSED" onePending)
    = Some (Some (Rejected (TransportError "ECONNREFUSED"))) /\
  (forall r, stateOf 0 (postFailed 0 "ECONNREFUSED" onePending)
             <> Some (Some (Fulfilled r))) /\
  (forall m, stateOf 0 (postFailed 0 "ECONNREFUSED" onePending)
             <> Some (Some (Rejected (ProtocolError m)))) /\
  (forall i, stateOf 0 (postFailed 0 "ECONNREFUSED" onePending)
             <> Some (Some (Rejected (TimeoutError i)))).
Proof.
  assert (Hs : stateOf 0 (postFailed 0 "ECONNREFUSED" onePending)
               = Some (Some (Rejected (TransportError "ECONNREFUSED"))))
    by reflexivity.
  split.
  - constructor. apply elem_of_union_l, elem_of_singleton. reflexivity.
  - rewrite Hs. repeat split; intros; discriminate.
Qed.

(** C1, amended. Let a request be submitted to a well-formed client and
    let the client run on, no later request reusing its id. The promise
    of the request is settled at most once. While it is pending it has
    never been settled and its timeout is armed; when the timeout fires it
    is rejected with the timeout error and the registry has no entry for
    its id. Once it is settled it has been settled exactly once, by a reply
    without error (fulfilled with the reply), by a reply with an error
    (rejected with the protocol error), by its timeout (rejected with the
    timeout error) or by the failure of its POST (rejected with the
    error of the POST); the registry has no entry for its id; and it keeps
    that settlement in every later state. *)
Theorem sendRequest_completes_once st request uuid tr st' :
  WF st ->
  Steps (snd (sendRequest request uuid st)) tr st' ->
  fresh (effectiveId request uuid) tr ->
  let h := fst (sendRequest request uuid st) in
  let i := effectiveId request uuid in
  times h st' <= 1 /\
  match stateOf h st' with
  | Some None =>
      times h st' = 0 /\
      Step st' (Timeout h) (timeoutFired h st') /\
      stateOf h (timeoutFired h st') = Some (Some (Rejected (TimeoutError i))) /\
      times h (timeoutFired h st') = 1 /\
      pendingRequests (timeoutFired h st') !! i = None
  | Some (Some o) =>
      times h st' = 1 /\
      explains h i tr o /\
      pendingRequests st' !! i = None /\
      (forall tr2 st2, Steps st' tr2 st2 -> stateOf h st2 = Some (Some o))
  | None => False
  end.
Proof.
  intros Hwf Hsteps Hfresh h i.
  pose proof (Tracked_steps h i [] _ tr st' (Tracked_sendRequest request uuid st Hwf)
                Hsteps Hfresh) as Htk.
  rewrite app_nil_l in Htk.
  pose proof (tk_state _ _ _ _ Htk) as Hstate.
  destruct (stateOf h st') as [[o|]|] eqn:Hs; [| |contradiction].
  - destruct Hstate as (He & Ht & Hr). split; [lia|].
    repeat split; auto. intros tr2 st2 Hsteps2. eapply settled_steps; eauto.
  - destruct Hstate as [Hin Ht]. split; [lia|].
    split; [exact Ht|]. split; [constructor; exact Hin|].
    pose proof (Tracked_step h i tr st' (Timeout h) (timeoutFired h st') Htk
                  (step_timeout st' h Hin)) as Htk'.
    assert (Hno : forall request0 uuid0,
               Timeout h = Send request0 uuid0 -> effectiveId request0 uuid0 <> i)
      by (intros ? ? [=]).
    specialize (Htk' Hno).
    pose proof (tk_state _ _ _ _ Htk') as Hstate'.
    rewrite (timeoutFired_complete h st' i (tk_id _ _ _ _ Htk)) in *.
    rewrite complete_stateOf, Hs in *.
    destruct Hstate' as (_ & Ht' & Hr'). auto.
Qed.

(** A reply to the request u1, and the run in which it arrives before the
    timeout of the request fires. *)
Definition replyThenTimeout : list Event :=
  [PostOk 0; Message (Some (replyTo (IdStr "u1"))); Timeout 0].

Lemma replyThenTimeout_run :
  Steps onePending replyThenTimeout
    (timeoutFired 0 (onmessage (Some (replyTo (IdStr "u1"))) (postAccepted 0 onePending))).
Proof.
  apply (steps_snoc onePending [PostOk 0; Message (Some (replyTo (IdStr "u1")))]
           (onmessage (Some (replyTo (IdStr "u1"))) (postAccepted 0 onePending))
           (Timeout 0)).
  - apply (steps_snoc onePending [PostOk 0] (postAccepted 0 onePending)
             (Message (Some (replyTo (IdStr "u1"))))).
    + apply (steps_snoc onePending [] onePending (PostOk 0)); [constructor|].
      constructor. apply (bool_decide_unpack _). vm_compute. exact I.
    + constructor.
  - constructor. apply (bool_decide_unpack _). vm_compute. exact I.
Defined.

Lemma replyThenTimeout_fresh : fresh (effectiveId ping "u1") replyThenTimeout.
Proof.
  intros request uuid Hin. simpl in Hin.
  destruct Hin as [H|[H|[H|[]]]]; discriminate H.
Defined.

(** The amended claim on that run: the reply fulfils the promise, the
    timeout that fires afterwards changes nothing, and the promise has been
    settled once. *)
Lemma sendRequest_completes_once_witness :
  times 0 (timeoutFired 0 (onmessage (Some (replyTo (IdStr "u1")))
                             (postAccepted 0 onePending))) <= 1.
Proof.
  exact (proj1 (sendRequest_completes_once newClient ping "u1" replyThenTimeout _
                  WF_newClient replyThenTimeout_run replyThenTimeout_fresh)).
Defined.


End ClientFacts.

(** * Further properties of the tool wrapper *)

Module ToolsMore.
Import JS Tools ObjFacts ToolsFacts.

(** Tools and content items for the examples. *)
Definition plain (t : SchemaType) : PropSchema :=
  {| type := t; description := None; enum := None |}.

Definition weighTool : MCPTool := {|
  name := "weigh";
  tool_description := "Record a weight";
  inputSchema := {| properties := [("n", plain TNumber)]; required := [] |}
|}.

Definition searchTool : MCPTool := {|
  name := "search";
  tool_description := "Search the catalog";
  inputSchema := {|
    properties :=
      [("category", {| type := TString; description := None;
                       enum := Some ["laptops"; "phones"] |});
       ("tags", plain TArray)];
    required := ["category"; "tags"]
  |}
|}.

Definition askTool : MCPTool := {|
  name := "ask";
  tool_description := "Ask a question";
  inputSchema := {| properties := [("query", plain TString)]; required := ["query"] |}
|}.

Definition textOf (t : string) : ContentItem := {|
  ctype := "text"; text := Some t; data := None; url := None; mimeType := None
|}.

(** ** What the cleaning pass lets through *)

(** A whole number or an infinity: what [Math.floor] and [parseInt]
    return when they do not return NaN. *)
Definition wholeOrInfinite (n : number) : bool :=
  match n with
  | NaN => false
  | Infinity _ => true
  | Dec _ e => Z.leb 0 e
  end.

(** [v] has the type that [propSchema] declares, as far as the cleaning
    pass coerces: a number is a number other than NaN, an integer is
    moreover a whole number or an infinity, a string is a string, a
    boolean is a boolean; the other types admit every value. *)
Definition conforms (propSchema : PropSchema) (v : JVal) : bool :=
  match type propSchema, v with
  | TNumber, JNum n => negb (isNaN n)
  | TInteger, JNum n => negb (isNaN n) && wholeOrInfinite n
  | TString, JStr _ => true
  | TBoolean, JBool _ => true
  | (TNumber | TInteger | TString | TBoolean), _ => false
  | _, _ => true
  end.

Lemma stripZeros_exponent fuel m e :
  (e <= snd (stripZeros fuel m e))%Z.
Proof.
  revert m e. induction fuel as [|fuel IH]; intros m e; simpl; [lia|].
  destruct (Z.eqb (m mod 10) 0); simpl; [|lia].
  specialize (IH (m / 10)%Z (e + 1)%Z). lia.
Qed.

Lemma wholeOrInfinite_ofZ z : wholeOrInfinite (ofZ z) = true.
Proof.
  unfold ofZ, normalize. destruct (Z.eqb z 0); [reflexivity|].
  pose proof (stripZeros_exponent (S (Z.to_nat (Z.log2 (Z.abs z)))) z 0) as H.
  destruct (stripZeros _ z 0) as [m' e']. simpl in *. apply Z.leb_le. exact H.
Qed.

Lemma isNaN_ofZ z : isNaN (ofZ z) = false.
Proof.
  unfold ofZ, normalize. destruct (Z.eqb z 0); [reflexivity|].
  destruct (stripZeros _ z 0). reflexivity.
Qed.

Lemma wholeOrInfinite_floor n : isNaN n = false -> wholeOrInfinite (floor n) = true.
Proof.
  destruct n as [|neg|m e]; simpl; try discriminate; [reflexivity|]. intros _.
  destruct (Z.leb 0 e) eqn:E; [exact E | apply wholeOrInfinite_ofZ].
Qed.

Lemma isNaN_floor n : isNaN (floor n) = isNaN n.
Proof.
  destruct n as [|neg|m e]; simpl; try reflexivity.
  destruct (Z.leb 0 e); [reflexivity | apply isNaN_ofZ].
Qed.

Lemma cleanValue_conforms ps value v :
  cleanValue ps value = Ok (Some v) -> conforms ps v = true.
Proof.
  unfold cleanValue, conforms.
  destruct (type ps) eqn:T; destruct value; intros H;
    try discriminate H; try (injection H as <-; reflexivity).
  all: destruct (toString _) as [t|m]; cbn [bind] in H; [|discriminate H].
  all: try (injection H as <-; reflexivity).
  all: destruct (isNaN (parseFloat t)) eqn:E; [discriminate H|]; injection H as <-.
  all: try (rewrite E; reflexivity).
  all: rewrite isNaN_floor, E, wholeOrInfinite_floor by exact E; reflexivity.
Qed.

Lemma missingDefault_conforms propSchema d :
  missingDefault propSchema = Some d ->
  exists ps, propSchema = Some ps /\ type ps <> TOther /\ conforms ps d = true.
Proof.
  destruct propSchema as [ps|]; [|discriminate]. unfold missingDefault, conforms.
  intros H. exists ps. split; [reflexivity|].
  destruct (type ps); try discriminate H; injection H as <-; split;
    try discriminate; reflexivity.
Qed.

(** Every own property of [o] is a declared parameter with a value of the
    declared type, or bears the name of a member of [Object.prototype]
    that the schema does not declare, with the value that [args] gives
    it. *)
Definition clean (props : list (string * PropSchema)) (args o : Obj) : Prop :=
  forall key v, getKey key o = Some v ->
                match getProp key props with
                | Some ps => conforms ps v = true
                | None => inherited key = true /\ In (key, v) args
                end.

Lemma clean_assign props args key v (o : Obj) :
  clean props args o ->
  match getProp key props with
  | Some ps => conforms ps v = true
  | None => inherited key = true /\ In (key, v) args
  end ->
  clean props args (assign key v o).
Proof.
  intros Ho Hv k w Hk. apply getKey_assign_cases in Hk as [[-> ->]|Hk]; [exact Hv|].
  apply Ho, Hk.
Qed.

Lemma clean_cleanEntries props (args rest acc cleanedArgs : Obj) :
  (forall kv, In kv rest -> In kv args) ->
  clean props args acc ->
  cleanEntries props rest acc = Ok cleanedArgs ->
  clean props args cleanedArgs.
Proof.
  revert acc. induction rest as [|[key value] rest IH]; intros acc Hsub Hacc Hc.
  - injection Hc as <-. exact Hacc.
  - assert (Hsub' : forall kv, In kv rest -> In kv args) by (intros kv Hkv; apply Hsub; right; exact Hkv).
    cbn [cleanEntries] in Hc. unfold propertyAt in Hc.
    destruct (getProp key props) as [ps|] eqn:Hps.
    + destruct (cleanValue ps value) as [[v|]|m] eqn:Hv; cbn [bind] in Hc;
        [| |discriminate Hc]; [|exact (IH _ Hsub' Hacc Hc)].
      apply (IH _ Hsub' (clean_assign _ _ key v _ Hacc ltac:(rewrite Hps; eapply cleanValue_conforms, Hv)) Hc).
    + destruct (inherited key) eqn:Hi; [|exact (IH _ Hsub' Hacc Hc)].
      cbn [cleanValue inheritedMember type bind] in Hc.
      apply (IH _ Hsub' (clean_assign _ _ key value _ Hacc
                           ltac:(rewrite Hps; split; [exact Hi | apply Hsub; left; reflexivity])) Hc).
Qed.

Lemma clean_fillMissing toolName props args req (acc : Obj) ws :
  clean props args acc -> clean props args (fst (fillMissing toolName props req acc ws)).
Proof.
  revert acc ws. induction req as [|r rest IH]; intros acc ws Hacc; [exact Hacc|].
  cbn [fillMissing]. destruct (hasProperty r acc) eqn:Hr; [apply IH, Hacc|].
  apply not_hasProperty in Hr as (_ & Hi & _).
  destruct (missingDefault (propertyAt r props)) as [d|] eqn:Hd; [|apply IH, Hacc].
  destruct (missingDefault_conforms _ _ Hd) as (ps & Hps & _ & Hc).
  apply IH, clean_assign; [exact Hacc|].
  unfold propertyAt in Hps. rewrite Hi in Hps.
  destruct (getProp r props) as [ps'|]; [|discriminate Hps].
  injection Hps as ->. exact Hc.
Qed.

(** X1. For an argument set without an own property named __proto__,
    every field of the cleaned set is a parameter that the schema
    declares, with a value of the declared type (a number that is not NaN
    for number, moreover a whole number or an infinity for integer, a
    string for string, a boolean for boolean), or it bears the name of a
    member of [Object.prototype] and is not declared: such an argument
    passes the test [properties[key]] and is copied as it is. No other
    undeclared argument reaches the cleaned set. *)
Theorem validateAndCleanArgs_conforms tool (args cleanedArgs : Obj) ws key v :
  hasOwn "__proto__" args = false ->
  validateAndCleanArgs tool args = Ok (cleanedArgs, ws) ->
  getKey key cleanedArgs = Some v ->
  match getProp key (properties (inputSchema tool)) with
  | Some ps => conforms ps v = true
  | None => inherited key = true /\ In (key, v) args
  end.
Proof.
  intros _ Hok. revert key v.
  change (clean (properties (inputSchema tool)) args cleanedArgs).
  unfold validateAndCleanArgs in Hok.
  destruct (cleanEntries (properties (inputSchema tool)) args []) as [c|m] eqn:Hc;
    cbn [bind] in Hok; [|discriminate Hok].
  injection Hok as Hok. change cleanedArgs with (fst (cleanedArgs, ws)). rewrite <- Hok.
  apply clean_fillMissing. eapply clean_cleanEntries; [| |exact Hc]; [auto|].
  intros key v H. discriminate H.
Qed.

Lemma validateAndCleanArgs_conforms_witness :
  conforms (plain TNumber) (JNum (Dec 125 (-1))) = true /\
  (inherited "toString" = true /\
   In ("toString", JStr "x") [("n", JStr "12.5kg"); ("junk", JBool true); ("toString", JStr "x")]).
Proof.
  split.
  - apply (validateAndCleanArgs_conforms weighTool
             [("n", JStr "12.5kg"); ("junk", JBool true); ("toString", JStr "x")]
             [("n", JNum (Dec 125 (-1))); ("toString", JStr "x")] []
             "n" (JNum (Dec 125 (-1)))); reflexivity.
  - apply (validateAndCleanArgs_conforms weighTool
             [("n", JStr "12.5kg"); ("junk", JBool true); ("toString", JStr "x")]
             [("n", JNum (Dec 125 (-1))); ("toString", JStr "x")] []
             "toString" (JStr "x")); reflexivity.
Defined.

Definition isPrimitive (t : SchemaType) : bool :=
  match t with
  | TNumber | TInteger | TString | TBoolean => true
  | _ => false
  end.

Lemma inArray_In key (l : list string) : In key l -> inArray key l = true.
Proof.
  intros Hin. unfold inArray. apply existsb_exists. exists key.
  split; [exact Hin | apply String.eqb_refl].
Qed.

(** The first loop gives a value to keys of the argument set only. *)
Lemma hasOwn_cleanEntries props key (args acc cleanedArgs : Obj) :
  cleanEntries props args acc = Ok cleanedArgs ->
  hasOwn key cleanedArgs = true -> hasOwn key args = true \/ hasOwn key acc = true.
Proof.
  revert acc. induction args as [|[k value] rest IH]; intros acc Hc Hk.
  - injection Hc as <-. auto.
  - cbn [cleanEntries] in Hc. cbn [hasOwn].
    assert (Hstep : forall acc', cleanEntries props rest acc' = Ok cleanedArgs ->
                      (hasOwn key acc' = true -> String.eqb k key = true \/ hasOwn key acc = true) ->
                      String.eqb k key || hasOwn key rest = true \/ hasOwn key acc = true).
    { intros acc' Hc' Hacc'. destruct (IH acc' Hc' Hk) as [H|H].
      - left. rewrite H. apply orb_true_r.
      - destruct (Hacc' H) as [H'|H']; [left; rewrite H'; reflexivity | auto]. }
    destruct (propertyAt k props) as [ps|]; [|apply (Hstep acc Hc); auto].
    destruct (cleanValue ps value) as [[v|]|m]; cbn [bind] in Hc;
      [| apply (Hstep acc Hc); auto | discriminate Hc].
    apply (Hstep _ Hc). rewrite !hasOwn_getKey. intros H.
    destruct (getKey key (assign k v acc)) as [w|] eqn:Hw; [|discriminate H].
    apply getKey_assign_cases in Hw as [[-> _]|Hw].
    + left. apply String.eqb_refl.
    + right. rewrite Hw. reflexivity.
Qed.

(** X2. The cleaning pass, on an argument set without an own property
    named __proto__, and a required parameter that is declared with type
    number, integer, string or boolean: when no member of
    [Object.prototype] bears its name, the parameter has a value in the
    cleaned set, whatever the arguments were; when one does (constructor,
    toString, valueOf, ...), the test [in] of the second loop holds
    without any value, and the parameter has a value only if the
    arguments gave it one. *)
Theorem validateAndCleanArgs_required_present tool (args cleanedArgs : Obj) ws r ps :
  hasOwn "__proto__" args = false ->
  validateAndCleanArgs tool args = Ok (cleanedArgs, ws) ->
  In r (required (inputSchema tool)) ->
  getProp r (properties (inputSchema tool)) = Some ps ->
  isPrimitive (type ps) = true ->
  (inherited r = false -> hasOwn r cleanedArgs = true) /\
  (inherited r = true -> hasOwn r args = false -> hasOwn r cleanedArgs = false).
Proof.
  intros _ Hok Hin Hps Hprim. unfold validateAndCleanArgs in Hok.
  destruct (cleanEntries (properties (inputSchema tool)) args []) as [c|m] eqn:Hc;
    cbn [bind] in Hok; [|discriminate Hok].
  injection Hok as Hok.
  assert (Hget : getKey r cleanedArgs =
                 match getKey r c with
                 | Some v => Some v
                 | None =>
                     if inArray r (required (inputSchema tool)) && negb (inherited r)
                     then missingDefault (propertyAt r (properties (inputSchema tool)))
                     else None
                 end).
  { change cleanedArgs with (fst (cleanedArgs, ws)). rewrite <- Hok.
    apply getKey_fillMissing. }
  rewrite !hasOwn_getKey, Hget. split.
  - intros Hi. destruct (getKey r c); [reflexivity|].
    rewrite (inArray_In _ _ Hin), Hi. unfold propertyAt, missingDefault. rewrite Hps.
    destruct (type ps); try discriminate Hprim; reflexivity.
  - intros Hi Hargs.
    destruct (getKey r c) as [v|] eqn:Hrc; [|rewrite Hi, andb_false_r; reflexivity].
    destruct (hasOwn_cleanEntries _ r _ _ _ Hc) as [H|H].
    + rewrite hasOwn_getKey, Hrc. reflexivity.
    + rewrite hasOwn_getKey in H. destruct (getKey r args); discriminate.
    + discriminate H.
Qed.

Definition constructorTool : MCPTool := {|
  name := "build";
  tool_description := "Build an object";
  inputSchema := {|
    properties := [("constructor", plain TString); ("size", plain TNumber)];
    required := ["constructor"; "size"]
  |}
|}.

Lemma validateAndCleanArgs_required_present_witness :
  hasOwn "size" [("size", JNum zero)] = true /\
  hasOwn "constructor" [("size", JNum zero)] = false.
Proof.
  split.
  - apply (proj1 (validateAndCleanArgs_required_present constructorTool []
                    [("size", JNum zero)] [missingWarning "size" "build"]
                    "size" (plain TNumber) eq_refl eq_refl
                    (or_intror (or_introl eq_refl)) eq_refl eq_refl)).
    reflexivity.
  - apply (proj2 (validateAndCleanArgs_required_present constructorTool []
                    [("size", JNum zero)] [missingWarning "size" "build"]
                    "constructor" (plain TString) eq_refl eq_refl
                    (or_introl eq_refl) eq_refl eq_refl)); reflexivity.
Defined.




(** ** Coercion *)

(** [v] is what [convertValueToSchemaType] makes of a value for the
    declared type: like [conforms], and an array for array, an array or
    an object for object. *)
Definition coerced (propSchema : PropSchema) (v : JVal) : bool :=
  match type propSchema, v with
  | TArray, JArr _ => true
  | TObject, (JArr _ | JObj _) => true
  | (TArray | TObject), _ => false
  | _, _ => conforms propSchema v
  end.

(** The types for which the conversion takes the text of the value. *)
Definition callsToString (t : SchemaType) : bool :=
  match t with
  | TNumber | TInteger | TString => true
  | _ => false
  end.

Lemma parseInt_cases s : parseInt s = NaN \/ exists z, parseInt s = ofZ z.
Proof.
  unfold parseInt. destruct (takeSign (trimStart s)) as [neg s1].
  repeat match goal with
         | |- context [match ?x with _ => _ end] => destruct x
         end; eauto.
Qed.

Lemma isNaN_parseInt_whole s :
  isNaN (parseInt s) = false -> wholeOrInfinite (parseInt s) = true.
Proof.
  destruct (parseInt_cases s) as [-> | [z ->]]; [discriminate|].
  intros _. apply wholeOrInfinite_ofZ.
Qed.

(** X4. [convertValueToSchemaType] on a declared parameter. Null and
    undefined pass through unchanged. For another value, when the
    declared type is number, integer or string and the value is an object
    with an own property named toString, or an array that holds one, the
    call [value.toString()] throws a TypeError. In every other case the
    conversion returns a value of the declared type: never NaN for number
    and integer (0 stands in for what does not parse), a string for
    string, a boolean for boolean, an array for array, an array or an
    object for object. *)
Theorem convertValueToSchemaType_coerced value ps :
  match value with
  | JNull | JUndefined => convertValueToSchemaType value (Some ps) = Ok value
  | _ =>
      if callsToString (type ps) && negb (printable value)
      then exists msg, convertValueToSchemaType value (Some ps) = Throw msg
      else exists v, convertValueToSchemaType value (Some ps) = Ok v /\ coerced ps v = true
  end.
Proof.
  assert (Hnum : forall n, negb (isNaN (if isNaN n then zero else n)) = true).
  { intros n. destruct (isNaN n) eqn:E; [reflexivity|]. rewrite E. reflexivity. }
  assert (Hint : forall s, negb (isNaN (if isNaN (parseInt s) then zero else parseInt s)) &&
                           wholeOrInfinite (if isNaN (parseInt s) then zero else parseInt s)
                           = true).
  { intros s. destruct (isNaN (parseInt s)) eqn:E; [reflexivity|].
    rewrite E, isNaN_parseInt_whole by exact E. reflexivity. }
  assert (Hcases : value <> JNull -> value <> JUndefined ->
            if callsToString (type ps) && negb (printable value)
            then exists msg, convertValueToSchemaType value (Some ps) = Throw msg
            else exists v, convertValueToSchemaType value (Some ps) = Ok v /\
                           coerced ps v = true).
  { intros Hn Hu. pose proof (toString_printable value Hn Hu) as Ht.
    unfold convertValueToSchemaType, coerced, conforms.
    destruct (printable value); destruct Ht as [t Ht];
      destruct (type ps) eqn:T; cbn [callsToString negb andb];
      destruct value; try contradiction; try rewrite Ht; cbn [bind typeofObject];
      eauto; eexists; (split; [reflexivity|]); simpl;
      try reflexivity; try apply Hint; try apply Hnum. }
  destruct value; try reflexivity; apply Hcases; discriminate.
Qed.

(** ** The priority of a parameter name *)




(** ** The text of a result *)

Lemma eqb_empty_false (s : string) : String.eqb s EmptyString = false <-> s <> EmptyString.
Proof. apply String.eqb_neq. Qed.

(** X6. [formatToolResult] never returns the empty string, whatever the
    result holds. *)
Theorem formatToolResult_nonempty result :
  String.eqb (formatToolResult result) EmptyString = false.
Proof.
  unfold formatToolResult. destruct (content result) as [[|item items]|];
    try reflexivity.
  match goal with
  | |- context [negb (String.eqb ?t EmptyString)] =>
      destruct (String.eqb t EmptyString) eqn:Et
  end; simpl.
  - match goal with
    | |- context [negb (String.eqb ?t EmptyString)] =>
        destruct (String.eqb t EmptyString) eqn:Eo
    end; simpl.
    + reflexivity.
    + exact Eo.
  - exact Et.
Qed.

Lemma join_nonempty sep (l : list string) x :
  In x l -> x <> EmptyString -> join sep l <> EmptyString.
Proof.
  induction l as [|y l IH]; [intros []|]. intros Hin Hx. simpl.
  destruct l as [|z l'].
  - destruct Hin as [->|[]]. exact Hx.
  - destruct y as [|c y'].
    + destruct Hin as [<-|Hin]; [contradiction|]. simpl.
      destruct sep; simpl; [apply IH; assumption | discriminate].
    + discriminate.
Qed.

Definition isText (item : ContentItem) : bool :=
  String.eqb (ctype item) "text" && present (text item).

(** X7. When some text item of the content has a non-empty text, the
    formatted result is the non-empty texts joined by newlines, in the
    order of the content; images, resources and other items are left
    out, as are text items without text. *)
Theorem formatToolResult_text_only result items :
  content result = Some items ->
  existsb isText items = true ->
  formatToolResult result =
    join newline (List.map (fun item => joined (text item)) (List.filter isText items)) /\
  formatToolResult result =
    formatToolResult {| content := Some (List.filter isText items); isError := isError result |}.
Proof.
  intros Hc Hex.
  assert (Hne : forall l, existsb isText l = true ->
                  join newline (List.map (fun item => joined (text item))
                                  (List.filter isText l)) <> EmptyString).
  { intros l Hl. apply existsb_exists in Hl as (item & Hin & Hit).
    apply (join_nonempty newline _ (joined (text item))).
    - apply in_map_iff. exists item. split; [reflexivity|].
      apply filter_In. split; assumption.
    - unfold isText in Hit. apply andb_true_iff in Hit as [_ Hp].
      destruct (present_joined _ Hp) as (c & s & ->). discriminate. }
  assert (Hfmt : forall r l, content r = Some l -> existsb isText l = true ->
                   formatToolResult r =
                   join newline (List.map (fun item => joined (text item))
                                   (List.filter isText l))).
  { intros r l Hr Hl. unfold formatToolResult. rewrite Hr.
    destruct l as [|i0 l']; [discriminate Hl|].
    fold isText. change (fun item => String.eqb (ctype item) "text" && present (text item))
      with isText.
    apply Hne in Hl. apply eqb_empty_false in Hl. rewrite Hl. reflexivity. }
  split; [apply Hfmt; assumption|].
  rewrite (Hfmt result items Hc Hex).
  rewrite (Hfmt {| content := Some (List.filter isText items); isError := isError result |}
             (List.filter isText items) eq_refl).
  - assert (Hidem : List.filter isText (List.filter isText items) = List.filter isText items).
    { clear. induction items as [|i l IH]; [reflexivity|]. simpl.
      destruct (isText i) eqn:E; simpl; [rewrite E, IH|]; auto. }
    rewrite Hidem. reflexivity.
  - apply existsb_exists in Hex as (item & Hin & Hit). apply existsb_exists.
    exists item. split; [apply filter_In; split|]; assumption.
Qed.

Definition imageItem (u : string) : ContentItem := {|
  ctype := "image"; text := None; data := None; url := Some u; mimeType := None
|}.

Lemma formatToolResult_text_only_witness :
  formatToolResult {| content := Some [imageItem "http://x/y.png"; textOf "done"];
                      isError := None |} = "done".
Proof.
  apply (proj1 (formatToolResult_text_only
                  {| content := Some [imageItem "http://x/y.png"; textOf "done"];
                     isError := None |}
                  [imageItem "http://x/y.png"; textOf "done"] eq_refl eq_refl)).
Defined.


(** ** Argument preparation as a whole *)

(** Every value of [o] has a text. *)
Definition allPrintable (o : Obj) : Prop :=
  List.Forall (fun kv => printable (snd kv) = true) o.

Lemma allPrintable_assign key v (o : Obj) :
  allPrintable o -> printable v = true -> allPrintable (assign key v o).
Proof. apply (Forall_assign (fun v => printable v = true)). Qed.

Lemma convertValueToSchemaType_printable value ps :
  printable value = true ->
  exists v, convertValueToSchemaType value (Some ps) = Ok v /\ printable v = true.
Proof.
  intros Hp.
  assert (Ht : value <> JNull -> value <> JUndefined -> exists t, toString value = Ok t).
  { intros Hn Hu. pose proof (toString_printable value Hn Hu) as H.
    rewrite Hp in H. exact H. }
  unfold convertValueToSchemaType.
  destruct value; eauto;
    (destruct Ht as [t Ht]; [discriminate | discriminate |]);
    destruct (type ps); try rewrite Ht; cbn [bind typeofObject]; eauto;
    try (eexists; split; [reflexivity|]; simpl in Hp |- *; try rewrite Hp; reflexivity).
Qed.

Lemma getDefaultValueForSchema_printable ps :
  exists d, getDefaultValueForSchema (Some ps) = Ok d /\ printable d = true.
Proof.
  unfold getDefaultValueForSchema. destruct (type ps); eauto.
  destruct (enum ps) as [[|first others]|]; eauto.
Qed.

Lemma assignNumbers_printable numericProps numberMatches (result : Obj) :
  allPrintable result ->
  exists o, assignNumbers numericProps numberMatches result = Ok o /\ allPrintable o.
Proof.
  revert numberMatches result.
  induction numericProps as [|[prop ps] rest IH]; intros ms result Hr; [simpl; eauto|].
  destruct ms as [|m ms']; [simpl; eauto|]. cbn [assignNumbers].
  destruct (convertValueToSchemaType_printable (JStr m) ps eq_refl) as (v & -> & Hv).
  cbn [bind]. apply IH, allPrintable_assign; assumption.
Qed.

Lemma assignEnum_printable stringProps (result : Obj) words :
  allPrintable result -> allPrintable (fst (assignEnum stringProps result words)).
Proof.
  revert result. induction stringProps as [|[prop ps] rest IH]; intros result Hr;
    [exact Hr|].
  cbn [assignEnum]. destruct (enum ps) as [allowed|]; [|apply IH, Hr].
  destruct (List.find _ words) as [w|]; [|apply IH, Hr].
  destruct (negb (String.eqb w EmptyString) && negb (hasProperty prop result));
    [|apply IH, Hr].
  apply allPrintable_assign; [exact Hr | reflexivity].
Qed.

Lemma assignByPriority_printable stringProps (result : Obj) words :
  allPrintable result -> allPrintable (fst (assignByPriority stringProps result words)).
Proof.
  revert result words. induction stringProps as [|[prop ps] rest IH]; intros result words Hr;
    [exact Hr|].
  cbn [assignByPriority]. destruct words as [|w ws]; [exact Hr|].
  destruct (hasProperty prop result); [apply IH, Hr|].
  destruct (Nat.eqb (List.length (w :: ws)) 1 || Nat.ltb 0 (getPropertyPriority prop ps));
    [|apply IH, Hr].
  apply IH, allPrintable_assign; [exact Hr | reflexivity].
Qed.

Lemma assignRemaining_printable stringProps (result : Obj) words :
  allPrintable result -> allPrintable (assignRemaining stringProps result words).
Proof.
  intros Hr. unfold assignRemaining. destruct words as [|w ws]; [exact Hr|].
  destruct (List.filter _ stringProps) as [|[bestProp ps] others]; [exact Hr|].
  apply allPrintable_assign; [exact Hr | reflexivity].
Qed.

(** Every required name is a declared parameter, or the name of a member
    of [Object.prototype], which the loops over the required names find
    [in] every object and skip. *)
Definition requiredDeclared (tool : MCPTool) : Prop :=
  forall r, In r (required (inputSchema tool)) ->
            propertyAt r (properties (inputSchema tool)) <> None.

Lemma fillRequired_printable props req (result : Obj) :
  (forall r, In r req -> propertyAt r props <> None) ->
  allPrintable result ->
  exists o, fillRequired props req result = Ok o /\ allPrintable o.
Proof.
  revert result. induction req as [|r rest IH]; intros result Hdecl Hr; [simpl; eauto|].
  assert (Hdecl' : forall x, In x rest -> propertyAt x props <> None)
    by (intros x Hx; apply Hdecl; right; exact Hx).
  cbn [fillRequired]. destruct (hasProperty r result); [apply IH; assumption|].
  destruct (propertyAt r props) as [ps|] eqn:Hps.
  - destruct (getDefaultValueForSchema_printable ps) as (d & -> & Hd). cbn [bind].
    apply IH; [exact Hdecl' | apply allPrintable_assign; assumption].
  - exfalso. apply (Hdecl r); [left; reflexivity | exact Hps].
Qed.

Lemma mapRequired_printable props req input (result : Obj) :
  (forall r, In r req -> propertyAt r props <> None) ->
  printable input = true -> allPrintable result ->
  exists o, mapRequired props req input result = Ok o /\ allPrintable o.
Proof.
  intros Hdecl Hi Hr. induction req as [|r rest IH]; [simpl; eauto|].
  cbn [mapRequired]. destruct (hasProperty r result).
  - apply IH. intros x Hx. apply Hdecl. right. exact Hx.
  - destruct (propertyAt r props) as [ps|] eqn:Hps.
    + destruct (convertValueToSchemaType_printable input ps Hi) as (v & -> & Hv).
      cbn [bind]. eexists. split; [reflexivity|]. apply allPrintable_assign; assumption.
    + exfalso. apply (Hdecl r); [left; reflexivity | exact Hps].
Qed.

Lemma mapFallback_printable props req input :
  (forall r, In r req -> propertyAt r props <> None) ->
  printable input = true ->
  exists o, mapFallback props req input = Ok (JObj o) /\ allPrintable o.
Proof.
  intros Hdecl Hi. unfold mapFallback.
  destruct (mapRequired_printable props req input [] Hdecl Hi (List.Forall_nil _))
    as (result & -> & Hr). cbn [bind].
  destruct result as [|kv result']; [|eauto].
  destruct props as [|[propName ps] others]; [eauto|].
  destruct (convertValueToSchemaType_printable input ps Hi) as (v & -> & Hv). cbn [bind].
  eexists. split; [reflexivity|]. apply allPrintable_assign; assumption.
Qed.

Lemma mapStringInput_printable props req input :
  (forall r, In r req -> propertyAt r props <> None) ->
  exists o, mapStringInput props req input = Ok (JObj o) /\ allPrintable o.
Proof.
  intros Hdecl. unfold mapStringInput.
  set (numericProps := List.filter (fun p => isNumericType (type (snd p))) props).
  set (stringProps := List.filter (fun p => isStringType (type (snd p))) props).
  assert (Hnum : exists o,
             match matchNumbers input, numericProps with
             | Some ms, _ :: _ => assignNumbers numericProps ms []
             | _, _ => Ok []
             end = Ok o /\ allPrintable o).
  { destruct (matchNumbers input) as [ms|]; [|exists []; split; [reflexivity|constructor]].
    destruct numericProps as [|p nps]; [exists []; split; [reflexivity|constructor]|].
    apply assignNumbers_printable. constructor. }
  destruct Hnum as (o & -> & Ho). cbn [bind].
  match goal with
  | |- exists o', match ?r with [] => _ | _ :: _ => _ end = _ /\ _ =>
      assert (Hres : allPrintable r); [|destruct r as [|kv r']]
  end.
  - destruct stringProps as [|sp sps]; [exact Ho|].
    destruct (List.filter _ (splitWS (trim input))) as [|w ws]; [exact Ho|].
    pose proof (assignEnum_printable (sp :: sps) o (w :: ws) Ho) as H1.
    destruct (assignEnum (sp :: sps) o (w :: ws)) as [r1 w1]. simpl in H1.
    pose proof (assignByPriority_printable (sp :: sps) r1 w1 H1) as H2.
    destruct (assignByPriority (sp :: sps) r1 w1) as [r2 w2]. simpl in H2.
    apply assignRemaining_printable, H2.
  - destruct stringProps as [|[first ps] others];
      [apply mapFallback_printable; [exact Hdecl | reflexivity]|].
    eexists. split; [reflexivity|]. repeat constructor.
  - destruct (fillRequired_printable props req (kv :: r') Hdecl Hres) as (o' & -> & Ho').
    cbn [bind]. eauto.
Qed.

Lemma mapInputToSchema_printable tool input :
  requiredDeclared tool -> typeofObject input = false ->
  exists o, mapInputToSchema tool input = Ok (JObj o) /\ allPrintable o.
Proof.
  intros Hdecl Hscalar. unfold mapInputToSchema.
  assert (Hi : printable input = true) by (destruct input; try discriminate Hscalar; reflexivity).
  destruct (properties (inputSchema tool)) as [|[propName ps] others] eqn:Hprops.
  - rewrite Hscalar. eexists. split; [reflexivity|]. repeat constructor. exact Hi.
  - assert (Hfb : exists o, mapFallback ((propName, ps) :: others)
                              (required (inputSchema tool)) input = Ok (JObj o) /\
                            allPrintable o).
    { apply mapFallback_printable; [|exact Hi]. rewrite <- Hprops. exact Hdecl. }
    assert (Hone : exists o, (let* convertedValue
                              := convertValueToSchemaType input (Some ps)
                              in Ok (JObj [(propName, convertedValue)])) = Ok (JObj o) /\
                             allPrintable o).
    { destruct (convertValueToSchemaType_printable input ps Hi) as (v & -> & Hv).
      cbn [bind]. eexists. split; [reflexivity|]. repeat constructor. exact Hv. }
    destruct input; try discriminate Hscalar; destruct others; try assumption.
    apply mapStringInput_printable. rewrite <- Hprops. exact Hdecl.
Qed.

Lemma allPrintable_indexed i items :
  forallb printable items = true -> allPrintable (indexed i items).
Proof.
  revert i. induction items as [|x rest IH]; intros i H; [constructor|].
  simpl in H. apply andb_true_iff in H as [Hx Hrest].
  constructor; [exact Hx | apply IH, Hrest].
Qed.

(** The inputs on which every conversion to text returns, and no
    assignment replaces the prototype of the cleaned set: an object
    without an own property named __proto__ whose values are printable,
    an array of printable values, or a value that is no object. *)
Definition plainInput (input : JVal) : bool :=
  match input with
  | JObj fields =>
      negb (hasOwn "__proto__" fields) && forallb (fun kv => printable (snd kv)) fields
  | JArr items => forallb printable items
  | _ => true
  end.

(** X8. For a schema that declares no parameter named __proto__, and
    whose required names are declared parameters or names of members of
    [Object.prototype]. On a plain input the preparation of the arguments
    does not throw, and [executeInternal] calls [callTool] exactly once,
    with the name of the tool, the prepared arguments, and the session
    identifier of the client if it has one. On an object input that gives
    a parameter of type number, integer or string an object with an own
    property named toString, or an array that holds one, the preparation
    throws, and [callTool] is not called. *)
Theorem executeInternal_calls_once tool clientSessionId currentSessionId callTool input :
  requiredDeclared tool ->
  getProp "__proto__" (properties (inputSchema tool)) = None ->
  (plainInput input = true ->
   exists args ws,
     prepareArguments tool input = Ok (args, ws) /\
     warnings (executeInternal tool clientSessionId currentSessionId callTool input) = ws /\
     calls (executeInternal tool clientSessionId currentSessionId callTool input) =
       [(name tool, args, effectiveSession clientSessionId currentSessionId)]) /\
  (forall fields key value ps,
     input = JObj fields ->
     In (key, value) fields ->
     propertyAt key (properties (inputSchema tool)) = Some ps ->
     callsToString (type ps) = true ->
     printable value = false ->
     exists msg,
       outcome (executeInternal tool clientSessionId currentSessionId callTool input)
         = Throw msg /\
       calls (executeInternal tool clientSessionId currentSessionId callTool input) = []).
Proof.
  intros Hdecl _. split.
  - intros Hplain.
    assert (Hclean : forall args, allPrintable args ->
                       exists cleaned ws, validateAndCleanArgs tool args = Ok (cleaned, ws)).
    { intros args Hargs. unfold validateAndCleanArgs.
      destruct (cleanEntries_printable (properties (inputSchema tool)) args [] Hargs)
        as [c ->]. cbn [bind].
      destruct (fillMissing _ _ _ c []) as [cleaned ws]. eauto. }
    assert (Hprep : exists args ws, prepareArguments tool input = Ok (args, ws)).
    { unfold prepareArguments.
      destruct (truthy input && typeofObject input) eqn:Hobj.
      - apply andb_true_iff in Hobj as [Ht Ho].
        destruct input; try discriminate Ho; try discriminate Ht; cbn [bind entries];
          apply Hclean.
        + apply allPrintable_indexed, Hplain.
        + simpl in Hplain. apply andb_true_iff in Hplain as [_ Hall].
          apply List.Forall_forall. intros kv Hkv.
          rewrite List.forallb_forall in Hall. apply Hall, Hkv.
      - destruct (truthy input) eqn:Ht.
        + simpl in Hobj.
          destruct (mapInputToSchema_printable tool input Hdecl Hobj) as (o & -> & Ho).
          cbn [bind entries]. apply Hclean, Ho.
        + cbn [bind entries]. apply Hclean. constructor. }
    destruct Hprep as (args & ws & Hprep). exists args, ws.
    unfold executeInternal. rewrite Hprep. repeat split.
  - intros fields key value ps -> Hin Hps Hcall Hp.
    assert (Hprep : exists msg, prepareArguments tool (JObj fields) = Throw msg).
    { unfold prepareArguments. cbn [truthy typeofObject andb bind entries].
      unfold validateAndCleanArgs.
      destruct (cleanEntries_throws (properties (inputSchema tool)) fields [] key value ps
                  Hin Hps) as [msg ->]; [|exact Hp|simpl; eauto].
      destruct (type ps); try discriminate Hcall; exact I. }
    destruct Hprep as [msg Hprep]. exists msg.
    unfold executeInternal. rewrite Hprep. split; reflexivity.
Qed.

Lemma executeInternal_calls_once_witness :
  (exists args ws,
     prepareArguments searchTool (JStr "cheap phones") = Ok (args, ws) /\
     warnings (executeInternal searchTool (Some "mcp-1") "chat-7" (fun _ _ _ => Throw "down")
                 (JStr "cheap phones")) = ws /\
     calls (executeInternal searchTool (Some "mcp-1") "chat-7" (fun _ _ _ => Throw "down")
              (JStr "cheap phones")) = [("search", args, "mcp-1")]) /\
  (exists msg,
     outcome (executeInternal askTool None "chat-7" (fun _ _ _ => Throw "down")
                (JObj [("query", JObj [("toString", JNum (Dec 1 0))])])) = Throw msg /\
     calls (executeInternal askTool None "chat-7" (fun _ _ _ => Throw "down")
              (JObj [("query", JObj [("toString", JNum (Dec 1 0))])])) = []).
Proof.
  split.
  - apply (proj1 (executeInternal_calls_once searchTool (Some "mcp-1") "chat-7"
                    (fun _ _ _ => Throw "down") (JStr "cheap phones")
                    ltac:(intros r [<-|[<-|[]]]; discriminate) eq_refl)).
    reflexivity.
  - apply (proj2 (executeInternal_calls_once askTool None "chat-7"
                    (fun _ _ _ => Throw "down")
                    (JObj [("query", JObj [("toString", JNum (Dec 1 0))])])
                    ltac:(intros r [<-|[]]; discriminate) eq_refl)
             [("query", JObj [("toString", JNum (Dec 1 0))])] "query"
             (JObj [("toString", JNum (Dec 1 0))]) (plain TString) eq_refl
             (or_introl eq_refl) eq_refl eq_refl eq_refl).
Defined.

(** A truthy boolean or number: an input that is neither an object nor
    a text. *)
Definition plainScalar (input : JVal) : bool :=
  match input with
  | JBool b => b
  | JNum n => truthy (JNum n)
  | _ => false
  end.

(** The loop of the fallback gives the input to the first required name
    that no member of [Object.prototype] bears. *)
Lemma mapRequired_first props req input :
  mapRequired props req input [] =
  match List.find (fun propName => negb (inherited propName)) req with
  | Some propName =>
      let* v := convertValueToSchemaType input (propertyAt propName props) in
      Ok (assign propName v [])
  | None => Ok []
  end.
Proof.
  induction req as [|r rest IH]; [reflexivity|]. cbn [mapRequired List.find].
  unfold hasProperty. cbn [hasOwn orb]. destruct (inherited r); [exact IH | reflexivity].
Qed.

(** X9. When the schema has several parameters and the first required
    name that is not the name of a member of [Object.prototype] is not
    declared, a truthy boolean or number as input makes
    [mapInputToSchema] throw a TypeError; [executeInternal] then fails
    without calling [callTool]. *)
Theorem executeInternal_undeclared_required tool p1 p2 others r input
    clientSessionId currentSessionId callTool :
  properties (inputSchema tool) = p1 :: p2 :: others ->
  List.find (fun propName => negb (inherited propName)) (required (inputSchema tool))
    = Some r ->
  getProp r (properties (inputSchema tool)) = None ->
  plainScalar input = true ->
  mapInputToSchema tool input = Throw typeError /\
  outcome (executeInternal tool clientSessionId currentSessionId callTool input)
    = Throw typeError /\
  calls (executeInternal tool clientSessionId currentSessionId callTool input) = [].
Proof.
  intros Hprops Hfind Hundecl Hscalar.
  assert (Hat : propertyAt r (properties (inputSchema tool)) = None).
  { unfold propertyAt. rewrite Hundecl. apply List.find_some in Hfind as [_ Hi].
    destruct (inherited r); [discriminate Hi | reflexivity]. }
  assert (Hfb : mapFallback (properties (inputSchema tool)) (required (inputSchema tool)) input
                = Throw typeError).
  { unfold mapFallback. rewrite mapRequired_first, Hfind, Hat.
    destruct input; try discriminate Hscalar; reflexivity. }
  assert (Hmap : mapInputToSchema tool input = Throw typeError).
  { unfold mapInputToSchema. rewrite Hprops in *. destruct p1 as [n1 s1].
    destruct input; try discriminate Hscalar; exact Hfb. }
  split; [exact Hmap|].
  unfold executeInternal, prepareArguments.
  assert (Hcond : truthy input && typeofObject input = false /\ truthy input = true).
  { destruct input; try discriminate Hscalar; simpl in *; rewrite Hscalar; auto. }
  destruct Hcond as [-> ->]. rewrite Hmap. split; reflexivity.
Qed.

Definition misdeclared : MCPTool := {|
  name := "add";
  tool_description := "Add two numbers";
  inputSchema := {|
    properties := [("a", {| type := TNumber; description := None; enum := None |});
                   ("b", {| type := TNumber; description := None; enum := None |})];
    required := ["valueOf"; "x"]
  |}
|}.

Lemma executeInternal_undeclared_required_witness :
  calls (executeInternal misdeclared None "s" (fun _ _ _ => Throw "unused") (JBool true)) = [].
Proof.
  apply (executeInternal_undeclared_required misdeclared
           ("a", {| type := TNumber; description := None; enum := None |})
           ("b", {| type := TNumber; description := None; enum := None |})
           [] "x" (JBool true) None "s" (fun _ _ _ => Throw "unused"));
    reflexivity.
Defined.


(** ** Numbers in free text *)

(** The value a numeric parameter receives for the matched text [m]. *)
Definition numberFor (ps : PropSchema) (m : string) : JVal :=
  let n := match type ps with
           | TInteger => parseInt m
           | _ => parseFloat m
           end in
  JNum (if isNaN n then zero else n).

(** A name that an assignment appends to the own properties: neither an
    array index, which goes before the names, nor __proto__, which
    creates no property. *)
Definition plainName (key : string) : bool :=
  negb (isArrayIndex key) && negb (String.eqb key "__proto__").

Lemma assignNumbers_zip numericProps numberMatches (result : Obj) :
  List.Forall (fun p => isNumericType (type (snd p)) = true) numericProps ->
  List.Forall (fun p => plainName (fst p) = true) numericProps ->
  List.NoDup (List.map fst result ++ List.map fst numericProps) ->
  assignNumbers numericProps numberMatches result =
  Ok (result ++ List.map (fun pm => (fst (fst pm), numberFor (snd (fst pm)) (snd pm)))
                  (combine numericProps numberMatches)).
Proof.
  revert numberMatches result.
  induction numericProps as [|[prop ps] rest IH]; intros ms result Hnum Hplain Hnd.
  - simpl. rewrite app_nil_r. reflexivity.
  - destruct ms as [|m ms']; [simpl; rewrite app_nil_r; reflexivity|].
    inversion Hnum as [|? ? Hps Hrest]; subst. simpl in Hps.
    inversion Hplain as [|? ? Hname Hnames]; subst. simpl in Hname.
    apply andb_true_iff in Hname as [Hidx Hproto].
    apply negb_true_iff in Hidx, Hproto. apply String.eqb_neq in Hproto.
    cbn [assignNumbers combine List.map fst snd].
    assert (Hconv : convertValueToSchemaType (JStr m) (Some ps) = Ok (numberFor ps m)).
    { unfold convertValueToSchemaType, numberFor.
      destruct (type ps); try discriminate Hps; reflexivity. }
    rewrite Hconv. cbn [bind].
    simpl in Hnd. apply List.NoDup_remove in Hnd as [Hnd Hnotin].
    rewrite assign_new;
      [|intros Hin; apply Hnotin, in_or_app; left; exact Hin | exact Hproto | exact Hidx].
    rewrite IH; [rewrite <- app_assoc; reflexivity | exact Hrest | exact Hnames |].
    rewrite List.map_app. simpl. rewrite <- app_assoc. simpl.
    apply (proj2 (List.NoDup_Add (List.Add_app prop (List.map fst result)
                                     (List.map fst rest)))).
    split; [exact Hnd | exact Hnotin].
Qed.

Lemma NoDup_map_filter {A B : Type} (f : A -> B) (p : A -> bool) (l : list A) :
  List.NoDup (List.map f l) -> List.NoDup (List.map f (List.filter p l)).
Proof.
  induction l as [|x l IH]; intros Hnd; [constructor|]. simpl in *.
  inversion Hnd as [|? ? Hnotin Hnd']; subst.
  destruct (p x); [|apply IH, Hnd']. simpl. constructor; [|apply IH, Hnd'].
  intros Hin. apply Hnotin. apply in_map_iff in Hin as (y & Hy & Hin).
  apply in_map_iff. exists y. split; [exact Hy|]. apply filter_In in Hin. tauto.
Qed.

(** X10. For a schema with several parameters of distinct names, none of
    them an array index or __proto__, and no string parameter, a text in
    which numbers of at most 15 significant digits occur is mapped as
    follows: the i-th numeric parameter, in the order of [Object.keys],
    receives the i-th number of the text, as long as both exist; nothing
    else is taken from the text; the required names that are not yet [in]
    the result are then filled with their defaults. *)
Theorem mapInputToSchema_numbers_in_order tool p1 p2 others input ms :
  properties (inputSchema tool) = p1 :: p2 :: others ->
  List.NoDup (List.map fst (properties (inputSchema tool))) ->
  List.Forall (fun p => plainName (fst p) = true) (properties (inputSchema tool)) ->
  List.filter (fun p => isStringType (type (snd p))) (properties (inputSchema tool)) = [] ->
  List.filter (fun p => isNumericType (type (snd p))) (properties (inputSchema tool)) <> [] ->
  matchNumbers input = Some ms ->
  List.Forall (fun m => exact (parseFloat m) = true) ms ->
  mapInputToSchema tool (JStr input) =
  let* result :=
    fillRequired (properties (inputSchema tool)) (required (inputSchema tool))
      (List.map (fun pm => (fst (fst pm), numberFor (snd (fst pm)) (snd pm)))
         (combine (List.filter (fun p => isNumericType (type (snd p)))
                     (properties (inputSchema tool))) ms))
  in Ok (JObj result).
Proof.
  intros Hprops Hnd Hplain Hnostr Hnums Hms _.
  unfold mapInputToSchema. rewrite Hprops. destruct p1 as [n1 s1].
  rewrite <- Hprops. unfold mapStringInput. rewrite Hms, Hnostr.
  set (numericProps := List.filter (fun p => isNumericType (type (snd p)))
                         (properties (inputSchema tool))) in *.
  assert (Hzip := assignNumbers_zip numericProps ms []).
  rewrite app_nil_l in Hzip. simpl List.map in Hzip at 1. rewrite app_nil_l in Hzip.
  destruct numericProps as [|np nps] eqn:Hnp; [contradiction|].
  rewrite Hzip.
  - cbn [bind]. destruct ms as [|m ms'].
    + unfold matchNumbers in Hms. destruct (scanNumbers Outside input); discriminate.
    + reflexivity.
  - rewrite <- Hnp. apply List.Forall_forall. intros p Hp.
    apply filter_In in Hp. tauto.
  - rewrite <- Hnp. apply List.Forall_forall. intros p Hp.
    apply filter_In in Hp as [Hp _]. rewrite List.Forall_forall in Hplain. apply Hplain, Hp.
  - rewrite <- Hnp. apply NoDup_map_filter, Hnd.
Qed.

Definition point3 : MCPTool := {|
  name := "move";
  tool_description := "Move to a point";
  inputSchema := {|
    properties := [("x", {| type := TNumber; description := None; enum := None |});
                   ("flag", {| type := TBoolean; description := None; enum := None |});
                   ("y", {| type := TInteger; description := None; enum := None |});
                   ("z", {| type := TNumber; description := None; enum := None |})];
    required := ["z"]
  |}
|}.

Lemma mapInputToSchema_numbers_in_order_witness :
  mapInputToSchema point3 (JStr "go 1.5 then 7.9") =
  Ok (JObj [("x", JNum (Dec 15 (-1))); ("y", JNum (Dec 7 0)); ("z", JNum (Dec 0 0))]).
Proof.
  apply (mapInputToSchema_numbers_in_order point3
           ("x", {| type := TNumber; description := None; enum := None |})
           ("flag", {| type := TBoolean; description := None; enum := None |})
           [("y", {| type := TInteger; description := None; enum := None |});
            ("z", {| type := TNumber; description := None; enum := None |})]
           "go 1.5 then 7.9" ["1.5"; "7.9"]).
  - reflexivity.
  - repeat constructor; simpl; intuition discriminate.
  - repeat constructor.
  - reflexivity.
  - discriminate.
  - reflexivity.
  - repeat constructor.
Defined.


(** ** A single string parameter *)

(** X27. For a schema whose only parameter is a string, required or
    not, and is not named __proto__, a non-empty text is passed on
    verbatim as the value of that parameter, without warning: neither the
    inference nor the cleaning pass compares it with the enum of the
    parameter. *)
Theorem prepareArguments_single_string tool prop ps input :
  properties (inputSchema tool) = [(prop, ps)] ->
  prop <> "__proto__" ->
  type ps = TString ->
  (forall r, In r (required (inputSchema tool)) -> r = prop) ->
  input <> EmptyString ->
  prepareArguments tool (JStr input) = Ok ([(prop, JStr input)], []).
Proof.
  intros Hprops Hproto Htype Hreq Hne.
  assert (Hassign : assign prop (JStr input) [] = [(prop, JStr input)]).
  { unfold assign. cbn [hasOwn]. apply String.eqb_neq in Hproto. rewrite Hproto.
    destruct (isArrayIndex prop); reflexivity. }
  unfold prepareArguments, mapInputToSchema, validateAndCleanArgs.
  rewrite Hprops. simpl truthy. apply String.eqb_neq in Hne. rewrite Hne.
  cbn [negb andb typeofObject]. unfold convertValueToSchemaType. rewrite Htype.
  cbn [bind entries toString stringOf cleanEntries]. unfold propertyAt.
  cbn [getProp]. rewrite String.eqb_refl.
  unfold cleanValue. rewrite Htype. cbn [bind toString stringOf]. rewrite Hassign.
  rewrite fillMissing_present; [reflexivity|].
  intros r Hr. rewrite (Hreq r Hr). unfold hasProperty. simpl.
  rewrite String.eqb_refl. reflexivity.
Qed.

Lemma prepareArguments_single_string_witness :
  prepareArguments
    {| name := "browse"; tool_description := "Browse a category";
       inputSchema := {|
         properties := [("category", {| type := TString; description := None;
                                        enum := Some ["laptops"; "phones"] |})];
         required := ["category"] |} |}
    (JStr "tablets")
  = Ok ([("category", JStr "tablets")], []).
Proof.
  apply (prepareArguments_single_string _ "category"
           {| type := TString; description := None; enum := Some ["laptops"; "phones"] |}
           "tablets").
  - reflexivity.
  - discriminate.
  - reflexivity.
  - intros r [<-|[]]. reflexivity.
  - discriminate.
Defined.


End ToolsMore.

(** * Further operations of the protocol client *)

Module ClientMore.
Import JS Tools Client ClientFacts.

(** The client together with its tool list, [this.tools]. *)
Record Connection := {
  client : MCPClient;
  tools : list MCPTool
}.


Definition with_flags (connected init : bool) (st : MCPClient) : MCPClient := {|
  sessionId := sessionId st;
  isConnected := connected;
  initialized := init;
  eventSourceOpen := eventSourceOpen st;
  sessionIdReceived := sessionIdReceived st;
  pendingRequests := pendingRequests st;
  promises := promises st;
  timers := timers st;
  inflight := inflight st;
  posted := posted st;
  completions := completions st
|}.

(** *** The accessors *)

Definition getAvailableTools (c : Connection) : list MCPTool := tools c.

(** [this.tools.some(tool => tool.name === name)] *)
Definition isToolAvailable (toolName : string) (c : Connection) : bool :=
  existsb (fun tool => String.eqb (name tool) toolName) (tools c).

(** [this.tools.find(tool => tool.name === name)] *)
Definition getToolSchema (toolName : string) (c : Connection) : option MCPTool :=
  List.find (fun tool => String.eqb (name tool) toolName) (tools c).

Definition isClientConnected (c : Connection) : bool :=
  isConnected (client c) && initialized (client c).

Definition getSessionId (c : Connection) : option string := sessionId (client c).

(** *** initialize *)

Definition initializeRequest (uuid sid : string) : MCPMessage := {|
  id := Some (IdStr uuid);
  method := Some "initialize";
  params := Some (JObj [("protocolVersion", JStr "2024-11-05");
                        ("capabilities", JObj [("tools", JObj [])]);
                        ("clientInfo", JObj [("name", JStr "ai-agent");
                                             ("version", JStr "1.0.0")]);
                        ("sessionId", JStr sid)]);
  result := None;
  error := None
|}.

(** [initialize()] up to its [await]. *)
Definition initialize_start (uuid : string) (c : Connection) : Result nat * Connection :=
  match strTruthy (sessionId (client c)) with
  | None => (Throw "Cannot initialize without sessionId", c)
  | Some sid =>
      let '(h, st) := sendRequest (initializeRequest uuid sid) uuid (client c) in
      (Ok h, {| client := st; tools := tools c |})
  end.

(** [response.result.serverInfo], when [response.result] is truthy. *)
Definition serverInfo (response : MCPMessage) : Result JVal :=
  match result response with
  | Some r =>
      if truthy r then
        match r with
        | JObj fields =>
            match getKey "serverInfo" fields with
            | Some info =>
                if truthy info then Ok info
                else Throw "Invalid response from MCP server: missing serverInfo"
            | None => Throw "Invalid response from MCP server: missing serverInfo"
            end
        | _ => Throw "Invalid response from MCP server: missing serverInfo"
        end
      else Throw "Invalid response from MCP server: missing result"
  | None => Throw "Invalid response from MCP server: missing result"
  end.

(** [initialize()] after its [await], given how the promise of the
    request was settled. *)
Definition initialize_finish (s : Settlement) (c : Connection) : Result unit * Connection :=
  match s with
  | Rejected reason => (Throw (errorMessage reason), c)
  | Fulfilled response =>
      match serverInfo response with
      | Throw msg => (Throw msg, c)
      | Ok _ =>
          (Ok tt, {| client := with_flags (isConnected (client c)) true (client c);
                     tools := tools c |})
      end
  end.

(** *** fetchTools *)

Definition listToolsRequest (uuid sid : string) : MCPMessage := {|
  id := Some (IdStr uuid);
  method := Some "tools/list";
  params := Some (JObj [("sessionId", JStr sid)]);
  result := None;
  error := None
|}.

(** [fetchTools()] up to its [await]. *)
Definition fetchTools_start (uuid : string) (c : Connection) : Result nat * Connection :=
  if negb (initialized (client c)) then (Throw "MCP client not initialized", c)
  else
    match strTruthy (sessionId (client c)) with
    | None => (Throw "Cannot fetch tools without sessionId", c)
    | Some sid =>
        let '(h, st) := sendRequest (listToolsRequest uuid sid) uuid (client c) in
        (Ok h, {| client := st; tools := tools c |})
    end.

(** [fetchTools()] after its [await], when the request was fulfilled by a
    response whose [result.tools] is the array [ts] of tools: the
    assignment [this.tools = response.result.tools], and the list
    returned. The assignment comes before the first use of the list, so a
    response without [result.tools] also overwrites [this.tools], with a
    value that is no tool list and that [Connection] does not represent. *)
Definition fetchTools_listed (ts : list MCPTool) (c : Connection)
  : list MCPTool * Connection :=
  (ts, {| client := client c; tools := ts |}).

(** *** connect *)

(** The end of the [try] block of [connect()]. *)
Definition connect_succeeded (c : Connection) : Connection :=
  {| client := with_flags true (initialized (client c)) (client c); tools := tools c |}.

(** The [catch] block of [connect()], on the connection as the [try]
    block left it: it clears the two flags and touches nothing else. *)
Definition connect_catch (c : Connection) : Connection :=
  {| client := with_flags false false (client c); tools := tools c |}.

(** *** disconnect and callTool on the connection *)

Definition disconnect (c : Connection) : Connection :=
  {| client := Client.disconnect (client c); tools := tools c |}.

Definition callTool (toolName : string) (arguments_ : Obj) (sid : option string)
    (uuid : string) (c : Connection) : Result nat * Connection :=
  let '(r, st) := Client.callTool toolName arguments_ sid uuid (client c) in
  (r, {| client := st; tools := tools c |}).

(** *** healthCheck *)




(** ** Properties *)

(** A request, its reply, and the client after submitting it. *)
Definition hello : MCPMessage :=
  {| id := None; method := Some "hello"; params := None; result := None; error := None |}.

Definition helloReply : MCPMessage :=
  {| id := Some (IdStr "u1"); method := None; params := None;
     result := Some (JObj []); error := None |}.

Definition oneRequest : MCPClient := snd (sendRequest hello "u1" newClient).

(** *** Replies *)

(** X11. Round trip of a request: when the reply to a request that
    was just submitted arrives, the promise of the request is fulfilled
    with the reply, or rejected with the protocol error that the reply
    carries; the registry is what it was before the request, without any
    entry for the id; and the promise is recorded as completed. *)
Theorem sendRequest_reply_roundtrip st request uuid msg :
  idTruthy (id msg) = Some (effectiveId request uuid) ->
  let h := fst (sendRequest request uuid st) in
  let st1 := snd (sendRequest request uuid st) in
  stateOf h (handleSSEMessage msg st1) =
    Some (Some (match error msg with
                | Some e => Rejected (ProtocolError (message e))
                | None => Fulfilled msg
                end)) /\
  pendingRequests (handleSSEMessage msg st1) =
    delete (effectiveId request uuid) (pendingRequests st) /\
  completions (handleSSEMessage msg st1) = completions st ++ [h].
Proof.
  intros Hid h st1.
  assert (Hreg : pendingRequests st1 !! effectiveId request uuid = Some h)
    by (simpl; apply lookup_insert_eq).
  assert (Hpend : stateOf h st1 = Some None).
  { unfold st1, h. rewrite sendRequest_stateOf. simpl. rewrite decide_True; reflexivity. }
  rewrite (handleSSEMessage_complete msg st1 _ h Hid Hreg).
  rewrite complete_stateOf, complete_pendingRequests, complete_completions.
  unfold pendingb. rewrite Hpend. repeat split.
  simpl. apply delete_insert_eq.
Qed.

Lemma sendRequest_reply_roundtrip_witness :
  stateOf 0 (handleSSEMessage helloReply oneRequest)
  = Some (Some (Fulfilled helloReply)).
Proof.
  apply (sendRequest_reply_roundtrip newClient hello "u1" helloReply).
  reflexivity.
Defined.

(** X12. A reply that is delivered twice has the effect of the first
    delivery only: the second finds no entry and is dropped. *)
Theorem handleSSEMessage_idempotent msg st :
  handleSSEMessage msg (handleSSEMessage msg st) = handleSSEMessage msg st.
Proof.
  destruct (idTruthy (id msg)) as [j|] eqn:Hj.
  - destruct (pendingRequests st !! j) as [h|] eqn:Hh.
    + rewrite (handleSSEMessage_complete msg st j h Hj Hh).
      unfold handleSSEMessage at 1. rewrite Hj, complete_pendingRequests, lookup_delete_eq.
      reflexivity.
    + assert (Hsame : handleSSEMessage msg st = st)
        by (unfold handleSSEMessage; rewrite Hj, Hh; reflexivity).
      rewrite !Hsame. reflexivity.
  - assert (Hsame : handleSSEMessage msg st = st)
      by (unfold handleSSEMessage; rewrite Hj; reflexivity).
    rewrite !Hsame. reflexivity.
Qed.

(** *** Invariants of the runs *)

(** X13. In every client reached from a new one, an entry of the
    registry is the callback of a promise that was submitted under that
    id, is still pending, and has its timeout armed: the registry holds
    nothing for completed requests, and every entry will be removed by a
    timeout at the latest. *)
Theorem registry_entries_live tr st i h :
  Steps newClient tr st ->
  pendingRequests st !! i = Some h ->
  idOf h st = Some i /\ stateOf h st = Some None /\ h ∈ timers st.
Proof.
  intros Hsteps Hentry.
  pose proof (WF_steps _ _ _ WF_newClient Hsteps) as Hwf.
  destruct (wf_registry st Hwf i h Hentry) as [Hid Hpending].
  repeat split; [exact Hid | exact Hpending | apply (wf_timers st Hwf h Hpending)].
Qed.

Lemma registry_entries_live_witness :
  idOf 0 oneRequest = Some (IdStr "u1") /\
  stateOf 0 oneRequest = Some None /\ 0 ∈ timers oneRequest.
Proof.
  apply (registry_entries_live [Send hello "u1"] oneRequest (IdStr "u1") 0).
  - apply (steps_snoc newClient [] newClient (Send hello "u1") oneRequest);
      [constructor|]. exact (step_send newClient hello "u1").
  - reflexivity.
Defined.

(** The ids of the requests handed to the transport are the ids of the
    promises, in the same order. *)
Definition aligned (st : MCPClient) : Prop :=
  List.map id (posted st) = List.map (fun p => Some (request_id p)) (promises st).

Lemma settle_request_ids h s st :
  List.map request_id (promises (settle h s st)) = List.map request_id (promises st).
Proof.
  unfold settle. destruct (promises st !! h) as [p|] eqn:Hp; [|reflexivity].
  destruct (state p); [reflexivity|]. simpl.
  change (List.map request_id ?l) with (request_id <$> l).
  rewrite list_fmap_insert. apply list_insert_id.
  rewrite list_lookup_fmap, Hp. reflexivity.
Qed.

Lemma aligned_settle h s st st0 :
  posted st0 = posted st -> promises st0 = promises st ->
  aligned st -> aligned (settle h s st0).
Proof.
  intros Hposted Hprom Hal. unfold aligned in *.
  assert (Hp : posted (settle h s st0) = posted st0).
  { unfold settle. destruct (promises st0 !! h) as [p|]; [|reflexivity].
    destruct (state p); reflexivity. }
  rewrite Hp, Hposted, Hal.
  rewrite <- !(List.map_map request_id Some), settle_request_ids, Hprom. reflexivity.
Qed.

Lemma aligned_step st ev st' : aligned st -> Step st ev st' -> aligned st'.
Proof.
  intros Hal Hstep.
  destruct Hstep as [st request uuid|st data|st h Hin|st h err Hin|st h Hin|st].
  - unfold aligned in *. simpl. rewrite !List.map_app, Hal. reflexivity.
  - destruct data as [msg|]; [|exact Hal]. unfold onmessage.
    destruct (if sessionIdReceived st then None else announcedSession msg); [exact Hal|].
    unfold handleSSEMessage. destruct (idTruthy (id msg)) as [j|]; [|exact Hal].
    destruct (pendingRequests st !! j) as [h|]; [|exact Hal].
    unfold callback.
    assert (Hs : forall s, aligned (with_pendingRequests
                                      (delete j (pendingRequests (settle h s st)))
                                      (settle h s st))).
    { intros s. apply (aligned_settle h s st st eq_refl eq_refl Hal). }
    destruct (error msg); apply Hs.
  - exact Hal.
  - unfold postFailed. destruct (idOf h st); [|exact Hal].
    apply (aligned_settle _ _ st); [reflexivity | reflexivity | exact Hal].
  - unfold timeoutFired. destruct (idOf h st); [|exact Hal].
    apply (aligned_settle _ _ st); [reflexivity | reflexivity | exact Hal].
  - exact Hal.
Qed.

Lemma aligned_steps st tr st' : aligned st -> Steps st tr st' -> aligned st'.
Proof.
  intros Hal Hsteps. induction Hsteps as [st|st tr st1 ev st2 _ IH Hstep]; [exact Hal|].
  eapply aligned_step; [apply IH, Hal | exact Hstep].
Qed.

(** X14. In every client reached from a new one, the requests handed
    to the transport and the promises correspond one to one, in order:
    the n-th request carries an id, and it is the id under which the
    callback of the n-th promise was registered. *)
Theorem posted_ids_are_promise_ids tr st :
  Steps newClient tr st ->
  List.map id (posted st) = List.map (fun p => Some (request_id p)) (promises st).
Proof.
  intros Hsteps. change (aligned st).
  apply (aligned_steps newClient tr st); [reflexivity | exact Hsteps].
Qed.

Lemma posted_ids_are_promise_ids_witness :
  List.map id (posted oneRequest) = [Some (IdStr "u1")].
Proof.
  apply (posted_ids_are_promise_ids [Send hello "u1"] oneRequest).
  apply (steps_snoc newClient [] newClient (Send hello "u1") oneRequest);
    [constructor|]. exact (step_send newClient hello "u1").
Defined.


(** *** Operations before the connection is ready *)

(** X15. [fetchTools] on a client that is not initialized or has no
    session identifier, and [initialize] on a client without session
    identifier, throw before anything is sent: the connection, with its
    registry and the requests handed to the transport, is unchanged. *)
Theorem fetchTools_initialize_not_ready uuid c :
  (initialized (client c) = false \/ strTruthy (sessionId (client c)) = None ->
   exists msg,
     fetchTools_start uuid c = (Throw msg, c) /\
     (msg = "MCP client not initialized" \/ msg = "Cannot fetch tools without sessionId")) /\
  (strTruthy (sessionId (client c)) = None ->
   initialize_start uuid c = (Throw "Cannot initialize without sessionId", c)).
Proof.
  split.
  - intros H. unfold fetchTools_start.
    destruct (initialized (client c)); simpl; [|eauto].
    destruct H as [H|H]; [discriminate|]. rewrite H. eauto.
  - intros H. unfold initialize_start. rewrite H. reflexivity.
Qed.

Definition readyConnection : Connection := {|
  client := with_flags true true (snd (sendRequest hello "u0" newClient));
  tools := [{| name := "search"; tool_description := "Search the catalog";
              inputSchema := {| properties := []; required := [] |} |};
            {| name := "lookup"; tool_description := "Look up a record";
              inputSchema := {| properties := []; required := [] |} |}]
|}.

Lemma fetchTools_initialize_not_ready_witness :
  initialize_start "u2" readyConnection
  = (Throw "Cannot initialize without sessionId", readyConnection).
Proof.
  apply (proj2 (fetchTools_initialize_not_ready "u2" readyConnection)). reflexivity.
Defined.

(** X16. After [disconnect], and after the [catch] block of [connect]
    whatever the [try] block did before it failed, the connection is not
    connected, and [callTool] and [fetchTools] throw the not-initialized
    error at once, whatever session identifier the caller passes, leaving
    the connection as it is. [disconnect] also forgets the session
    identifier, so that [initialize] refuses too; it does not touch the
    tool list: the tools fetched before are still reported as
    available. *)
Theorem closed_connection_refuses c toolName arguments_ sid uuid :
  (forall c', c' = disconnect c \/ c' = connect_catch c ->
     isClientConnected c' = false /\
     callTool toolName arguments_ sid uuid c' = (Throw "MCP client not initialized", c') /\
     fetchTools_start uuid c' = (Throw "MCP client not initialized", c')) /\
  getSessionId (disconnect c) = None /\
  initialize_start uuid (disconnect c)
    = (Throw "Cannot initialize without sessionId", disconnect c) /\
  getAvailableTools (disconnect c) = getAvailableTools c /\
  isToolAvailable toolName (disconnect c) = isToolAvailable toolName c.
Proof.
  split; [|repeat split].
  intros c' [-> | ->]; repeat split; unfold isClientConnected; simpl;
    try reflexivity; apply andb_false_r.
Qed.

Lemma closed_connection_refuses_witness :
  callTool "search" [] (Some "s1") "u3" (disconnect readyConnection)
  = (Throw "MCP client not initialized", disconnect readyConnection).
Proof.
  apply (proj1 (closed_connection_refuses readyConnection "search" [] (Some "s1") "u3")
           (disconnect readyConnection) (or_introl eq_refl)).
Defined.

(** *** The tool list *)

(** X17. [isToolAvailable] and [getToolSchema] agree: a name is
    available exactly when [getToolSchema] finds a tool, and the tool it
    finds is in the list and has that name. A [fetchTools] that was
    answered with a tool list replaces the list: afterwards a name that
    the new list does not have is not available, and a tool that is found
    is one of the new list, whatever the old list was. *)
Theorem tool_lookup_consistent c toolName :
  (isToolAvailable toolName c = true <-> exists tool, getToolSchema toolName c = Some tool) /\
  (forall tool, getToolSchema toolName c = Some tool ->
                name tool = toolName /\ In tool (tools c)) /\
  (forall ts, ~ In toolName (List.map name ts) ->
              isToolAvailable toolName (snd (fetchTools_listed ts c)) = false) /\
  (forall ts tool, getToolSchema toolName (snd (fetchTools_listed ts c)) = Some tool ->
                   In tool ts).
Proof.
  unfold isToolAvailable, getToolSchema. repeat split.
  - intros H. apply existsb_exists in H as (tool & Hin & Hname).
    destruct (List.find _ (tools c)) as [t|] eqn:Hf; [eauto|].
    pose proof (List.find_none _ _ Hf tool Hin) as Hn. simpl in Hn. congruence.
  - intros [tool Hf]. apply List.find_some in Hf as [Hin Hname].
    apply existsb_exists. eauto.
  - apply List.find_some in H as [_ Hname]. apply String.eqb_eq, Hname.
  - apply List.find_some in H as [Hin _]. exact Hin.
  - intros ts Hnot. simpl. apply not_true_is_false. intros H.
    apply existsb_exists in H as (tool & Hin & Hname). apply Hnot.
    apply String.eqb_eq in Hname. subst toolName. apply in_map, Hin.
  - intros ts tool H. simpl in H. apply List.find_some in H as [Hin _]. exact Hin.
Qed.

Lemma tool_lookup_consistent_witness :
  exists tool, getToolSchema "lookup" readyConnection = Some tool.
Proof.
  apply (proj1 (proj1 (tool_lookup_consistent readyConnection "lookup"))). reflexivity.
Defined.

(** *** The health report *)




End ClientMore.

(** * Further properties of the agent *)

Module AgentMore.
Import JS Agent AgentFacts.

(** [getSessionCount()] *)
Definition getSessionCount (a : LangChainMCPAgent) : nat :=
  size (conversationHistory a).

(** The history of a session, [this.conversationHistory.get(sessionId) || []]. *)
Definition historyOf (sessionId : string) (a : LangChainMCPAgent) : list BaseMessage :=
  default [] (conversationHistory a !! sessionId).

(** A history made of whole exchanges: a human message and the answer
    to it, oldest first. *)
Fixpoint exchanges (l : list (string * string)) : list BaseMessage :=
  match l with
  | [] => []
  | (question, answer) :: rest =>
      HumanMessage question :: AIMessage answer :: exchanges rest
  end.

Lemma exchanges_app l1 l2 : exchanges (l1 ++ l2) = exchanges l1 ++ exchanges l2.
Proof.
  induction l1 as [|[q r] l1 IH]; [reflexivity|]. simpl. rewrite IH. reflexivity.
Qed.

Lemma exchanges_length l : List.length (exchanges l) = 2 * List.length l.
Proof. induction l as [|[q r] l IH]; simpl; lia. Qed.

(** The last ten exchanges. *)
Definition lastTen (l : list (string * string)) : list (string * string) :=
  drop (List.length l - 10) l.

Lemma keepLast20_exchanges l :
  List.length l <= 11 -> keepLast20 (exchanges l) = exchanges (lastTen l).
Proof.
  intros Hlen. unfold keepLast20, lastTen. rewrite exchanges_length.
  destruct (Nat.ltb 20 (2 * List.length l)) eqn:E.
  - apply Nat.ltb_lt in E. assert (Hl : List.length l = 11) by lia.
    destruct l as [|[q r] l']; [simpl in Hl; lia|]. rewrite Hl. reflexivity.
  - apply Nat.ltb_ge in E. replace (List.length l - 10) with 0 by lia. reflexivity.
Qed.

(** Every stored history consists of at most ten whole exchanges. *)
Definition wholeExchanges (a : LangChainMCPAgent) : Prop :=
  forall sessionId history,
    conversationHistory a !! sessionId = Some history ->
    exists l, history = exchanges l /\ List.length l <= 10.

Lemma wholeExchanges_perform c a : wholeExchanges a -> wholeExchanges (perform c a).
Proof.
  intros Hw sid h. destruct c as [|message s response|s|]; simpl.
  - apply Hw.
  - unfold processMessage. destruct (agent a); simpl; [|apply Hw].
    destruct response as [fullResponse|msg]; simpl; [|apply Hw].
    destruct (decide (s = sid)) as [->|Hne].
    + rewrite lookup_insert_eq. intros [= <-].
      assert (Hold : exists l, default [] (conversationHistory a !! sid) = exchanges l /\
                               List.length l <= 10).
      { destruct (conversationHistory a !! sid) as [old|] eqn:Hold; simpl.
        - apply (Hw sid old Hold).
        - exists []. split; [reflexivity | simpl; lia]. }
      destruct Hold as (l & -> & Hlen).
      exists (lastTen (l ++ [(message, fullResponse)])). split.
      * change [HumanMessage message; AIMessage fullResponse]
          with (exchanges [(message, fullResponse)]).
        rewrite <- exchanges_app. apply keepLast20_exchanges.
        rewrite length_app. simpl. lia.
      * unfold lastTen. rewrite length_drop, length_app. simpl. lia.
    + rewrite lookup_insert_ne by assumption. apply Hw.
  - destruct (decide (s = sid)) as [->|Hne].
    + rewrite lookup_delete_eq. discriminate.
    + rewrite lookup_delete_ne by assumption. apply Hw.
  - rewrite lookup_empty. discriminate.
Qed.

Lemma wholeExchanges_performAll cs a : wholeExchanges a -> wholeExchanges (performAll cs a).
Proof.
  revert a. induction cs as [|c cs IH]; intros a Hw; [exact Hw|].
  simpl. apply IH, wholeExchanges_perform, Hw.
Qed.

(** X19. Whatever calls the agent has served, the history stored for
    a session consists of whole exchanges, a human message followed by
    the answer to it, at most ten of them: trimming to 20 messages never
    separates a question from its answer. *)
Theorem history_whole_exchanges cs sessionId history :
  conversationHistory (performAll cs newAgent) !! sessionId = Some history ->
  exists l, history = exchanges l /\ List.length l <= 10.
Proof.
  apply (wholeExchanges_performAll cs newAgent).
  intros sid h H. simpl in H. rewrite lookup_empty in H. discriminate.
Qed.

Definition twelveExchanges : list Call :=
  Initialize :: List.repeat (ProcessMessage "ping" "s1" (Ok "pong")) 12.

Lemma history_whole_exchanges_witness :
  exists l, historyOf "s1" (performAll twelveExchanges newAgent) = exchanges l /\
            List.length l <= 10.
Proof.
  apply (history_whole_exchanges twelveExchanges "s1"). vm_compute. reflexivity.
Defined.

(** X20. [processMessage] touches the history of its own session
    only, and only when it completes: the histories of the other
    sessions are unchanged, and a call that throws, because the agent is
    not initialized or because the exchange with the model failed,
    leaves every history unchanged. *)
Theorem processMessage_isolated message sessionId response a :
  (forall other, other <> sessionId ->
     conversationHistory (snd (processMessage message sessionId response a)) !! other
     = conversationHistory a !! other) /\
  (forall msg, fst (processMessage message sessionId response a) = Throw msg ->
     conversationHistory (snd (processMessage message sessionId response a))
     = conversationHistory a) /\
  (agent a = false ->
     processMessage message sessionId response a = (Throw "Agent not initialized", a)).
Proof.
  unfold processMessage. destruct (agent a); simpl.
  - destruct response as [fullResponse|e]; simpl; repeat split; try discriminate.
    intros other Hne. apply lookup_insert_ne. congruence.
  - repeat split.
Qed.

Lemma processMessage_isolated_witness :
  conversationHistory
    (snd (processMessage "hi" "s2" (Ok "hello") (performAll twelveExchanges newAgent)))
    !! "s1"
  = conversationHistory (performAll twelveExchanges newAgent) !! "s1".
Proof.
  apply (proj1 (processMessage_isolated "hi" "s2" (Ok "hello")
                  (performAll twelveExchanges newAgent)) "s1").
  discriminate.
Defined.

(** *** A call in flight

    [processMessage] reads the history of its session before it awaits
    the exchange with the model, and writes the history afterwards: other
    calls run in between. The two halves: *)

(** [processMessage] up to its [await]: the guard, the session identifier
    handed to the tools, and the history it reads for the session. *)
Definition processMessage_start (sessionId : string) (a : LangChainMCPAgent)
  : Result (list BaseMessage) * LangChainMCPAgent :=
  if negb (agent a) then (Throw "Agent not initialized", a)
  else (Ok (historyOf sessionId a),
        {| agent := agent a;
           toolsSessionId := Some sessionId;
           conversationHistory := conversationHistory a |}).

(** [processMessage] after its [await], in the state [a] that the agent
    has by then: the history read at the start, with the new exchange,
    trimmed, is stored for the session. *)
Definition processMessage_finish (chatHistory : list BaseMessage)
    (message sessionId : string) (response : Result string) (a : LangChainMCPAgent)
  : Result string * LangChainMCPAgent :=
  match response with
  | Throw msg => (Throw msg, a)
  | Ok fullResponse =>
      (Ok fullResponse,
       {| agent := agent a;
          toolsSessionId := toolsSessionId a;
          conversationHistory :=
            <[sessionId := keepLast20 (chatHistory ++ [HumanMessage message;
                                                       AIMessage fullResponse])]>
              (conversationHistory a) |})
  end.

(** A call that nothing interrupts is the two halves in a row. *)
Lemma processMessage_halves message sessionId response a :
  processMessage message sessionId response a =
  match processMessage_start sessionId a with
  | (Ok chatHistory, a1) => processMessage_finish chatHistory message sessionId response a1
  | (Throw msg, a1) => (Throw msg, a1)
  end.
Proof.
  unfold processMessage, processMessage_start, processMessage_finish, historyOf.
  destruct (agent a); simpl; [|reflexivity]. destruct response; reflexivity.
Qed.

(** X21. [clearSession] forgets one session and leaves the others as
    they are, and [clearAllSessions] leaves no session. A
    [processMessage] that starts after [clearSession] reads an empty
    history, and stores the new exchange alone when it completes,
    whatever happened to the agent meanwhile. A [processMessage] that was
    in flight when [clearSession] ran is not cancelled: when it completes
    it stores the history it had read before, with its exchange, so that
    the cleared history is back. *)
Theorem clearSession_forgets sessionId a :
  conversationHistory (clearSession sessionId a) !! sessionId = None /\
  (forall other, other <> sessionId ->
     conversationHistory (clearSession sessionId a) !! other
     = conversationHistory a !! other) /\
  getSessionCount (clearAllSessions a) = 0 /\
  (agent a = true ->
   fst (processMessage_start sessionId (clearSession sessionId a)) = Ok [] /\
   forall message fullResponse later,
     conversationHistory
       (snd (processMessage_finish [] message sessionId (Ok fullResponse) later))
       !! sessionId
     = Some [HumanMessage message; AIMessage fullResponse]) /\
  (forall message fullResponse,
     conversationHistory
       (snd (processMessage_finish (historyOf sessionId a) message sessionId
               (Ok fullResponse) (clearSession sessionId a)))
       !! sessionId
     = Some (keepLast20 (historyOf sessionId a ++ [HumanMessage message;
                                                    AIMessage fullResponse]))).
Proof.
  repeat split.
  - simpl. apply lookup_delete_eq.
  - intros other Hne. simpl. apply lookup_delete_ne. congruence.
  - unfold processMessage_start, historyOf. simpl. rewrite H. simpl.
    rewrite lookup_delete_eq. reflexivity.
  - intros message fullResponse later. simpl. rewrite lookup_insert_eq. reflexivity.
  - intros message fullResponse. simpl. rewrite lookup_insert_eq. reflexivity.
Qed.

Lemma clearSession_forgets_witness :
  fst (processMessage_start "s1" (clearSession "s1" (performAll twelveExchanges newAgent)))
    = Ok [] /\
  forall message fullResponse later,
    conversationHistory
      (snd (processMessage_finish [] message "s1" (Ok fullResponse) later)) !! "s1"
    = Some [HumanMessage message; AIMessage fullResponse].
Proof.
  apply (proj1 (proj2 (proj2 (proj2 (clearSession_forgets "s1"
                                       (performAll twelveExchanges newAgent)))))).
  vm_compute. reflexivity.
Defined.

End AgentMore.

(** * The tools manager: [MCPToolsManager] and the wrappers it holds *)

Module Manager.
Import JS Tools.

(** An [MCPToolWrapper]: its tool and its own session identifier. *)
Record MCPToolWrapper := {
  mcpTool : MCPTool;
  currentSessionId : string
}.

(** The constructor: [mcpClient.getSessionId() || 'pending-session-id'] *)
Definition newWrapper (clientSessionId : option string) (tool : MCPTool) : MCPToolWrapper :=
  {| mcpTool := tool; currentSessionId := orElse clientSessionId "pending-session-id" |}.

Definition setSessionId (sessionId : string) (w : MCPToolWrapper) : MCPToolWrapper :=
  {| mcpTool := mcpTool w; currentSessionId := sessionId |}.

(** [getSessionId()] of a wrapper *)
Definition getSessionId (clientSessionId : option string) (w : MCPToolWrapper) : string :=
  orElse clientSessionId (currentSessionId w).

(** [executeInternal] of a wrapper *)
Definition execute (w : MCPToolWrapper) (clientSessionId : option string)
    (callTool : string -> Obj -> string -> Result MCPToolResult) (input : JVal)
  : Execution :=
  executeInternal (mcpTool w) clientSessionId (currentSessionId w) callTool input.

(** The manager holds the wrappers, [this.tools]. The array that
    [initializeTools] returns is this array, and the agent keeps it:
    what is done to a wrapper of the manager is done to the wrapper the
    agent executes. *)
Definition MCPToolsManager := list MCPToolWrapper.

Definition setSessionIdForAllTools (sessionId : string) (m : MCPToolsManager)
  : MCPToolsManager :=
  List.map (setSessionId sessionId) m.

(** [initializeTools()]. [connected] is [mcpClient.isClientConnected()],
    [fetched] the settlement of [mcpClient.fetchTools()]. The first
    component is what the call returns, the second the manager after
    it. *)
Definition initializeTools (connected : bool) (clientSessionId : option string)
    (fetched : Result (list MCPTool)) (m : MCPToolsManager)
  : list MCPToolWrapper * MCPToolsManager :=
  if negb connected then ([], m)
  else
    match fetched with
    | Throw _ => ([], m)
    | Ok mcpTools =>
        let created := List.map (newWrapper clientSessionId) mcpTools in
        let synced :=
          match clientSessionId with
          | Some s => if String.eqb s EmptyString then created
                      else setSessionIdForAllTools s created
          | None => created
          end in
        (synced, synced)
    end.

(** [refreshTools()] *)
Definition refreshTools (connected : bool) (clientSessionId : option string)
    (fetched : Result (list MCPTool)) (m : MCPToolsManager)
  : list MCPToolWrapper * MCPToolsManager :=
  let '(tools, m') := initializeTools connected clientSessionId fetched m in
  match clientSessionId with
  | Some s => if String.eqb s EmptyString then (tools, m')
              else (tools, setSessionIdForAllTools s m')
  | None => (tools, m')
  end.

Definition getTool (toolName : string) (m : MCPToolsManager) : option MCPToolWrapper :=
  List.find (fun w => String.eqb (name (mcpTool w)) toolName) m.

Definition getToolNames (m : MCPToolsManager) : list string :=
  List.map (fun w => name (mcpTool w)) m.

(** ** Properties *)

Lemma setSessionIdForAllTools_names sessionId m :
  getToolNames (setSessionIdForAllTools sessionId m) = getToolNames m.
Proof.
  unfold getToolNames, setSessionIdForAllTools. rewrite List.map_map. reflexivity.
Qed.

(** X22. A successful [initializeTools] wraps the fetched tools in
    their order, and every wrapper holds the session identifier of the
    client, or the placeholder pending-session-id when the client has
    none. When the client is not connected or the fetch fails, the call
    returns no tool, while the manager keeps the wrappers it had. *)
Theorem initializeTools_result connected clientSessionId fetched m :
  let '(returned, m') := initializeTools connected clientSessionId fetched m in
  match fetched with
  | Ok mcpTools =>
      if connected then
        returned = m' /\
        List.map mcpTool m' = mcpTools /\
        Forall (fun w => currentSessionId w = orElse clientSessionId "pending-session-id") m'
      else returned = [] /\ m' = m
  | Throw _ => returned = [] /\ m' = m
  end.
Proof.
  unfold initializeTools. destruct connected; simpl.
  - destruct fetched as [mcpTools|msg]; [|split; reflexivity].
    assert (Hcreated : forall s,
              List.map mcpTool (List.map (newWrapper s) mcpTools) = mcpTools).
    { intros s. rewrite List.map_map. simpl. apply List.map_id. }
    destruct clientSessionId as [s|].
    + destruct (String.eqb s EmptyString) eqn:E.
      * split; [reflexivity|]. split; [apply Hcreated|].
        apply Forall_forall. intros w Hw. apply list_elem_of_In in Hw.
        apply in_map_iff in Hw as (t & <- & _). reflexivity.
      * split; [reflexivity|]. split.
        -- unfold setSessionIdForAllTools. rewrite List.map_map. simpl.
           rewrite <- (Hcreated (Some s)) at 2. reflexivity.
        -- apply Forall_forall. intros w Hw. apply list_elem_of_In in Hw.
           apply in_map_iff in Hw as (w0 & <- & _). simpl. rewrite E. reflexivity.
    + split; [reflexivity|]. split; [apply Hcreated|].
      apply Forall_forall. intros w Hw. apply list_elem_of_In in Hw.
      apply in_map_iff in Hw as (t & <- & _). reflexivity.
  - destruct fetched; split; reflexivity.
Qed.

(** X23. While the client holds a session identifier, the session
    identifier that a wrapper sends is the client's:
    [setSessionIdForAllTools], which [processMessage] calls with the
    session of the chat, changes neither what [execute] does nor what
    [getSessionId] returns. Only when the client holds none does the
    wrapper send the identifier it was given last. *)
Theorem wrapper_session_is_clients s chat w callTool input :
  (s <> EmptyString ->
   execute (setSessionId chat w) (Some s) callTool input = execute w (Some s) callTool input /\
   getSessionId (Some s) (setSessionId chat w) = s /\
   forall call, In call (calls (execute w (Some s) callTool input)) -> snd call = s) /\
  (forall call, In call (calls (execute (setSessionId chat w) None callTool input)) ->
                snd call = chat).
Proof.
  unfold execute, executeInternal, getSessionId, effectiveSession, orElse. simpl. split.
  - intros Hs. apply String.eqb_neq in Hs. rewrite Hs. repeat split.
    intros call. destruct (prepareArguments (mcpTool w) input) as [[args ws]|msg]; simpl.
    + intros [<-|[]]. reflexivity.
    + intros [].
  - intros call. destruct (prepareArguments (mcpTool w) input) as [[args ws]|msg]; simpl.
    + intros [<-|[]]. reflexivity.
    + intros [].
Qed.

Definition echoTool : MCPTool := {|
  name := "echo";
  tool_description := "Echo a text";
  inputSchema := {|
    properties := [("text", {| type := TString; description := None; enum := None |})];
    required := ["text"]
  |}
|}.

Lemma wrapper_session_is_clients_witness :
  calls (execute (setSessionId "chat-42" (newWrapper (Some "mcp-1") echoTool))
           (Some "mcp-1") (fun _ _ _ => Throw "down") (JStr "hi"))
  = [("echo", [("text", JStr "hi")], "mcp-1")].
Proof.
  rewrite (proj1 (proj1 (wrapper_session_is_clients "mcp-1" "chat-42"
                           (newWrapper (Some "mcp-1") echoTool)
                           (fun _ _ _ => Throw "down") (JStr "hi"))
                    ltac:(discriminate))).
  reflexivity.
Defined.

End Manager.

(** * The event stream to the browser: [SSEStream] and the chat route *)

Module Stream.
Import JS.

(** ** Messages (types/api.ts, [StreamMessage]) *)

Inductive MessageType :=
  | Start | Token | ToolCall | ToolResult | Error | End_.

Record ToolCallInfo := {
  call_name : string;
  call_arguments : Obj;
  call_sessionId : string
}.

Record StreamMessage := {
  type : MessageType;
  sessionId : option string;
  content : option string;
  tool : option string;
  toolCall : option ToolCallInfo;
  result : option JVal;
  error : option string;
  timestamp : option string
}.

Definition message (t : MessageType) (sid : option string) : StreamMessage := {|
  type := t; sessionId := sid; content := None; tool := None; toolCall := None;
  result := None; error := None; timestamp := None
|}.

(** What [response.write] receives: the frame [data: <JSON>] of a
    message, kept as the message that is serialised, or the heartbeat
    comment. The messages are JSON values, for which [JSON.stringify]
    does not throw. *)
Inductive Frame :=
  | Data (m : StreamMessage)
  | Heartbeat.

(** ** The stream *)

Record SSEStream := {
  isActive : bool;
  heartbeatInterval : bool;     (* the interval is set *)
  written : list Frame;         (* frames written, oldest first *)
  ended : nat                   (* calls of [response.end()] *)
}.

(** [{...message, timestamp: message.timestamp || new Date().toISOString()}] *)
Definition stamped (now : string) (m : StreamMessage) : StreamMessage := {|
  type := type m; sessionId := sessionId m; content := content m; tool := tool m;
  toolCall := toolCall m; result := result m; error := error m;
  timestamp := Some (match timestamp m with
                     | Some t => if String.eqb t EmptyString then now else t
                     | None => now
                     end)
|}.

(** [sendMessage(message)]; its [catch] branch is not reached, as
    serialising a message does not throw. *)
Definition sendMessage (now : string) (m : StreamMessage) (s : SSEStream) : SSEStream :=
  if negb (isActive s) then s
  else {| isActive := isActive s; heartbeatInterval := heartbeatInterval s;
          written := written s ++ [Data (stamped now m)]; ended := ended s |}.

(** The constructor with [setupSSE]; [now] is the time of the start
    message. *)
Definition createSSEStream (now : string) : SSEStream :=
  sendMessage now
    {| type := Start; sessionId := None; content := None; tool := None; toolCall := None;
       result := None; error := None; timestamp := Some now |}
    {| isActive := true; heartbeatInterval := true; written := []; ended := 0 |}.

Definition cleanup (s : SSEStream) : SSEStream :=
  if negb (isActive s) then s
  else {| isActive := false; heartbeatInterval := false;
          written := written s; ended := S (ended s) |}.

Definition sendToken (now content : string) (sid : option string) (s : SSEStream) : SSEStream :=
  sendMessage now
    {| type := Token; sessionId := sid; content := Some content; tool := None;
       toolCall := None; result := None; error := None; timestamp := None |} s.

Definition sendToolCall (now toolName : string) (call : ToolCallInfo) (sid : option string)
    (s : SSEStream) : SSEStream :=
  sendMessage now
    {| type := ToolCall; sessionId := sid; content := None; tool := Some toolName;
       toolCall := Some call; result := None; error := None; timestamp := None |} s.

Definition sendToolResult (now : string) (res : JVal) (sid : option string)
    (s : SSEStream) : SSEStream :=
  sendMessage now
    {| type := ToolResult; sessionId := sid; content := None; tool := None;
       toolCall := None; result := Some res; error := None; timestamp := None |} s.

Definition sendError (now err : string) (sid : option string) (s : SSEStream) : SSEStream :=
  sendMessage now
    {| type := Error; sessionId := sid; content := None; tool := None;
       toolCall := None; result := None; error := Some err; timestamp := None |} s.

Definition sendEnd (now : string) (sid : option string) (s : SSEStream) : SSEStream :=
  cleanup (sendMessage now (message End_ sid) s).

(** The heartbeat interval fires. *)
Definition heartbeat (s : SSEStream) : SSEStream :=
  if heartbeatInterval s && isActive s
  then {| isActive := isActive s; heartbeatInterval := heartbeatInterval s;
          written := written s ++ [Heartbeat]; ended := ended s |}
  else s.

(** What can happen to a stream: the calls of its methods, the
    heartbeat, and the close and error events of the response, which run
    [cleanup]. *)
Inductive Op :=
  | SendToken (now content : string) (sid : option string)
  | SendToolCall (now toolName : string) (call : ToolCallInfo) (sid : option string)
  | SendToolResult (now : string) (res : JVal) (sid : option string)
  | SendError (now err : string) (sid : option string)
  | SendEnd (now : string) (sid : option string)
  | Tick
  | Closed
  | Failed.

Definition apply (op : Op) (s : SSEStream) : SSEStream :=
  match op with
  | SendToken now c sid => sendToken now c sid s
  | SendToolCall now t call sid => sendToolCall now t call sid s
  | SendToolResult now r sid => sendToolResult now r sid s
  | SendError now e sid => sendError now e sid s
  | SendEnd now sid => sendEnd now sid s
  | Tick => heartbeat s
  | Closed | Failed => cleanup s
  end.

Definition run (ops : list Op) (s : SSEStream) : SSEStream :=
  fold_left (fun s op => apply op s) ops s.

(** ** The streaming branch of the chat route

    [exchange] is what [processWithManualToolExecution] and the
    browser do to the stream while the agent works, [response] how the
    exchange with the model ends. *)

(** [processMessage(message, sessionId, stream)], as far as the stream
    is concerned. *)
Definition processMessage_stream (agentReady : bool) (exchange : list Op)
    (response : Result string) (nowError : string) (sid : string) (s : SSEStream)
  : SSEStream :=
  if negb agentReady then s
  else
    match response with
    | Ok _ => run exchange s
    | Throw msg =>
        sendError nowError ("Error processing message: " +:+ msg) (Some sid)
          (run exchange s)
    end.

(** What [processMessage] returns or throws. *)
Definition processMessage_outcome (agentReady : bool) (response : Result string)
  : Result string :=
  if negb agentReady then Throw "Agent not initialized" else response.

(** The handler of [POST /chat] with [stream] set: the stream when the
    handler returns. *)
Definition chatStream (agentReady : bool) (exchange : list Op) (response : Result string)
    (nowStart nowError nowError2 nowEnd : string) (sid : string) : SSEStream :=
  let sseStream := createSSEStream nowStart in
  let s := processMessage_stream agentReady exchange response nowError sid sseStream in
  match processMessage_outcome agentReady response with
  | Ok _ => sendEnd nowEnd (Some sid) s
  | Throw msg => sendEnd nowEnd (Some sid) (sendError nowError2 msg (Some sid) s)
  end.

(** ** Properties *)

Lemma apply_inactive op s : isActive s = false -> apply op s = s.
Proof.
  intros H. destruct op; simpl;
    unfold sendToken, sendToolCall, sendToolResult, sendError, sendEnd, cleanup,
      heartbeat, sendMessage; rewrite ?H; simpl; rewrite ?H; simpl;
    rewrite ?andb_false_r; reflexivity.
Qed.

(** X24. Once a stream is inactive, after [sendEnd], after the
    browser closed the connection or after an error of the response,
    nothing that is done to it has any effect: no frame is written and
    the response is not ended again. *)
Theorem closed_stream_is_inert ops s :
  isActive s = false -> run ops s = s.
Proof.
  revert s. induction ops as [|op ops IH]; intros s H; [reflexivity|].
  simpl. rewrite apply_inactive by exact H. apply IH, H.
Qed.

Lemma closed_stream_is_inert_witness :
  run [SendToken "t2" "late" None; Tick; SendEnd "t3" None]
      (sendEnd "t1" None (createSSEStream "t0"))
  = sendEnd "t1" None (createSSEStream "t0").
Proof.
  apply (closed_stream_is_inert [SendToken "t2" "late" None; Tick; SendEnd "t3" None]
           (sendEnd "t1" None (createSSEStream "t0"))).
  reflexivity.
Defined.

(** The state of a stream that was set up by its constructor: the
    heartbeat interval is set exactly while the stream is active, the
    response has been ended once if the stream is inactive and never
    otherwise. *)
Definition consistent (s : SSEStream) : Prop :=
  heartbeatInterval s = isActive s /\ ended s = (if isActive s then 0 else 1).

Lemma apply_consistent op s :
  consistent s -> consistent (apply op s) /\ exists more, written (apply op s) = written s ++ more.
Proof.
  intros [Hh He]. destruct (isActive s) eqn:Ha.
  - destruct op; simpl;
      unfold sendToken, sendToolCall, sendToolResult, sendError, sendEnd, cleanup,
        heartbeat, sendMessage, consistent; rewrite ?Ha, ?Hh; simpl; rewrite ?Ha; simpl;
      (split; [split; auto; try (rewrite He; reflexivity) | eauto using app_nil_r]).
    all: try (exists []; symmetry; apply app_nil_r).
  - rewrite apply_inactive by exact Ha. split.
    + unfold consistent. rewrite Ha. auto.
    + exists []. symmetry. apply app_nil_r.
Qed.

Lemma run_consistent ops s :
  consistent s -> consistent (run ops s) /\ exists more, written (run ops s) = written s ++ more.
Proof.
  revert s. induction ops as [|op ops IH]; intros s Hs.
  - split; [exact Hs|]. exists []. symmetry. apply app_nil_r.
  - simpl. destruct (apply_consistent op s Hs) as [Hs' [m1 Hw1]].
    destruct (IH _ Hs') as [Hs'' [m2 Hw2]]. split; [exact Hs''|].
    exists (m1 ++ m2). rewrite Hw2, Hw1, app_assoc. reflexivity.
Qed.

Definition startFrame (now : string) : Frame :=
  Data {| type := Start; sessionId := None; content := None; tool := None;
          toolCall := None; result := None; error := None; timestamp := Some now |}.

(** X25. Whatever happens to a stream after its construction, the
    first frame it wrote is the start message, frames are only added,
    the response is ended at most once, and exactly once when the stream
    is inactive, and the heartbeat interval is set exactly while the
    stream is active. *)
Theorem stream_lifecycle now ops :
  let s := run ops (createSSEStream now) in
  (exists more, written s = startFrame now :: more) /\
  ended s = (if isActive s then 0 else 1) /\
  heartbeatInterval s = isActive s.
Proof.
  intros s.
  assert (Hc : consistent (createSSEStream now)) by (split; reflexivity).
  destruct (run_consistent ops _ Hc) as [[Hh He] [more Hw]].
  split; [|split; assumption].
  exists more. unfold s. rewrite Hw.
  assert (Hstart : written (createSSEStream now) = [startFrame now]).
  { unfold createSSEStream, sendMessage, startFrame, stamped. simpl.
    destruct (String.eqb now EmptyString) eqn:E; [|reflexivity].
    apply String.eqb_eq in E. subst now. reflexivity. }
  rewrite Hstart. reflexivity.
Qed.

(** An operation that leaves an active stream active. *)
Definition keepsOpen (op : Op) : bool :=
  match op with
  | SendEnd _ _ | Closed | Failed => false
  | _ => true
  end.

Lemma run_keepsOpen ops s :
  forallb keepsOpen ops = true -> isActive s = true -> isActive (run ops s) = true.
Proof.
  revert s. induction ops as [|op ops IH]; intros s Hops Ha; [exact Ha|].
  simpl in Hops. apply andb_true_iff in Hops as [Hop Hops]. simpl. apply IH; [exact Hops|].
  destruct op; try discriminate Hop; simpl;
    unfold sendToken, sendToolCall, sendToolResult, sendError, heartbeat, sendMessage;
    rewrite Ha; simpl; try reflexivity.
  destruct (heartbeatInterval s); simpl; assumption.
Qed.

Definition errorFrame (now err sid : string) : Frame :=
  Data {| type := Error; sessionId := Some sid; content := None; tool := None;
          toolCall := None; result := None; error := Some err; timestamp := Some now |}.

Definition endFrame (now sid : string) : Frame :=
  Data {| type := End_; sessionId := Some sid; content := None; tool := None;
          toolCall := None; result := None; error := None; timestamp := Some now |}.

Lemma sendError_active now err sid s :
  isActive s = true ->
  isActive (sendError now err (Some sid) s) = true /\
  written (sendError now err (Some sid) s) = written s ++ [errorFrame now err sid].
Proof.
  intros Ha. unfold sendError, sendMessage. rewrite Ha. simpl. split; reflexivity.
Qed.

Lemma sendEnd_active now sid s :
  isActive s = true ->
  written (sendEnd now (Some sid) s) = written s ++ [endFrame now sid].
Proof.
  intros Ha. unfold sendEnd, cleanup, sendMessage. rewrite Ha. reflexivity.
Qed.

Lemma sendEnd_inactive now sid s :
  consistent s ->
  isActive (sendEnd now sid s) = false /\ ended (sendEnd now sid s) = 1.
Proof.
  intros [Hh He]. unfold sendEnd, cleanup, sendMessage.
  destruct (isActive s) eqn:Ha; simpl; rewrite ?Ha; simpl; auto.
Qed.

Lemma sendError_consistent now err sid s : consistent s -> consistent (sendError now err sid s).
Proof. intros Hs. apply (apply_consistent (SendError now err sid) s Hs). Qed.

(** X26. The streaming chat handler always finishes its stream: when
    it returns, the stream is inactive and the response has been ended
    exactly once, whether the agent answered or threw. If nothing closed
    the stream meanwhile, the frames written after those of the exchange
    are: the end message when the agent answered; two error messages and
    the end message when the exchange failed, the first written by
    [processMessage] with the prefix Error processing message, the
    second by the handler with the bare message; one error message and
    the end message when the agent is not initialized. *)
Theorem chatStream_finishes agentReady exchange response nowStart nowError nowError2 nowEnd sid :
  let s := chatStream agentReady exchange response nowStart nowError nowError2 nowEnd sid in
  isActive s = false /\ ended s = 1 /\
  (forallb keepsOpen exchange = true ->
   written s =
     (if agentReady then written (run exchange (createSSEStream nowStart))
      else written (createSSEStream nowStart)) ++
     match agentReady, response with
     | true, Ok _ => [endFrame nowEnd sid]
     | true, Throw msg =>
         [errorFrame nowError ("Error processing message: " +:+ msg) sid;
          errorFrame nowError2 msg sid; endFrame nowEnd sid]
     | false, _ => [errorFrame nowError2 "Agent not initialized" sid; endFrame nowEnd sid]
     end).
Proof.
  intros s.
  assert (Hc0 : consistent (createSSEStream nowStart)) by (split; reflexivity).
  assert (Ha0 : isActive (createSSEStream nowStart) = true) by reflexivity.
  pose proof (proj1 (run_consistent exchange _ Hc0)) as Hc1.
  unfold s, chatStream, processMessage_stream, processMessage_outcome.
  destruct agentReady; simpl.
  - destruct response as [text|msg].
    + split; [apply sendEnd_inactive, Hc1|]. split; [apply sendEnd_inactive, Hc1|].
      intros Hopen. apply sendEnd_active, run_keepsOpen; assumption.
    + assert (Hc2 := sendError_consistent nowError ("Error processing message: " +:+ msg)
                       (Some sid) _ Hc1).
      assert (Hc3 := sendError_consistent nowError2 msg (Some sid) _ Hc2).
      split; [apply sendEnd_inactive, Hc3|]. split; [apply sendEnd_inactive, Hc3|].
      intros Hopen. pose proof (run_keepsOpen exchange _ Hopen Ha0) as Ha1.
      destruct (sendError_active nowError ("Error processing message: " +:+ msg) sid _ Ha1)
        as [Ha2 Hw2].
      destruct (sendError_active nowError2 msg sid _ Ha2) as [Ha3 Hw3].
      rewrite sendEnd_active by exact Ha3. rewrite Hw3, Hw2, <- !app_assoc. reflexivity.
  - split; [reflexivity|]. split; reflexivity.
Qed.

Lemma chatStream_finishes_witness :
  written (chatStream true [SendToken "t1" "h" (Some "s1"); Tick] (Throw "model down")
             "t0" "t2" "t3" "t4" "s1")
  = [startFrame "t0";
     Data {| type := Token; sessionId := Some "s1"; content := Some "h"; tool := None;
             toolCall := None; result := None; error := None; timestamp := Some "t1" |};
     Heartbeat;
     errorFrame "t2" "Error processing message: model down" "s1";
     errorFrame "t3" "model down" "s1";
     endFrame "t4" "s1"].
Proof.
  apply (proj2 (proj2 (chatStream_finishes true [SendToken "t1" "h" (Some "s1"); Tick]
                         (Throw "model down") "t0" "t2" "t3" "t4" "s1"))).
  reflexivity.
Defined.


End Stream.
